(** * rt-slam: the ring buffer of hardware sensors

    A shallow embedding of [include/rtslam/hardwareSensorAbstract.hpp]:
    the generic ring buffer [HardwareSensorAbstract<T>] with its position
    bookkeeping, its release primitives and its retrieval functions, and the
    quantity registry of [HardwareSensorProprioAbstract]; and of the message
    and the pass over the clients of [include/rtslam/exporterSocket.hpp].

    Left out: [getLastUnreadRaw], whose behaviour depends on that of the
    locks (it takes [mutex_data] while it holds it), the threads of the
    exporter, and the display classes of [display_osg.hpp], whose member
    functions are empty or defined elsewhere.

    Conventions of the embedding.
    - [int] members and locals are integers of [Z].  Signed overflow has no
      defined behaviour in the source, and the model covers the executions
      in which no signed arithmetic overflows.  Conversions between [int],
      [unsigned] and [size_t] and unsigned arithmetic wrap, and the wrap is
      written out ([uint32], [sint32], [size_t]).
    - [double] timestamps are rationals of [Q]: every finite double is a
      rational and the source only compares timestamps.
    - an access outside the buffer, and the read of the timestamp of a
      reading that holds none (a default-constructed [RawVec], whose vector
      has no element), raise the error [BAD_INDEX] of the model.
    - the mutex, the condition variables and the notifications carry no data;
      the member functions are modelled as run under the lock, as state
      transformers in a small state-and-exception monad. *)

From Stdlib Require Import ZArith QArith List Bool Lia Lqa.
Import ListNotations.

Open Scope Z_scope.

#[local] Arguments Z.eqb : simpl never.
#[local] Arguments Z.leb : simpl never.
#[local] Arguments Z.ltb : simpl never.
#[local] Arguments Z.add : simpl never.
#[local] Arguments Z.sub : simpl never.
#[local] Arguments Z.mul : simpl never.
#[local] Arguments Z.quot : simpl never.
#[local] Arguments Z.rem : simpl never.
#[local] Arguments Z.modulo : simpl never.
#[local] Arguments Z.div : simpl never.
#[local] Arguments Z.pow : simpl never.
#[local] Arguments Z.of_nat : simpl never.
#[local] Arguments Z.to_nat : simpl never.

(** * The model *)

(** ** Machine integers *)

Definition uint32 (x : Z) : Z := x mod 2 ^ 32.
Definition sint32 (x : Z) : Z := (x + 2 ^ 31) mod 2 ^ 32 - 2 ^ 31.
Definition size_t (x : Z) : Z := x mod 2 ^ 64.
Definition INT_MAX : Z := 2 ^ 31 - 1.

(** ** Comparisons of doubles *)

Definition dle (a b : Q) : bool := Qle_bool a b.
Definition dge (a b : Q) : bool := Qle_bool b a.
Definition dlt (a b : Q) : bool := negb (Qle_bool b a).
Definition dgt (a b : Q) : bool := negb (Qle_bool a b).

(** The literal [-0.1] of [getRaws], as the double it denotes. *)
Definition from_start : Q := (-3602879701896397 # 36028797018963968)%Q.

(** The mark [-99.] that [initData] writes in the timestamp of every slot. *)
Definition no_data_mark : Q := (-99 # 1)%Q.

(** ** Readings *)

(** What the template parameter [T] must provide: the two overloads
    [extractRawTimestamp] and [extractRawArrival], and a default-constructed
    value (the constructor builds [buffer(bufferSize)]).
    [extractRawTimestamp] answers [None] where the source reads outside the
    reading: [data(0)] of a vector without elements, the timestamp behind a
    null [raw_ptr_t]. *)
Class Raw (T : Type) := {
  extractRawTimestamp : T -> option Q;
  extractRawArrival : T -> Q;
  raw_default : T
}.

(** [RawVec]: [data] is a vector of doubles and [data(0)] the timestamp.
    A default-constructed [RawVec] has no element, and [data(0)] is then out
    of range; [initData] sizes every slot to [readingSize()].  The default
    constructor leaves [arrival] uninitialised: [raw_default] takes [0], and
    no property below depends on it. *)
Record RawVec := mkRawVec { data : list Q; arrival : Q }.

#[export] Instance RawVec_Raw : Raw RawVec := {
  extractRawTimestamp r := nth_error (data r) 0;
  extractRawArrival r := arrival r;
  raw_default := mkRawVec [] 0%Q
}.

Record RawInfo := mkRawInfo { id : Z; timestamp : Q; info_arrival : Q }.

Record RawInfos := mkRawInfos {
  available : list RawInfo;
  next : RawInfo;
  process_time : Q;
  integrate_all : bool
}.

(** ** Exceptions and results *)

Inductive exn :=
| GENERIC_ERROR     (* RtslamException::GENERIC_ERROR *)
| BUFFER_OVERFLOW   (* RtslamException::BUFFER_OVERFLOW *)
| ASSERT_FAILED     (* JFR_ASSERT *)
| BAD_INDEX         (* access outside [buffer] or outside a reading *)
| OUT_OF_FUEL.      (* a loop of the model ran out of steps *)

Inductive res (A : Type) :=
| Ok (a : A)
| Err (e : exn).
Arguments Ok {A} a.
Arguments Err {A} e.

(** ** Integer ranges *)

(** [zrange lo hi] is [lo, lo+1, ..., hi-1], as [ublas::range(lo,hi)] and as
    the counting loops of the source enumerate it. *)
Definition zrange (lo hi : Z) : list Z :=
  map (fun k => lo + Z.of_nat k) (seq 0 (Z.to_nat (hi - lo))).

(** ** The monad of member functions

    A member function runs on the state of its object and returns a value
    or raises; the state it leaves is kept in both cases. *)

Definition M (S A : Type) : Type := S -> res A * S.

Definition ret {S A} (a : A) : M S A := fun s => (Ok a, s).
Definition throw {S A} (e : exn) : M S A := fun s => (Err e, s).
Definition bind {S A B} (m : M S A) (k : A -> M S B) : M S B :=
  fun s => match m s with
           | (Ok a, s') => k a s'
           | (Err e, s') => (Err e, s')
           end.
Definition get {S} : M S S := fun s => (Ok s, s).
Definition modify {S} (f : S -> S) : M S unit := fun s => (Ok tt, f s).
Definition when {S} (b : bool) (m : M S unit) : M S unit :=
  if b then m else ret tt.

Notation "x <- m ;; k" := (bind m (fun x => k))
  (at level 61, m at next level, right associativity).
Notation "m ;;; k" := (bind m (fun _ => k))
  (at level 61, right associativity).

Section RingBuffer.

Context {T : Type} `{Raw T}.

(** ** The state of [HardwareSensorAbstract<T>]

    [index] is the value held by the [VariableCondition<int>] of that name.
    The constructor leaves [last_sent_pos], [data_period] and [arrival_delay]
    uninitialised; [init] takes their values as arguments. *)
Record Sensor := mkSensor {
  write_pos : Z;
  read_pos : Z;
  buffer_full : bool;
  read_pos_used : bool;
  index : Z;
  data_count : Z;
  last_sent_pos : Z;
  no_more_data : bool;
  timestamps_correction : Q;
  data_period : Q;
  arrival_delay : Q;
  started : bool;
  stopping : bool;
  bufferSize : Z;
  buffer : list T
}.

Definition set_write_pos (v : Z) (s : Sensor) : Sensor :=
  mkSensor v (read_pos s) (buffer_full s) (read_pos_used s) (index s)
    (data_count s) (last_sent_pos s) (no_more_data s) (timestamps_correction s)
    (data_period s) (arrival_delay s) (started s) (stopping s) (bufferSize s)
    (buffer s).
Definition set_read_pos (v : Z) (s : Sensor) : Sensor :=
  mkSensor (write_pos s) v (buffer_full s) (read_pos_used s) (index s)
    (data_count s) (last_sent_pos s) (no_more_data s) (timestamps_correction s)
    (data_period s) (arrival_delay s) (started s) (stopping s) (bufferSize s)
    (buffer s).
Definition set_buffer_full (v : bool) (s : Sensor) : Sensor :=
  mkSensor (write_pos s) (read_pos s) v (read_pos_used s) (index s)
    (data_count s) (last_sent_pos s) (no_more_data s) (timestamps_correction s)
    (data_period s) (arrival_delay s) (started s) (stopping s) (bufferSize s)
    (buffer s).
Definition set_read_pos_used (v : bool) (s : Sensor) : Sensor :=
  mkSensor (write_pos s) (read_pos s) (buffer_full s) v (index s)
    (data_count s) (last_sent_pos s) (no_more_data s) (timestamps_correction s)
    (data_period s) (arrival_delay s) (started s) (stopping s) (bufferSize s)
    (buffer s).
Definition set_index (v : Z) (s : Sensor) : Sensor :=
  mkSensor (write_pos s) (read_pos s) (buffer_full s) (read_pos_used s) v
    (data_count s) (last_sent_pos s) (no_more_data s) (timestamps_correction s)
    (data_period s) (arrival_delay s) (started s) (stopping s) (bufferSize s)
    (buffer s).
Definition set_data_count (v : Z) (s : Sensor) : Sensor :=
  mkSensor (write_pos s) (read_pos s) (buffer_full s) (read_pos_used s)
    (index s) v (last_sent_pos s) (no_more_data s) (timestamps_correction s)
    (data_period s) (arrival_delay s) (started s) (stopping s) (bufferSize s)
    (buffer s).
Definition set_last_sent_pos (v : Z) (s : Sensor) : Sensor :=
  mkSensor (write_pos s) (read_pos s) (buffer_full s) (read_pos_used s)
    (index s) (data_count s) v (no_more_data s) (timestamps_correction s)
    (data_period s) (arrival_delay s) (started s) (stopping s) (bufferSize s)
    (buffer s).
Definition set_no_more_data (v : bool) (s : Sensor) : Sensor :=
  mkSensor (write_pos s) (read_pos s) (buffer_full s) (read_pos_used s)
    (index s) (data_count s) (last_sent_pos s) v (timestamps_correction s)
    (data_period s) (arrival_delay s) (started s) (stopping s) (bufferSize s)
    (buffer s).
Definition set_buffer (v : list T) (s : Sensor) : Sensor :=
  mkSensor (write_pos s) (read_pos s) (buffer_full s) (read_pos_used s)
    (index s) (data_count s) (last_sent_pos s) (no_more_data s)
    (timestamps_correction s) (data_period s) (arrival_delay s) (started s)
    (stopping s) (bufferSize s) v.

(** The constructor: [bufferSize] arrives as [unsigned] and is stored in an
    [int]; the buffer gets that many default-constructed slots. *)
Definition init (size last_sent : Z) (period delay : Q) : Sensor :=
  mkSensor 0 0 false false (-1) 0 last_sent false 0%Q period delay false false
    (sint32 (uint32 size)) (repeat raw_default (Z.to_nat (uint32 size))).

(** [getLastTimestamp] is pure virtual: the driver's answer is a parameter. *)
Variable getLastTimestamp : Sensor -> Q.

(** ** Slot store *)

(** [buffer(i)] and [buffer[i]].  The source does not check the index; the
    model raises [BAD_INDEX] outside the buffer. *)
Definition slotOf (s : Sensor) (i : Z) : option T :=
  if i <? 0 then None else nth_error (buffer s) (Z.to_nat i).

Definition slot (i : Z) : M Sensor T :=
  s <- get ;;
  match slotOf s i with
  | Some r => ret r
  | None => throw BAD_INDEX
  end.

(** [extractRawTimestamp(r)]; the model raises [BAD_INDEX] where the reading
    holds no timestamp. *)
Definition stamp (r : T) : M Sensor Q :=
  match extractRawTimestamp r with
  | Some t => ret t
  | None => throw BAD_INDEX
  end.

(** [extractRawTimestamp(buffer(i))] *)
Definition slotStamp (i : Z) : M Sensor Q :=
  r <- slot i ;; stamp r.

Fixpoint list_set (l : list T) (n : nat) (r : T) : list T :=
  match l, n with
  | [], _ => []
  | _ :: l', O => r :: l'
  | x :: l', S n' => x :: list_set l' n' r
  end.

Definition setSlot (i : Z) (r : T) : M Sensor unit :=
  s <- get ;;
  match slotOf s i with
  | Some _ => modify (set_buffer (list_set (buffer s) (Z.to_nat i) r))
  | None => throw BAD_INDEX
  end.

(** ** Occupancy tracker *)

Definition isFull (s : Sensor) : bool :=
  (read_pos s =? write_pos s) && buffer_full s.

Definition getFirstUnreadPos (s : Sensor) : Z :=
  if negb (read_pos_used s) then read_pos s
  else if negb (read_pos s =? bufferSize s - 1) then read_pos s + 1 else 0.

Definition getLastUnreadPos (s : Sensor) : Z :=
  if write_pos s =? 0 then bufferSize s - 1 else write_pos s - 1.

Definition isEmpty (s : Sensor) : bool :=
  (getFirstUnreadPos s =? write_pos s) && negb (buffer_full s).

Definition getWritePos : M Sensor Z :=
  s <- get ;;
  if isFull s then throw GENERIC_ERROR else ret (write_pos s).

Definition incWritePos : M Sensor unit :=
  modify (fun s => set_write_pos (write_pos s + 1) s) ;;;
  s <- get ;;
  when (bufferSize s <=? write_pos s) (modify (set_write_pos 0)) ;;;
  s <- get ;;
  when (write_pos s =? read_pos s) (modify (set_buffer_full true)) ;;;
  modify (fun s => set_data_count (data_count s + 1) s).

(** ** Release policy

    The argument [id] is an [unsigned]; [read_pos] is an [int]. *)

(** release until id, excluding id *)
Definition releaseUntil (id : Z) : M Sensor unit :=
  modify (set_read_pos (sint32 id)) ;;;
  modify (set_read_pos_used true) ;;;
  s <- get ;;
  when (getFirstUnreadPos s =? write_pos s) (modify (set_buffer_full false)).

(** release until id, including id *)
Definition release (id : Z) : M Sensor unit :=
  s <- get ;;
  (if negb (id =? uint32 (bufferSize s - 1))
   then modify (set_read_pos (sint32 (uint32 (id + 1))))
   else modify (set_read_pos 0)) ;;;
  s <- get ;;
  when (write_pos s =? read_pos s) (modify (set_buffer_full false)) ;;;
  modify (set_read_pos_used false).

(** [release()] without argument. *)
Definition release_current : M Sensor unit :=
  s <- get ;; release (uint32 (read_pos s)).

(** ** Retrieval engine *)

(** The two loops [while(i_left != i_right)] of [getRaws], searching for the
    bound [t].  [fuel] bounds the number of iterations. *)
Fixpoint dichotomy (fuel : nat) (t : Q) (i_left i_right : Z) : M Sensor Z :=
  if i_left =? i_right then ret i_left
  else match fuel with
       | O => throw OUT_OF_FUEL
       | S fuel' =>
         s <- get ;;
         let j := Z.quot (i_left + i_right) 2 in
         let i := Z.rem j (bufferSize s) in
         ts <- slotStamp i ;;
         if dge ts t
         then dichotomy fuel' t i_left j
         else dichotomy fuel' t (j + 1) i_right
       end.

(** The indirect view that [getRaws] returns, as the list of the slot indices
    it selects, in the order of the view. *)
Definition getRaws (t1 t2 : Q) (release : bool) : M Sensor (list Z) :=
  (if dle t1 t2 then ret tt else throw ASSERT_FAILED) ;;;
  s <- get ;;
  let bs := bufferSize s in
  let fuel := Z.to_nat bs in
  (* find first by dichotomy *)
  i_left <- dichotomy fuel t1 (write_pos s) (write_pos s + bs - 1) ;;
  let i := Z.rem i_left bs in
  let i1 := Z.rem (i - 1 + bs) bs in
  let i1 := if dle t1 from_start then i else i1 in
  ti <- slotStamp i ;;
  let no_larger := dlt ti t1 in
  let no_smaller := i =? write_pos s in
  no_data <- (if no_larger
              then ti1 <- slotStamp i1 ;; ret (dlt ti1 0%Q)
              else ret false) ;;
  if no_data then ret (zrange 0 0)
  else if no_smaller && dgt t1 0%Q then throw BUFFER_OVERFLOW
  else
    (* find last by dichotomy *)
    i2 <- (if no_larger then ret i1
           else i_left2 <- dichotomy fuel t2 i_left (write_pos s + bs - 1) ;;
                ret (Z.rem i_left2 bs)) ;;
    when release (modify (set_read_pos i1)) ;;;
    s' <- get ;;
    if i1 <=? i2 then ret (zrange i1 (i2 + 1))
    else ret (zrange i1 (Z.of_nat (length (buffer s'))) ++ zrange 0 (i2 + 1)).

Definition rawInfoAt (pos : Z) : M Sensor RawInfo :=
  r <- slot pos ;;
  ts <- stamp r ;;
  ret (mkRawInfo pos ts (extractRawArrival r)).

Fixpoint rawInfosAt (l : list Z) : M Sensor (list RawInfo) :=
  match l with
  | [] => ret []
  | pos :: l' =>
    x <- rawInfoAt pos ;; xs <- rawInfosAt l' ;; ret (x :: xs)
  end.

(** [getUnreadRawInfos(infos)]: the status and the new value of [infos].
    [next_date] is a sum of doubles, taken here as the exact sum. *)
Definition getUnreadRawInfos (infos : RawInfos) : M Sensor (Z * RawInfos) :=
  s <- get ;;
  avail <- (if negb (isEmpty s)
            then
              let first := getFirstUnreadPos s in
              let last := getLastUnreadPos s in
              let first_stop := if first <=? last then last
                                else bufferSize s - 1 in
              let second_stop := if first <=? last then -1 else last in
              a1 <- rawInfosAt (zrange first (first_stop + 1)) ;;
              a2 <- rawInfosAt (zrange 0 (second_stop + 1)) ;;
              ret (a1 ++ a2)
            else ret []) ;;
  let next_date := (getLastTimestamp s + data_period s)%Q in
  let infos' := mkRawInfos avail
                  (mkRawInfo 0 next_date (next_date + arrival_delay s)%Q)
                  0%Q (integrate_all infos) in
  if Z.of_nat (length avail) =? 0
  then if no_more_data s then ret (-2, infos') else ret (-1, infos')
  else ret (0, infos').

Definition getNextRawInfo (info : RawInfo) : M Sensor (Z * RawInfo) :=
  s <- get ;;
  if negb (isEmpty s)
  then
    let first := getFirstUnreadPos s in
    ts <- slotStamp first ;;
    ret (0, mkRawInfo first ts 0%Q)
  else if no_more_data s then ret (-2, info) else ret (-1, info).

Definition getRawTimestamp (id : Z) : M Sensor Q := slotStamp id.

Definition observeRaw (id : Z) : M Sensor T := slot id.

Definition getRaw (id : Z) : M Sensor T :=
  releaseUntil id ;;;
  r <- slot id ;;
  modify (set_last_sent_pos (sint32 id)) ;;;
  modify (fun s => set_index (index s + 1) s) ;;;
  ret r.

(** ** The producer

    Modelled from the spec: the drivers that write into the buffer are not
    part of the sources at hand.  A push asks [getWritePos] for the slot
    (rejected when the buffer is full), stores the reading there and calls
    [incWritePos]. *)
Definition push (r : T) : M Sensor unit :=
  pos <- getWritePos ;;
  setSlot pos r ;;;
  incWritePos.

(** ** Well-formed states *)

Definition positions_ok (s : Sensor) : Prop :=
  0 <= write_pos s < bufferSize s /\ 0 <= read_pos s < bufferSize s.

(** The buffer has [bufferSize] slots, and [bufferSize] is an [int]. *)
Definition sized (s : Sensor) : Prop :=
  Z.of_nat (length (buffer s)) = bufferSize s /\ bufferSize s <= INT_MAX.

Definition wf (s : Sensor) : Prop := positions_ok s /\ sized s.

(** ** Repeated calls *)

Fixpoint observeRaw_times (n : nat) (id : Z) : M Sensor (list T) :=
  match n with
  | O => ret []
  | S n' => r <- observeRaw id ;; rs <- observeRaw_times n' id ;; ret (r :: rs)
  end.

(** A consumer that polls both queries [n] times in a row, feeding each call
    the [infos] and [info] objects that the previous one filled. *)
Fixpoint poll (n : nat) (infos : RawInfos) (info : RawInfo)
  : M Sensor (list (Z * Z)) :=
  match n with
  | O => ret []
  | S n' =>
    a <- getUnreadRawInfos infos ;;
    b <- getNextRawInfo info ;;
    rest <- poll n' (snd a) (snd b) ;;
    ret ((fst a, fst b) :: rest)
  end.

(** ** Producer and consumer steps *)

(** The steps a producer and a consumer take on the buffer. *)
Inductive op :=
| OpPush (r : T)
| OpIncWritePos
| OpRelease (id : Z)
| OpReleaseUntil (id : Z)
| OpGetRaws (t1 t2 : Q) (rel : bool).

(** The state a step leaves behind, also when it raises. *)
Definition exec (o : op) (s : Sensor) : Sensor :=
  match o with
  | OpPush r => snd (push r s)
  | OpIncWritePos => snd (incWritePos s)
  | OpRelease id => snd (release id s)
  | OpReleaseUntil id => snd (releaseUntil id s)
  | OpGetRaws t1 t2 rel => snd (getRaws t1 t2 rel s)
  end.

Definition run (ops : list op) (s : Sensor) : Sensor :=
  fold_left (fun s o => exec o s) ops s.

(** The slot index that a release step names lies inside the buffer. *)
Definition op_in_range (size : Z) (o : op) : Prop :=
  match o with
  | OpRelease id | OpReleaseUntil id => 0 <= id < size
  | _ => True
  end.

(** ** Timestamps in the ring *)

(** The timestamp that slot [i] holds, if it holds one. *)
Definition stampOf (s : Sensor) (i : Z) : option Q :=
  match slotOf s i with
  | Some r => extractRawTimestamp r
  | None => None
  end.

(** The timestamp stored in slot [i]; [0] stands for a slot that holds
    none. *)
Definition stampAt (s : Sensor) (i : Z) : Q :=
  match stampOf s i with
  | Some t => t
  | None => 0%Q
  end.

(** Every slot holds a timestamp, as after [initData]. *)
Definition stamped (s : Sensor) : Prop :=
  forall i, 0 <= i < bufferSize s -> stampOf s i <> None.

(** The timestamp at the logical index [j] of the search space
    [write_pos .. write_pos + bufferSize - 1]. *)
Definition stampL (s : Sensor) (j : Z) : Q := stampAt s (j mod bufferSize s).

(** The slots are in chronological order when walked from [write_pos]. *)
Definition chronological (s : Sensor) : Prop :=
  forall a b,
    write_pos s <= a <= b -> b <= write_pos s + bufferSize s - 1 ->
    (stampL s a <= stampL s b)%Q.

(** A boolean check of [chronological]: neighbours in the walk from
    [write_pos] are in order. *)
Definition chronologicalb (s : Sensor) : bool :=
  forallb (fun j => dle (stampL s j) (stampL s (j + 1)))
          (zrange (write_pos s) (write_pos s + bufferSize s - 1)).

(** ** Pre-loaded buffers *)




(** ** Occupancy *)

(** The number of unreleased readings is not a member of the class; it is
    counted along the steps.  A push that is accepted adds one reading.
    With [k] the distance from [read_pos] to the slot named,
    [release(id)] releases the [k+1] oldest readings (through [id]),
    [releaseUntil(id)] the [k] oldest (up to [id], [id] kept), and [getRaws]
    the ones before the slot it moves [read_pos] to; none can release more
    readings than there are. *)
Definition unreleased_step (o : op) (s : Sensor) (n : Z) : Z :=
  match o with
  | OpPush r => match fst (push r s) with Ok _ => n + 1 | Err _ => n end
  | OpIncWritePos => Z.min (n + 1) (bufferSize s)
  | OpRelease id =>
    n - Z.min n ((id - read_pos s) mod bufferSize s + 1)
  | OpReleaseUntil id =>
    n - Z.min n ((id - read_pos s) mod bufferSize s)
  | OpGetRaws _ _ _ =>
    n - Z.min n ((read_pos (exec o s) - read_pos s) mod bufferSize s)
  end.

(** The state and the number of unreleased readings after a list of steps. *)
Fixpoint run_counted (ops : list op) (s : Sensor) (n : Z) : Sensor * Z :=
  match ops with
  | [] => (s, n)
  | o :: ops' => run_counted ops' (exec o s) (unreleased_step o s n)
  end.

(** A step of a well-behaved producer or consumer: a push goes through
    [getWritePos], and a release names a slot that holds an unreleased
    reading. *)
Definition step_ok (o : op) (s : Sensor) (n : Z) : Prop :=
  match o with
  | OpPush _ => True
  | OpIncWritePos => False
  | OpRelease id | OpReleaseUntil id =>
    0 <= id < bufferSize s /\ (id - read_pos s) mod bufferSize s < n
  | OpGetRaws _ _ _ =>
    read_pos (exec o s) = read_pos s \/
    (read_pos (exec o s) - read_pos s) mod bufferSize s < n
  end.

Fixpoint steps_ok (ops : list op) (s : Sensor) (n : Z) : Prop :=
  match ops with
  | [] => True
  | o :: ops' =>
    step_ok o s n /\ steps_ok ops' (exec o s) (unreleased_step o s n)
  end.

(** The invariant that ties the counter to the positions. *)
Definition occupancy (size : Z) (s : Sensor) (n : Z) : Prop :=
  bufferSize s = size /\
  positions_ok s /\
  0 <= n <= size /\
  (write_pos s - read_pos s = n \/ write_pos s - read_pos s = n - size) /\
  (n = size -> buffer_full s = true) /\
  (n = 0 -> buffer_full s = false).

(** ** Further member functions and callers *)

(** [getLastProcessedRaw(raw)]: the slot handed out last, for information
    only. *)
Definition getLastProcessedRaw : M Sensor T :=
  s <- get ;; slot (last_sent_pos s).

(** The slots from [first] to [last] in ring order, as the two loops of
    [getUnreadRawInfos] and the two ranges of [getRaws] enumerate them. *)
Definition ring (size first last : Z) : list Z :=
  if first <=? last then zrange first (last + 1)
  else zrange first size ++ zrange 0 (last + 1).

(** The calls a consumer can make. *)
Inductive call :=
| CallRelease (id : Z)
| CallReleaseCurrent
| CallReleaseUntil (id : Z)
| CallGetRaw (id : Z)
| CallObserveRaw (id : Z)
| CallGetRawTimestamp (id : Z)
| CallGetLastProcessedRaw
| CallGetRaws (t1 t2 : Q) (rel : bool)
| CallGetUnreadRawInfos (infos : RawInfos)
| CallGetNextRawInfo (info : RawInfo).

(** The state a call leaves behind, also when it raises. *)
Definition after (c : call) (s : Sensor) : Sensor :=
  match c with
  | CallRelease id => snd (release id s)
  | CallReleaseCurrent => snd (release_current s)
  | CallReleaseUntil id => snd (releaseUntil id s)
  | CallGetRaw id => snd (getRaw id s)
  | CallObserveRaw id => snd (observeRaw id s)
  | CallGetRawTimestamp id => snd (getRawTimestamp id s)
  | CallGetLastProcessedRaw => snd (getLastProcessedRaw s)
  | CallGetRaws t1 t2 rel => snd (getRaws t1 t2 rel s)
  | CallGetUnreadRawInfos infos => snd (getUnreadRawInfos infos s)
  | CallGetNextRawInfo info => snd (getNextRawInfo info s)
  end.

(** What the producer owns: the write position, the count of readings
    written, the slots and their number, and the end-of-stream flag. *)
Definition producer_side (s : Sensor) : Z * Z * list T * Z * bool :=
  (write_pos s, data_count s, buffer s, bufferSize s, no_more_data s).

(** A producer that pushes the readings of [rs] one after the other and stops
    at the first push that is turned away. *)
Fixpoint pushAll (rs : list T) : M Sensor unit :=
  match rs with
  | [] => ret tt
  | r :: rs' => push r ;;; pushAll rs'
  end.

(** The description of slot [pos] that [getUnreadRawInfos] pushes in
    [infos.available]. *)
Definition rawInfoOf (s : Sensor) (pos : Z) : RawInfo :=
  match slotOf s pos with
  | Some r => mkRawInfo pos (stampAt s pos) (extractRawArrival r)
  | None => mkRawInfo pos 0%Q 0%Q
  end.

(** The unread slots: none when [isEmpty()], else the ring range from
    [getFirstUnreadPos()] to [getLastUnreadPos()]. *)
Definition unread (s : Sensor) : list Z :=
  if isEmpty s then []
  else ring (bufferSize s) (getFirstUnreadPos s) (getLastUnreadPos s).

(** Every unread slot holds a timestamp: it was written by the producer. *)
Definition unread_stamped (s : Sensor) : Prop :=
  forall p, In p (unread s) -> stampOf s p <> None.

(** Boolean checks of [stamped] and [unread_stamped]. *)
Definition has_stamp (s : Sensor) (i : Z) : bool :=
  match stampOf s i with
  | Some _ => true
  | None => false
  end.

Definition stampedb (s : Sensor) : bool :=
  forallb (has_stamp s) (zrange 0 (bufferSize s)).

Definition unread_stampedb (s : Sensor) : bool :=
  forallb (has_stamp s) (unread s).

(** A consumer that takes slot [id] and releases it when done:
    [getRaw(id, raw)] followed by [release()]. *)
Definition getRaw_then_release (id : Z) : M Sensor T :=
  r <- getRaw id ;; release_current ;;; ret r.

(** The state after a list of consumer calls. *)
Definition after_all (cs : list call) (s : Sensor) : Sensor :=
  fold_left (fun s c => after c s) cs s.

(** The calls other than [getRaw]. *)
Definition not_getRaw (c : call) : Prop :=
  match c with
  | CallGetRaw _ => False
  | _ => True
  end.

(** Slot [id] is kept by the consumer: [read_pos] is on it, and when the
    producer's next slot is [id] the buffer is marked full. *)
Definition held (id : Z) (s : Sensor) : Prop :=
  read_pos s = id /\ (write_pos s = id -> buffer_full s = true).

(** The ways [getRaws] can end: the assertion fails, a slot it reads holds
    no timestamp, there is no data, the oldest slot is too recent, or it
    returns the ring range between two slots and releases up to the first if
    asked to. *)
Definition getRaws_outcome (s : Sensor) (t1 t2 : Q) (rel : bool)
    (x : res (list Z)) (s' : Sensor) : Prop :=
  ((t2 < t1)%Q /\ x = Err ASSERT_FAILED /\ s' = s) \/
  ((t1 <= t2)%Q /\ x = Err BAD_INDEX /\ s' = s /\
   exists i, 0 <= i < bufferSize s /\ stampOf s i = None) \/
  ((t1 <= t2)%Q /\ x = Ok [] /\ s' = s) \/
  ((t1 <= t2)%Q /\ (0 < t1)%Q /\
   (2 <= bufferSize s -> (t1 <= stampAt s (write_pos s))%Q) /\
   x = Err BUFFER_OVERFLOW /\ s' = s) \/
  ((t1 <= t2)%Q /\
   exists i1 i2,
     0 <= i1 < bufferSize s /\ 0 <= i2 < bufferSize s /\
     x = Ok (ring (bufferSize s) i1 i2) /\
     s' = if rel then set_read_pos i1 s else s).

(** The states that [k] pushes into the constructed buffer lead to. *)
Definition pushed (size : Z) (k : nat) (s : Sensor) : Prop :=
  bufferSize s = size /\
  sized s /\
  read_pos s = 0 /\
  read_pos_used s = false /\
  Z.of_nat k <= size /\
  write_pos s = (if Z.of_nat k =? size then 0 else Z.of_nat k) /\
  buffer_full s = (Z.of_nat k =? size).

End RingBuffer.

(** * The quantity registry of [HardwareSensorProprioAbstract] *)

Module Proprio.

Inductive Quantity :=
| qPos | qOriQuat | qOriEuler | qVel | qAbsVel | qAngVel | qAbsAngVel
| qAcc | qAbsAcc | qBundleobs | qMag.

Inductive CovType := ctNone | ctVar | ctFull.

Definition all_quantities : list Quantity :=
  [qPos; qOriQuat; qOriEuler; qVel; qAbsVel; qAngVel; qAbsAngVel;
   qAcc; qAbsAcc; qBundleobs; qMag].

Section Registry.

(** The tables [QuantityDataSizes] and [QuantityObsSizes] are declared in the
    class and defined in another translation unit: they are parameters. *)
Variable QuantityDataSizes : Quantity -> Z.
Variable QuantityObsSizes : Quantity -> Z.

(** [quantities] is an array of [int]; [data_size] and [obs_size] are
    [size_t]. *)
Record Registry := mkRegistry {
  quantities : Quantity -> Z;
  data_size : Z;
  obs_size : Z;
  cov_type : CovType
}.

Definition Quantity_eqb (a b : Quantity) : bool :=
  match a, b with
  | qPos, qPos | qOriQuat, qOriQuat | qOriEuler, qOriEuler | qVel, qVel
  | qAbsVel, qAbsVel | qAngVel, qAngVel | qAbsAngVel, qAbsAngVel
  | qAcc, qAcc | qAbsAcc, qAbsAcc | qBundleobs, qBundleobs | qMag, qMag => true
  | _, _ => false
  end.

Definition addQuantity (quantity : Quantity) (r : Registry) : Registry :=
  mkRegistry
    (fun q => if Quantity_eqb q quantity
              then sint32 (size_t (data_size r + 1))
              else quantities r q)
    (size_t (data_size r + QuantityDataSizes quantity))
    (size_t (obs_size r + QuantityObsSizes quantity))
    (cov_type r).

Definition clearQuantities (r : Registry) : Registry :=
  mkRegistry (fun _ => -1) 0 0 (cov_type r).

(** The constructor; whatever the members held before is cleared. *)
Definition construct (covType : CovType) : Registry :=
  clearQuantities (mkRegistry (fun _ => 0) 0 0 covType).

Definition dataSize (r : Registry) : Z := data_size r.
Definition obsSize (r : Registry) : Z := obs_size r.

Definition readingSize (r : Registry) : Z :=
  match cov_type r with
  | ctNone => size_t (1 + data_size r)
  | ctVar => size_t (1 + size_t (data_size r * 2))
  | ctFull =>
    size_t (1 + size_t (data_size r * size_t (data_size r + 3)) / 2)
  end.

Definition getQuantity (quantity : Quantity) (r : Registry) : Z :=
  size_t (quantities r quantity).

(** A driver registers its quantities one after the other. *)
Definition register (qs : list Quantity) (r : Registry) : Registry :=
  fold_left (fun r q => addQuantity q r) qs r.

(** The sum of the measurement widths of the quantities of [qs]. *)
Definition widths (qs : list Quantity) : Z :=
  fold_right (fun q acc => QuantityDataSizes q + acc) 0 qs.


(** The sum of the observation widths of the quantities of [qs]. *)
Definition obs_widths (qs : list Quantity) : Z :=
  fold_right (fun q acc => QuantityObsSizes q + acc) 0 qs.

End Registry.

(** Modelled from the spec: the table [QuantityDataSizes] is defined outside
    the sources at hand.  The widths are those documented with the
    enumeration: three values for a position, an Euler orientation, a
    velocity, an acceleration and the magnetic field, four for a quaternion
    and six for a bundle observation. *)
Definition QuantityDataSizes_doc (q : Quantity) : Z :=
  match q with
  | qOriQuat => 4
  | qBundleobs => 6
  | _ => 3
  end.

(** [initData]: every slot is resized to [readingSize()] values and gets the
    mark [-99.] as timestamp.  [resize] keeps the values that are there; the
    values it adds are not specified by the source and are [0] here. *)
Definition resize (n : nat) (l : list Q) : list Q :=
  firstn n (l ++ repeat 0%Q n).

Definition initData (r : Registry) (s : @Sensor RawVec) : @Sensor RawVec :=
  let size := sint32 (readingSize r) in
  set_buffer
    (map (fun x =>
            mkRawVec
              (match resize (Z.to_nat size) (data x) with
               | [] => []
               | _ :: rest => no_data_mark :: rest
               end)
              (arrival x))
         (buffer s))
    s.

End Proprio.

(** * The state exporter [ExporterSocket] *)

Module Exporter.

Section StateExport.

(** [socket_ptr]: the connection to one client. *)
Context {socket : Type}.

(** [sqrt] of the C library. *)
Variable sqrt : Q -> Q.

(** ** The message

    [message] is an array of [message_size = 25] doubles. *)

Definition message_size : nat := 25.

(** [for(int i = lo; i < hi; ++i) message[i+off] = f(i);] *)
Definition assign_range (lo hi off : nat) (f : nat -> Q) (message : list Q)
  : list Q :=
  fold_left (fun m i => list_set m (i + off) (f i)) (seq lo (hi - lo)) message.

(** [std::swap(message[a], message[b])] *)
Definition swap (a b : nat) (message : list Q) : list Q :=
  match nth_error message a, nth_error message b with
  | Some x, Some y => list_set (list_set message a y) b x
  | _, _ => message
  end.

(** [exportCurrentState].  [try_lock] is the answer of
    [mutex_data.try_lock()]; [state] and [stateStd] are the two vectors that
    [slamPoseToRobotPose] fills, [x] and [P] the state and the covariance of
    the filter.  The result is the message and whether [condition_send] was
    set and notified. *)
Definition exportCurrentState
    (try_lock : bool) (self_time : Q) (state stateStd x : nat -> Q)
    (P : nat -> nat -> Q) (message : list Q) : list Q * bool :=
  if try_lock then
    let m := list_set message 0 self_time in
    let m := assign_range 0 6 1 state m in
    let m := swap (3 + 1) (5 + 1) m in
    let m := assign_range 6 9 1 x m in
    let m := assign_range 9 12 1 (fun _ => 0%Q) m in
    let m := assign_range 0 6 (1 + 12) (fun i => sqrt (stateStd i)) m in
    let m := swap (3 + 1 + 12) (5 + 1 + 12) m in
    let m := assign_range 6 9 (1 + 12) (fun i => sqrt (P i i)) m in
    let m := assign_range 9 12 (1 + 12) (fun _ => 0%Q) m in
    (m, true)
  else (message, false).

(** ** One pass of [sendTask] over the clients

    The pass runs with [mutex_data] held.  [it] is the position of the
    iterator in [socks], [writes] counts the calls of [boost::asio::write]
    and [sent] lists the sockets written to. *)

Record Pass := mkPass {
  socks : list socket;
  it : nat;
  writes : nat;
  sent : list socket
}.

(** [socks.erase(it)]; the iterator returned is at the same position. *)
Definition erase (it : nat) (socks : list socket) : list socket :=
  firstn it socks ++ skipn (S it) socks.

(** The loop over [socks].  [write_ok n] tells whether the [n]-th write of
    the pass returns ([true]) or throws; [fuel] bounds the number of
    iterations, and [None] is a loop that ran out of it. *)
Fixpoint sendLoop (fuel : nat) (write_ok : nat -> bool) (p : Pass)
  : option Pass :=
  match nth_error (socks p) (it p) with
  | None => Some p
  | Some sock =>
    match fuel with
    | O => None
    | S fuel' =>
      let remove_sock := negb (write_ok (writes p)) in
      sendLoop fuel' write_ok
        (mkPass (if remove_sock then erase (it p) (socks p) else socks p)
                (if remove_sock then it p else it p + 1)
                (S (writes p))
                (sent p ++ [sock]))
    end
  end.

Definition sendPass (write_ok : nat -> bool) (clients : list socket)
  : option Pass :=
  sendLoop (length clients) write_ok (mkPass clients 0 0 []).

(** The clients of [l] whose write returns, when the writes to the clients
    of [l] are the writes [n], [n+1], ... of the pass. *)
Definition kept (write_ok : nat -> bool) (n : nat) (l : list socket)
  : list socket :=
  map fst (filter snd (combine l (map write_ok (seq n (length l))))).

End StateExport.

End Exporter.

(** * Scenarios on a proprioceptive sensor *)

Module Scenario.

Import Proprio.

(** A sensor that measures a position without covariance: readings of four
    values, the timestamp first. *)
Definition position_only : Registry :=
  register QuantityDataSizes_doc QuantityDataSizes_doc [qPos] (construct ctNone).

Definition reading (t : Q) : RawVec := mkRawVec [t; 0; 0; 0]%Q (t + 1)%Q.

(** A driver whose last timestamp is that of the newest slot. *)
Definition lastTimestamp (s : @Sensor RawVec) : Q :=
  stampAt s (getLastUnreadPos s).

(** A buffer of [size] slots after [initData]. *)
Definition fresh (size : Z) : @Sensor RawVec :=
  initData position_only (init size 0 0 0).

(** Capacity 4 after the pushes of the timestamps 1, 2, 3 and 4. *)
Definition pushes4 : list (@op RawVec) :=
  [OpPush (reading 1); OpPush (reading 2); OpPush (reading 3);
   OpPush (reading 4)].

Definition full4 : @Sensor RawVec := run pushes4 (fresh 4).

(** Capacity 4 after the pushes of 1, 2 and 3, the release of the first two
    and the pushes of 4 and 5: the readings 3, 4 and 5 sit in the slots
    2, 3 and 0. *)
Definition wrapped4 : @Sensor RawVec :=
  run [OpPush (reading 1); OpPush (reading 2); OpPush (reading 3);
       OpRelease 1; OpPush (reading 4); OpPush (reading 5)] (fresh 4).

(** Capacity 4 after the pushes of 1, 2 and 3 only: slot 3 still holds the
    mark of [initData]. *)
Definition loaded3 : @Sensor RawVec :=
  run [OpPush (reading 1); OpPush (reading 2); OpPush (reading 3)] (fresh 4).


(** An empty buffer whose producer has signalled the end of the stream. *)
Definition finished : @Sensor RawVec := set_no_more_data true (fresh 4).


(** The four pushes, a range query that releases slot 0, and a fifth push. *)
Definition refill4 : list (@op RawVec) :=
  pushes4 ++ [OpGetRaws (5 # 2) 10 true; OpPush (reading 5)].

(** The objects a consumer passes to the queries before the first call. *)
Definition no_infos : RawInfos := mkRawInfos [] (mkRawInfo 0 0 0) 0 false.
Definition no_info : RawInfo := mkRawInfo 0 0 0.

(** Steps of every kind, a bare [incWritePos] among them. *)
Definition mixed_steps : list (@op RawVec) :=
  [OpPush (reading 1); OpIncWritePos; OpPush (reading 3); OpRelease 3;
   OpIncWritePos; OpIncWritePos; OpReleaseUntil 2;
   OpGetRaws (1 # 2) 10 true; OpPush (reading 4)].

End Scenario.

(** * Properties of the ring buffer *)

Section RingBufferFacts.

Context {T : Type} `{Raw T}.

Local Abbreviation Sensor := (@Sensor T).
Local Abbreviation op := (@op T).

Variable getLastTimestamp : Sensor -> Q.

(** ** Basic facts *)

Lemma uint32_small (x : Z) : 0 <= x < 2 ^ 32 -> uint32 x = x.
Proof. intros Hx. unfold uint32. now apply Z.mod_small. Qed.

Lemma sint32_small (x : Z) : - 2 ^ 31 <= x < 2 ^ 31 -> sint32 x = x.
Proof.
  intros Hx. unfold sint32.
  rewrite Z.mod_small; lia.
Qed.

Lemma slotOf_valid (s : Sensor) (i : Z) :
  0 <= i < Z.of_nat (length (buffer s)) -> exists r, slotOf s i = Some r.
Proof.
  intros Hi. unfold slotOf.
  destruct (Z.ltb_spec i 0) as [Hneg | _]; [lia |].
  destruct (nth_error (buffer s) (Z.to_nat i)) as [r |] eqn:E.
  - now exists r.
  - apply nth_error_None in E. lia.
Qed.

Lemma slot_valid (s : Sensor) (i : Z) (r : T) :
  slotOf s i = Some r -> slot i s = (Ok r, s).
Proof. intros E. unfold slot, bind, get, ret. now rewrite E. Qed.

Lemma slot_state (s : Sensor) (i : Z) : snd (slot i s) = s.
Proof. unfold slot, bind, get, ret, throw. now destruct (slotOf s i). Qed.

Lemma slot_cases (s : Sensor) (i : Z) :
  (exists r, slotOf s i = Some r /\ slot i s = (Ok r, s)) \/
  slot i s = (Err BAD_INDEX, s).
Proof.
  unfold slot, bind, get, ret, throw.
  destruct (slotOf s i) as [r |]; [left; now exists r | now right].
Qed.

(** ** Reading timestamps *)

Lemma stampOf_slot (s : Sensor) (i : Z) (r : T) :
  slotOf s i = Some r -> stampOf s i = extractRawTimestamp r.
Proof. intros E. unfold stampOf. now rewrite E. Qed.

Lemma stampAt_stampOf (s : Sensor) (i : Z) (t : Q) :
  stampOf s i = Some t -> stampAt s i = t.
Proof. intros E. unfold stampAt. now rewrite E. Qed.

(** Reading the timestamp of a slot changes nothing; it returns the
    timestamp the slot holds and raises if it holds none. *)
Lemma slotStamp_cases (s : Sensor) (i : Z) :
  (exists t, stampOf s i = Some t /\ slotStamp i s = (Ok t, s)) \/
  (stampOf s i = None /\ slotStamp i s = (Err BAD_INDEX, s)).
Proof.
  unfold slotStamp, stampOf, slot, stamp, bind, get, ret, throw.
  destruct (slotOf s i) as [r |]; [| now right].
  destruct (extractRawTimestamp r) as [t |]; [left; now exists t | now right].
Qed.

Lemma slotStamp_stamped (s : Sensor) (i : Z) :
  stampOf s i <> None -> slotStamp i s = (Ok (stampAt s i), s).
Proof.
  intros Hi. destruct (slotStamp_cases s i) as [(t & Ht & Hrun) | [Hn _]];
    [| contradiction].
  now rewrite (stampAt_stampOf s i t Ht).
Qed.

Lemma getFirstUnreadPos_range (s : Sensor) :
  positions_ok s -> 0 <= getFirstUnreadPos s < bufferSize s.
Proof.
  intros [Hw Hr]. unfold getFirstUnreadPos.
  destruct (read_pos_used s); simpl; [| lia].
  destruct (Z.eqb_spec (read_pos s) (bufferSize s - 1)); simpl; lia.
Qed.

(** ** The release primitives *)

(** The state that [release(id)] leaves, for [0 <= id < bufferSize]. *)
Lemma release_state (s : Sensor) (id : Z) :
  bufferSize s <= INT_MAX ->
  0 <= id < bufferSize s ->
  release id s =
  (Ok tt,
   set_read_pos_used false
     (let s1 := set_read_pos ((id + 1) mod bufferSize s) s in
      if write_pos s =? (id + 1) mod bufferSize s
      then set_buffer_full false s1 else s1)).
Proof.
  intros Hmax Hid. unfold INT_MAX in Hmax.
  unfold release, bind, get, modify, when, ret.
  rewrite (uint32_small (bufferSize s - 1)) by lia.
  destruct (Z.eqb_spec id (bufferSize s - 1)) as [-> | Hne]; simpl.
  - replace (bufferSize s - 1 + 1) with (bufferSize s) by lia.
    rewrite Z.mod_same by lia.
    now destruct (write_pos s =? 0).
  - rewrite (uint32_small (id + 1)) by lia.
    rewrite (sint32_small (id + 1)) by lia.
    rewrite (Z.mod_small (id + 1)) by lia.
    now destruct (write_pos s =? id + 1).
Qed.

Lemma release_fields (s : Sensor) (id : Z) :
  bufferSize s <= INT_MAX ->
  0 <= id < bufferSize s ->
  fst (release id s) = Ok tt /\
  let s' := snd (release id s) in
  read_pos s' = (id + 1) mod bufferSize s /\
  read_pos_used s' = false /\
  buffer_full s' = (if read_pos s' =? write_pos s then false
                    else buffer_full s) /\
  write_pos s' = write_pos s /\
  buffer s' = buffer s /\
  bufferSize s' = bufferSize s.
Proof.
  intros Hmax Hid. rewrite (release_state s id Hmax Hid). simpl.
  rewrite (Z.eqb_sym (write_pos s)).
  destruct ((id + 1) mod bufferSize s =? write_pos s) eqn:E; simpl;
    rewrite E; auto 10.
Qed.

(** C6.  For [0 <= id < bufferSize], [release(id)] moves [read_pos] to
    [(id+1) mod bufferSize], marks the read position as not in use, clears
    [buffer_full] exactly when the new [read_pos] equals [write_pos], and
    leaves [write_pos], the buffer and the counters as they were. *)
Theorem release_effect (s : Sensor) (id : Z) :
  bufferSize s <= INT_MAX ->
  0 <= id < bufferSize s ->
  fst (release id s) = Ok tt /\
  let s' := snd (release id s) in
  read_pos s' = (id + 1) mod bufferSize s /\
  read_pos_used s' = false /\
  (buffer_full s' = false <->
   read_pos s' = write_pos s \/ buffer_full s = false) /\
  buffer_full s' = (if read_pos s' =? write_pos s then false
                    else buffer_full s) /\
  write_pos s' = write_pos s /\
  buffer s' = buffer s /\
  bufferSize s' = bufferSize s /\
  index s' = index s /\
  data_count s' = data_count s /\
  no_more_data s' = no_more_data s.
Proof.
  intros Hmax Hid. rewrite (release_state s id Hmax Hid). simpl.
  rewrite (Z.eqb_sym (write_pos s)).
  destruct (Z.eqb_spec ((id + 1) mod bufferSize s) (write_pos s)) as [E | E];
    simpl.
  - rewrite E, Z.eqb_refl. repeat split; auto.
  - destruct (Z.eqb_spec ((id + 1) mod bufferSize s) (write_pos s));
      [contradiction |].
    repeat split; auto.
    intros [Heq | Hbf]; [contradiction | exact Hbf].
Qed.

(** [releaseUntil(id)]: [read_pos] becomes [id] and is marked in use. *)
Lemma releaseUntil_effect (s : Sensor) (id : Z) :
  - 2 ^ 31 <= id < 2 ^ 31 ->
  fst (releaseUntil id s) = Ok tt /\
  let s' := snd (releaseUntil id s) in
  read_pos s' = id /\
  read_pos_used s' = true /\
  buffer_full s' = (if getFirstUnreadPos s' =? write_pos s then false
                    else buffer_full s) /\
  write_pos s' = write_pos s /\
  buffer s' = buffer s /\
  bufferSize s' = bufferSize s /\
  index s' = index s /\
  no_more_data s' = no_more_data s.
Proof.
  intros Hid.
  unfold releaseUntil, bind, get, modify, when, ret. simpl.
  rewrite (sint32_small id) by lia.
  unfold getFirstUnreadPos. simpl.
  destruct (id =? bufferSize s - 1) eqn:E1; simpl;
    match goal with
    | |- context [if ?a =? ?b then _ else _] => destruct (a =? b) eqn:E2
    end; simpl; rewrite ?E1; simpl; rewrite ?E2; auto 10.
Qed.

(** ** Ranges and slot walks *)

Lemma zrange_length (lo hi : Z) : length (zrange lo hi) = Z.to_nat (hi - lo).
Proof. unfold zrange. now rewrite length_map, length_seq. Qed.

Lemma zrange_In (lo hi p : Z) : In p (zrange lo hi) <-> lo <= p < hi.
Proof.
  unfold zrange. rewrite in_map_iff. split.
  - intros [k [<- Hk]]. apply in_seq in Hk. lia.
  - intros Hp. exists (Z.to_nat (p - lo)). split; [lia |].
    apply in_seq. lia.
Qed.

Lemma rawInfoAt_stamped (s : Sensor) (p : Z) :
  stampOf s p <> None ->
  exists r, slotOf s p = Some r /\
            rawInfoAt p s =
            (Ok (mkRawInfo p (stampAt s p) (extractRawArrival r)), s).
Proof.
  intros Hp. unfold stampAt. unfold stampOf in *.
  destruct (slotOf s p) as [r |] eqn:Hr; [| contradiction].
  exists r. split; [reflexivity |].
  unfold rawInfoAt, bind, stamp, ret. rewrite (slot_valid s p r Hr).
  destruct (extractRawTimestamp r) as [t |]; [reflexivity | contradiction].
Qed.

Lemma rawInfosAt_ok (s : Sensor) (l : list Z) :
  (forall p, In p l -> stampOf s p <> None) ->
  exists xs, rawInfosAt l s = (Ok xs, s) /\ length xs = length l.
Proof.
  induction l as [| p l IH]; intros Hl.
  - exists []. split; reflexivity.
  - destruct (rawInfoAt_stamped s p) as (r & _ & Hr); [apply Hl; now left |].
    destruct IH as [xs [Hxs Hlen]]; [intros q Hq; apply Hl; now right |].
    eexists (_ :: xs).
    split; [| simpl; now rewrite Hlen].
    simpl. unfold bind. rewrite Hr, Hxs. reflexivity.
Qed.

(** ** Peeking and consuming one slot *)

(** C7.  For a valid slot index, [observeRaw(id, out)] hands out slot [id]
    and returns the very state it was called in; any number of calls give the
    same data, and [getUnreadRawInfos] answers afterwards as it did before. *)
Theorem observeRaw_peek (s : Sensor) (id : Z) :
  0 <= id < Z.of_nat (length (buffer s)) ->
  exists r,
    slotOf s id = Some r /\
    observeRaw id s = (Ok r, s) /\
    (forall n, observeRaw_times n id s = (Ok (repeat r n), s)) /\
    (forall n infos,
        getUnreadRawInfos getLastTimestamp infos (snd (observeRaw_times n id s)) =
        getUnreadRawInfos getLastTimestamp infos s).
Proof.
  intros Hid. destruct (slotOf_valid s id Hid) as [r Hr].
  assert (Hone : observeRaw id s = (Ok r, s)) by now apply slot_valid.
  assert (Hmany : forall n, observeRaw_times n id s = (Ok (repeat r n), s)).
  { induction n as [| n IH]; [reflexivity |].
    simpl. unfold bind. now rewrite Hone, IH. }
  exists r. repeat split; auto.
  intros n infos. now rewrite Hmany.
Qed.

(** ** Status codes of the unread queries *)

(** On a non-empty buffer [getNextRawInfo] answers [0], with the timestamp
    of the first unread slot. *)
Lemma getNextRawInfo_nonempty (s : Sensor) (info : RawInfo) :
  isEmpty s = false ->
  stampOf s (getFirstUnreadPos s) <> None ->
  getNextRawInfo info s =
  (Ok (0, mkRawInfo (getFirstUnreadPos s)
            (stampAt s (getFirstUnreadPos s)) 0%Q), s).
Proof.
  intros Hne Hst.
  unfold getNextRawInfo, bind at 1, get. rewrite Hne. simpl.
  unfold bind, ret. now rewrite (slotStamp_stamped s _ Hst).
Qed.

(** C10.  On a non-empty buffer [getNextRawInfo] reports the first unread
    position and the timestamp stored there, and [0.0] as arrival time,
    whatever arrival time the slot holds; where the slot holds no timestamp
    at all the read is out of range and nothing is reported. *)
Theorem getNextRawInfo_arrival_zero (s : Sensor) (info : RawInfo) :
  wf s ->
  isEmpty s = false ->
  exists r,
    slotOf s (getFirstUnreadPos s) = Some r /\
    (forall t,
        extractRawTimestamp r = Some t ->
        getNextRawInfo info s =
        (Ok (0, mkRawInfo (getFirstUnreadPos s) t 0%Q), s)) /\
    (extractRawTimestamp r = None ->
     getNextRawInfo info s = (Err BAD_INDEX, s)).
Proof.
  intros [Hpos [Hlen _]] Hne.
  pose proof (getFirstUnreadPos_range s Hpos) as Hfirst.
  destruct (slotOf_valid s (getFirstUnreadPos s)) as [r Hr]; [lia |].
  exists r. split; [exact Hr |].
  pose proof (stampOf_slot s _ r Hr) as Hst.
  split.
  - intros t Ht.
    rewrite (getNextRawInfo_nonempty s info Hne) by congruence.
    rewrite (stampAt_stampOf s _ t) by congruence. reflexivity.
  - intros Hnone.
    unfold getNextRawInfo, bind at 1, get. rewrite Hne. simpl.
    unfold bind.
    destruct (slotStamp_cases s (getFirstUnreadPos s))
      as [(t & Ht & _) | [_ ->]]; [congruence | reflexivity].
Qed.

Lemma getLastUnreadPos_range (s : Sensor) :
  positions_ok s -> 0 <= getLastUnreadPos s < bufferSize s.
Proof.
  intros [Hw Hr]. unfold getLastUnreadPos.
  destruct (Z.eqb_spec (write_pos s) 0); lia.
Qed.

(** The first unread slot is among the unread slots. *)
Lemma first_unread (s : Sensor) :
  wf s -> isEmpty s = false -> In (getFirstUnreadPos s) (unread s).
Proof.
  intros [Hpos _] Hne. unfold unread, ring. rewrite Hne.
  pose proof (getFirstUnreadPos_range s Hpos) as Hfirst.
  pose proof (getLastUnreadPos_range s Hpos) as Hlast.
  destruct (Z.leb_spec (getFirstUnreadPos s) (getLastUnreadPos s));
    rewrite ?in_app_iff, !zrange_In; lia.
Qed.

Lemma getUnreadRawInfos_nonempty (s : Sensor) (infos : RawInfos) :
  wf s ->
  unread_stamped s ->
  isEmpty s = false ->
  exists infos',
    getUnreadRawInfos getLastTimestamp infos s = (Ok (0, infos'), s) /\
    available infos' <> [].
Proof.
  intros [Hpos [Hlen _]] Hst Hne.
  pose proof (getFirstUnreadPos_range s Hpos) as Hfirst.
  pose proof (getLastUnreadPos_range s Hpos) as Hlast.
  unfold unread_stamped, unread, ring in Hst. rewrite Hne in Hst.
  unfold getUnreadRawInfos, bind at 1, get. rewrite Hne. simpl.
  set (first := getFirstUnreadPos s) in *.
  set (last := getLastUnreadPos s) in *.
  set (first_stop := if first <=? last then last else bufferSize s - 1).
  set (second_stop := if first <=? last then -1 else last).
  assert (Hstop : first <= first_stop < bufferSize s).
  { unfold first_stop. destruct (Z.leb_spec first last); lia. }
  assert (Hstop2 : second_stop < bufferSize s).
  { unfold second_stop. destruct (Z.leb_spec first last); lia. }
  destruct (rawInfosAt_ok s (zrange first (first_stop + 1))) as [a1 [Ha1 Hl1]].
  { intros p Hp. apply Hst. apply zrange_In in Hp. unfold first_stop in Hp.
    destruct (Z.leb_spec first last);
      rewrite ?in_app_iff, !zrange_In; lia. }
  destruct (rawInfosAt_ok s (zrange 0 (second_stop + 1))) as [a2 [Ha2 Hl2]].
  { intros p Hp. apply Hst. apply zrange_In in Hp. unfold second_stop in Hp.
    destruct (Z.leb_spec first last);
      rewrite ?in_app_iff, !zrange_In; lia. }
  unfold bind, ret. rewrite Ha1, Ha2.
  rewrite zrange_length in Hl1.
  assert (Hpos1 : (0 < length (a1 ++ a2))%nat) by (rewrite length_app; lia).
  destruct (Z.eqb_spec (Z.of_nat (length (a1 ++ a2))) 0) as [E | _]; [lia |].
  eexists. split; [reflexivity |].
  simpl. intros E. rewrite E in Hpos1. simpl in Hpos1. lia.
Qed.

Lemma getUnreadRawInfos_empty (s : Sensor) (infos : RawInfos) :
  isEmpty s = true ->
  exists infos',
    getUnreadRawInfos getLastTimestamp infos s =
    (Ok ((if no_more_data s then -2 else -1), infos'), s) /\
    available infos' = [].
Proof.
  intros He.
  unfold getUnreadRawInfos, bind, get, ret. rewrite He. simpl.
  destruct (no_more_data s); eexists; split; reflexivity.
Qed.

Lemma getNextRawInfo_empty (s : Sensor) (info : RawInfo) :
  isEmpty s = true ->
  getNextRawInfo info s =
  (Ok ((if no_more_data s then -2 else -1), info), s).
Proof.
  intros He.
  unfold getNextRawInfo, bind, get, ret. rewrite He. simpl.
  now destruct (no_more_data s).
Qed.

Lemma poll_empty (s : Sensor) (n : nat) :
  isEmpty s = true ->
  forall infos info,
    poll getLastTimestamp n infos info s =
    (Ok (repeat (if no_more_data s then (-2, -2) else (-1, -1)) n), s).
Proof.
  intros He. induction n as [| n IH]; intros infos info; [reflexivity |].
  destruct (getUnreadRawInfos_empty s infos He) as [infos' [Hi _]].
  simpl. unfold bind, ret.
  rewrite Hi, (getNextRawInfo_empty s info He). simpl.
  rewrite IH. now destruct (no_more_data s).
Qed.

Lemma rawInfoAt_cases (s : Sensor) (p : Z) :
  (exists x, rawInfoAt p s = (Ok x, s)) \/
  rawInfoAt p s = (Err BAD_INDEX, s).
Proof.
  unfold rawInfoAt, bind, stamp, ret, throw.
  destruct (slot_cases s p) as [[r [_ ->]] | ->]; [| now right].
  destruct (extractRawTimestamp r) as [t |]; [left; now eexists | now right].
Qed.

Lemma rawInfosAt_cases (s : Sensor) (l : list Z) :
  (exists xs, rawInfosAt l s = (Ok xs, s) /\ length xs = length l) \/
  rawInfosAt l s = (Err BAD_INDEX, s).
Proof.
  induction l as [| p l IH]; [left; now exists [] |].
  simpl. unfold bind, ret.
  destruct (rawInfoAt_cases s p) as [[x ->] | ->]; [| now right].
  destruct IH as [(xs & -> & Hlen) | ->]; [left | now right].
  eexists. split; [reflexivity |]. simpl. now rewrite Hlen.
Qed.

(** Whatever the slots hold, [getUnreadRawInfos] and [getNextRawInfo] leave
    the state alone, and either answer by the rule of the status codes or
    read outside a reading. *)
Lemma getUnreadRawInfos_cases (s : Sensor) (infos : RawInfos) :
  wf s ->
  exists x,
    getUnreadRawInfos getLastTimestamp infos s = (x, s) /\
    ((exists infos',
         x = Ok ((if isEmpty s then (if no_more_data s then -2 else -1)
                  else 0), infos')) \/
     x = Err BAD_INDEX).
Proof.
  intros [Hpos [Hlen _]].
  destruct (isEmpty s) eqn:Hne.
  { destruct (getUnreadRawInfos_empty s infos Hne) as (infos' & Hrun & _).
    eexists. split; [exact Hrun |]. left. now eexists. }
  pose proof (getFirstUnreadPos_range s Hpos) as Hfirst.
  pose proof (getLastUnreadPos_range s Hpos) as Hlast.
  unfold getUnreadRawInfos, bind at 1, get. rewrite Hne. simpl.
  set (first := getFirstUnreadPos s) in *.
  set (last := getLastUnreadPos s) in *.
  set (first_stop := if first <=? last then last else bufferSize s - 1).
  set (second_stop := if first <=? last then -1 else last).
  assert (Hstop : first <= first_stop < bufferSize s).
  { unfold first_stop. destruct (Z.leb_spec first last); lia. }
  unfold bind, ret.
  destruct (rawInfosAt_cases s (zrange first (first_stop + 1)))
    as [(a1 & -> & Hl1) | ->]; [| eexists; split; [reflexivity | now right]].
  destruct (rawInfosAt_cases s (zrange 0 (second_stop + 1)))
    as [(a2 & -> & Hl2) | ->]; [| eexists; split; [reflexivity | now right]].
  rewrite zrange_length in Hl1.
  assert (Hpos1 : (0 < length (a1 ++ a2))%nat) by (rewrite length_app; lia).
  destruct (Z.eqb_spec (Z.of_nat (length (a1 ++ a2))) 0) as [E | _]; [lia |].
  eexists. split; [reflexivity |]. left. now eexists.
Qed.

Lemma getNextRawInfo_cases (s : Sensor) (info : RawInfo) :
  exists x,
    getNextRawInfo info s = (x, s) /\
    ((exists info',
         x = Ok ((if isEmpty s then (if no_more_data s then -2 else -1)
                  else 0), info')) \/
     x = Err BAD_INDEX).
Proof.
  destruct (isEmpty s) eqn:Hne.
  { rewrite (getNextRawInfo_empty s info Hne).
    eexists. split; [reflexivity |]. left. now eexists. }
  unfold getNextRawInfo, bind at 1, get. rewrite Hne. simpl. unfold bind, ret.
  destruct (slotStamp_cases s (getFirstUnreadPos s))
    as [(t & _ & ->) | [_ ->]]; eexists; (split; [reflexivity |]);
    [left; now eexists | now right].
Qed.

(** C5.  [getUnreadRawInfos] and [getNextRawInfo] answer [0] when the buffer
    is not empty, [-1] when it is empty and [no_more_data] is not set, and
    [-2] when it is empty and [no_more_data] is set; neither changes the
    state, and polling an empty buffer with [no_more_data] set keeps
    answering [-2].  They answer so wherever the unread slots hold readings,
    each with its timestamp; on any other state the only other outcome is
    the read outside a reading, with the state unchanged as well. *)
Theorem status_codes (s : Sensor) (infos : RawInfos) (info : RawInfo) :
  wf s ->
  let status := if isEmpty s then (if no_more_data s then -2 else -1)
                else 0 in
  (unread_stamped s ->
   exists infos' info',
     getUnreadRawInfos getLastTimestamp infos s = (Ok (status, infos'), s) /\
     getNextRawInfo info s = (Ok (status, info'), s) /\
     (isEmpty s = true -> no_more_data s = true ->
      forall n,
        poll getLastTimestamp n infos info s = (Ok (repeat (-2, -2) n), s))) /\
  (exists x,
      getUnreadRawInfos getLastTimestamp infos s = (x, s) /\
      ((exists infos', x = Ok (status, infos')) \/ x = Err BAD_INDEX)) /\
  (exists x,
      getNextRawInfo info s = (x, s) /\
      ((exists info', x = Ok (status, info')) \/ x = Err BAD_INDEX)).
Proof.
  intros Hwf status. unfold status.
  split; [| split; [now apply getUnreadRawInfos_cases
                   | apply getNextRawInfo_cases]].
  intros Hst.
  destruct (isEmpty s) eqn:He.
  - destruct (getUnreadRawInfos_empty s infos He) as [infos' [Hi _]].
    exists infos', info. split; [exact Hi |].
    split; [now apply getNextRawInfo_empty |].
    intros _ Hn n. rewrite (poll_empty s n He). now rewrite Hn.
  - destruct (getUnreadRawInfos_nonempty s infos Hwf Hst He)
      as [infos' [Hi _]].
    exists infos'. eexists. split; [exact Hi |].
    split; [| discriminate].
    apply getNextRawInfo_nonempty; [exact He |].
    apply Hst, first_unread; [exact Hwf | exact He].
Qed.

(** ** The search loops of [getRaws] *)

Lemma quot2_mid (a b : Z) : 0 <= a -> a < b -> a <= Z.quot (a + b) 2 < b.
Proof.
  intros Ha Hab. rewrite Z.quot_div_nonneg by lia.
  split.
  - apply Z.div_le_lower_bound; lia.
  - apply Z.div_lt_upper_bound; lia.
Qed.

(** The loops leave the state alone, and what they return lies between the
    bounds they start from. *)
Lemma dichotomy_frame (fuel : nat) (t : Q) :
  forall i_left i_right s,
    0 <= i_left <= i_right ->
    exists x, dichotomy fuel t i_left i_right s = (x, s) /\
              forall r, x = Ok r -> i_left <= r <= i_right.
Proof.
  induction fuel as [| fuel IH]; intros il ir s Hb; simpl;
    destruct (Z.eqb_spec il ir) as [-> | Hne].
  - exists (Ok ir). split; [reflexivity |]. intros r [= <-]. lia.
  - exists (Err OUT_OF_FUEL). split; [reflexivity | discriminate].
  - exists (Ok ir). split; [reflexivity |]. intros r [= <-]. lia.
  - pose proof (quot2_mid il ir) as Hmid.
    unfold bind, get.
    destruct (slotStamp_cases s (Z.rem (Z.quot (il + ir) 2) (bufferSize s)))
      as [(ts & _ & ->) | [_ ->]];
      [| exists (Err BAD_INDEX); split; [reflexivity | discriminate]].
    destruct (dge ts t).
    + destruct (IH il (Z.quot (il + ir) 2) s) as [y [Hy Hr]]; [lia |].
      exists y. split; [exact Hy |]. intros r Hok. specialize (Hr r Hok). lia.
    + destruct (IH (Z.quot (il + ir) 2 + 1) ir s) as [y [Hy Hr]]; [lia |].
      exists y. split; [exact Hy |]. intros r Hok. specialize (Hr r Hok). lia.
Qed.

Lemma dichotomy_result (fuel : nat) (t : Q) (i_left i_right : Z) (s : Sensor) :
  0 <= i_left <= i_right ->
  (exists r, dichotomy fuel t i_left i_right s = (Ok r, s) /\
             i_left <= r <= i_right) \/
  (exists e, dichotomy fuel t i_left i_right s = (Err e, s)).
Proof.
  intros Hb. destruct (dichotomy_frame fuel t i_left i_right s Hb)
    as [[r | e] [Hx Hr]].
  - left. exists r. split; [exact Hx | now apply Hr].
  - right. now exists e.
Qed.

Lemma rem_range (a b : Z) : 0 <= a -> 0 < b -> 0 <= Z.rem a b < b.
Proof. intros Ha Hb. rewrite Z.rem_mod_nonneg by lia. now apply Z.mod_pos_bound. Qed.

(** [getRaws] changes nothing but [read_pos], and only to a slot index. *)
Lemma getRaws_state (s : Sensor) (t1 t2 : Q) (rel : bool) :
  positions_ok s ->
  exists x s',
    getRaws t1 t2 rel s = (x, s') /\
    (s' = s \/
     exists i1, 0 <= i1 < bufferSize s /\ rel = true /\ s' = set_read_pos i1 s).
Proof.
  intros [Hw Hr].
  unfold getRaws. unfold bind at 1.
  destruct (dle t1 t2); [| eexists _, _; split; [reflexivity | now left]].
  unfold ret at 1.
  unfold bind at 1, get. unfold bind at 1.
  destruct (dichotomy_result (Z.to_nat (bufferSize s)) t1 (write_pos s)
              (write_pos s + bufferSize s - 1) s)
    as [[il [-> Hil]] | [e ->]];
    [lia | | eexists _, _; split; [reflexivity | now left]].
  set (i := Z.rem il (bufferSize s)).
  set (i1 := if dle t1 from_start then i
             else Z.rem (i - 1 + bufferSize s) (bufferSize s)).
  assert (Hi : 0 <= i < bufferSize s) by (apply rem_range; lia).
  assert (Hi1 : 0 <= i1 < bufferSize s).
  { unfold i1. destruct (dle t1 from_start); [exact Hi |].
    apply rem_range; lia. }
  unfold bind at 1.
  destruct (slotStamp_cases s i) as [(ti & _ & ->) | [_ ->]];
    [| eexists _, _; split; [reflexivity | now left]].
  unfold bind at 1.
  assert (Hnd : exists x, (if dlt ti t1
                 then ti1 <- slotStamp i1 ;; ret (dlt ti1 0%Q)
                 else ret false) s = (x, s)).
  { destruct (dlt ti t1); [| now eexists].
    unfold bind, ret.
    destruct (slotStamp_cases s i1) as [(ti1 & _ & ->) | [_ ->]];
      now eexists. }
  destruct Hnd as [x ->].
  destruct x as [[] | e];
    [eexists _, _; split; [reflexivity | now left] | |
     eexists _, _; split; [reflexivity | now left]].
  destruct ((i =? write_pos s) && dgt t1 0%Q);
    [eexists _, _; split; [reflexivity | now left] |].
  unfold bind at 1.
  assert (Hi2 : exists x, (if dlt ti t1 then ret i1
                 else i_left2 <- dichotomy (Z.to_nat (bufferSize s)) t2 il
                                   (write_pos s + bufferSize s - 1) ;;
                      ret (Z.rem i_left2 (bufferSize s))) s = (x, s)).
  { destruct (dlt ti t1); [now eexists |].
    unfold bind, ret.
    destruct (dichotomy_result (Z.to_nat (bufferSize s)) t2 il
                (write_pos s + bufferSize s - 1) s)
      as [[il2 [-> _]] | [e ->]]; [lia | |]; now eexists. }
  destruct Hi2 as [x ->].
  destruct x as [i2 | e]; [| eexists _, _; split; [reflexivity | now left]].
  unfold bind, when, modify, get, ret.
  destruct rel; simpl.
  - destruct (i1 <=? i2); eexists _, _; (split; [reflexivity |]);
      right; exists i1; repeat split; lia.
  - destruct (i1 <=? i2); eexists _, _; (split; [reflexivity | now left]).
Qed.

(** ** Producer and consumer steps *)

Lemma incWritePos_effect (s : Sensor) :
  fst (incWritePos s) = Ok tt /\
  let s' := snd (incWritePos s) in
  write_pos s' = (if bufferSize s <=? write_pos s + 1 then 0
                  else write_pos s + 1) /\
  buffer_full s' = (if write_pos s' =? read_pos s then true
                    else buffer_full s) /\
  data_count s' = data_count s + 1 /\
  read_pos s' = read_pos s /\
  read_pos_used s' = read_pos_used s /\
  buffer s' = buffer s /\
  bufferSize s' = bufferSize s.
Proof.
  unfold incWritePos, bind, get, modify, when, ret. simpl.
  destruct (bufferSize s <=? write_pos s + 1) eqn:E1; simpl;
    match goal with
    | |- context [if ?a =? ?b then _ else _] => destruct (a =? b) eqn:E2
    end; simpl; rewrite ?E2; auto 10.
Qed.

Lemma list_set_length (l : list T) (n : nat) (r : T) :
  length (list_set l n r) = length l.
Proof.
  revert n. induction l as [| x l IH]; intros [| n]; simpl; auto.
Qed.

Lemma setSlot_cases (s : Sensor) (i : Z) (r : T) :
  setSlot i r s = (Err BAD_INDEX, s) \/
  (0 <= i < Z.of_nat (length (buffer s)) /\
   setSlot i r s =
   (Ok tt, set_buffer (list_set (buffer s) (Z.to_nat i) r) s)).
Proof.
  unfold setSlot, bind, get, modify, throw.
  destruct (slotOf s i) as [x |] eqn:E; [right | now left].
  split; [| reflexivity].
  unfold slotOf in E. destruct (Z.ltb_spec i 0); [discriminate |].
  assert (Hn : nth_error (buffer s) (Z.to_nat i) <> None) by congruence.
  apply nth_error_Some in Hn. lia.
Qed.

Lemma push_cases (s : Sensor) (r : T) :
  (exists e, push r s = (Err e, s)) \/
  (isFull s = false /\
   0 <= write_pos s < Z.of_nat (length (buffer s)) /\
   push r s =
   incWritePos
     (set_buffer (list_set (buffer s) (Z.to_nat (write_pos s)) r) s)).
Proof.
  destruct (isFull s) eqn:Hf.
  - left. exists GENERIC_ERROR.
    unfold push, getWritePos, bind, get, throw. now rewrite Hf.
  - destruct (setSlot_cases s (write_pos s) r) as [Hs | [Hi Hs]].
    + left. exists BAD_INDEX.
      unfold push, getWritePos, bind, get, ret. now rewrite Hf, Hs.
    + right. repeat split; try lia.
      unfold push, getWritePos, bind, get, ret. now rewrite Hf, Hs.
Qed.

Lemma exec_positions (size : Z) (o : op) (s : Sensor) :
  size <= INT_MAX ->
  op_in_range size o ->
  positions_ok s /\ bufferSize s = size ->
  positions_ok (exec o s) /\ bufferSize (exec o s) = size.
Proof.
  intros Hmax Ho [[Hw Hr] Hbs]. unfold positions_ok.
  destruct o as [r | | id | id | t1 t2 rel]; simpl in *.
  - destruct (push_cases s r) as [[e ->] | (_ & _ & ->)]; [simpl; lia |].
    destruct (incWritePos_effect
                (set_buffer (list_set (buffer s) (Z.to_nat (write_pos s)) r) s))
      as (_ & Hw' & _ & _ & Hr' & _ & _ & Hbs'). simpl in *.
    rewrite Hw', Hr', Hbs'.
    destruct (Z.leb_spec (bufferSize s) (write_pos s + 1)); lia.
  - destruct (incWritePos_effect s) as (_ & Hw' & _ & _ & Hr' & _ & _ & Hbs').
    simpl in *. rewrite Hw', Hr', Hbs'.
    destruct (Z.leb_spec (bufferSize s) (write_pos s + 1)); lia.
  - destruct (release_fields s id) as (_ & Hr' & _ & _ & Hw' & _ & Hbs');
      [lia | lia |]. simpl in *. rewrite Hw', Hr', Hbs'.
    pose proof (Z.mod_pos_bound (id + 1) (bufferSize s)). lia.
  - unfold INT_MAX in Hmax.
    destruct (releaseUntil_effect s id)
      as (_ & Hr' & _ & _ & Hw' & _ & Hbs' & _); [lia |].
    simpl in *. rewrite Hw', Hr', Hbs'. lia.
  - destruct (getRaws_state s t1 t2 rel) as (x & s' & -> & Hs');
      [split; assumption |]. simpl.
    destruct Hs' as [-> | (i1 & Hi1 & _ & ->)]; simpl; lia.
Qed.

(** C8.  From the constructed state, [incWritePos], a push, [release(id)] and
    [releaseUntil(id)] with [0 <= id < bufferSize], and [getRaws] with or
    without release keep [write_pos] and [read_pos] inside
    [0 .. bufferSize-1]. *)
Theorem positions_invariant
    (size last_sent : Z) (period delay : Q) (ops : list op) :
  0 < size <= INT_MAX ->
  Forall (op_in_range size) ops ->
  positions_ok (run ops (init size last_sent period delay)).
Proof.
  intros Hsize Hops.
  assert (Hinit : positions_ok (init size last_sent period delay) /\
                  bufferSize (init size last_sent period delay) = size).
  { unfold positions_ok, init, INT_MAX in *. simpl.
    rewrite uint32_small by lia. rewrite sint32_small by lia. lia. }
  revert Hinit. generalize (init size last_sent period delay).
  unfold run. induction Hops as [| o ops Ho _ IH]; intros s Hs; simpl.
  - apply Hs.
  - apply IH. apply exec_positions; [lia | exact Ho | exact Hs].
Qed.

(** ** Correctness of the search loops *)

Lemma dge_true (a b : Q) : dge a b = true <-> (b <= a)%Q.
Proof. unfold dge. apply Qle_bool_iff. Qed.

Lemma dge_false (a b : Q) : dge a b = false <-> (a < b)%Q.
Proof.
  unfold dge. split.
  - intros E. apply Qnot_le_lt. intros Hle.
    apply Qle_bool_iff in Hle. congruence.
  - intros Hlt. destruct (Qle_bool b a) eqn:E; [| reflexivity].
    apply Qle_bool_iff in E. exfalso. now apply (Qlt_not_le a b).
Qed.

Lemma dle_true (a b : Q) : dle a b = true <-> (a <= b)%Q.
Proof. apply (dge_true b a). Qed.

Lemma dle_false (a b : Q) : dle a b = false <-> (b < a)%Q.
Proof. apply (dge_false b a). Qed.

Lemma dlt_true (a b : Q) : dlt a b = true <-> (a < b)%Q.
Proof.
  unfold dlt. rewrite negb_true_iff. apply (dge_false a b).
Qed.

Lemma dlt_false (a b : Q) : dlt a b = false <-> (b <= a)%Q.
Proof.
  unfold dlt. rewrite negb_false_iff. apply (dge_true a b).
Qed.

Lemma dgt_true (a b : Q) : dgt a b = true <-> (b < a)%Q.
Proof. apply (dlt_true b a). Qed.


(** Where every slot holds a timestamp, reading one returns it. *)
Lemma slotStamp_ok (s : Sensor) (i : Z) :
  stamped s -> 0 <= i < bufferSize s ->
  slotStamp i s = (Ok (stampAt s i), s).
Proof. intros Hst Hi. apply slotStamp_stamped. now apply Hst. Qed.

(** A search over at most [fuel] slots either reads a slot that holds no
    timestamp, or returns, leaves the state alone, and stops at an index [r]
    such that slot [r] is not older than [t] unless [r] is the right end, and
    slot [r-1] is older than [t] unless [r] is the left end. *)
Lemma dichotomy_outcome (s : Sensor) (t : Q) :
  0 < bufferSize s ->
  forall fuel i_left i_right,
    0 <= i_left <= i_right ->
    (i_right - i_left <= Z.of_nat fuel) ->
    (exists r,
      dichotomy fuel t i_left i_right s = (Ok r, s) /\
      i_left <= r <= i_right /\
      (r < i_right -> (t <= stampL s r)%Q) /\
      (i_left < r -> (stampL s (r - 1) < t)%Q)) \/
    (dichotomy fuel t i_left i_right s = (Err BAD_INDEX, s) /\
     exists i, 0 <= i < bufferSize s /\ stampOf s i = None).
Proof.
  intros Hbs.
  induction fuel as [| fuel IH]; intros il ir Hb Hfuel; simpl;
    destruct (Z.eqb_spec il ir) as [-> | Hne]; try lia.
  - left. exists ir. split; [reflexivity |]. repeat split; lia.
  - left. exists ir. split; [reflexivity |]. repeat split; lia.
  - pose proof (quot2_mid il ir) as Hmid.
    set (j := Z.quot (il + ir) 2) in *.
    assert (Hj : il <= j < ir) by (apply Hmid; lia).
    assert (Hrem : 0 <= Z.rem j (bufferSize s) < bufferSize s)
      by (apply rem_range; lia).
    unfold bind, get.
    destruct (slotStamp_cases s (Z.rem j (bufferSize s)))
      as [(ts & Hts & ->) | [Hnone ->]];
      [| right; split; [reflexivity | now exists (Z.rem j (bufferSize s))]].
    apply stampAt_stampOf in Hts.
    rewrite Z.rem_mod_nonneg in Hts by lia.
    destruct (dge ts t) eqn:Hcmp.
    + apply dge_true in Hcmp.
      destruct (IH il j) as [(r & Hr & Hrange & Hright & Hleft) | Hbad];
        [lia | lia | | now right].
      left. exists r. split; [exact Hr |]. split; [lia |]. split.
      * intros _. destruct (Z.eq_dec r j) as [-> | Hrj].
        -- unfold stampL. now rewrite Hts.
        -- apply Hright. lia.
      * exact Hleft.
    + apply dge_false in Hcmp.
      destruct (IH (j + 1) ir) as [(r & Hr & Hrange & Hright & Hleft) | Hbad];
        [lia | lia | | now right].
      left. exists r. split; [exact Hr |]. split; [lia |]. split.
      * exact Hright.
      * intros _. destruct (Z.eq_dec r (j + 1)) as [-> | Hrj].
        -- replace (j + 1 - 1) with j by lia. unfold stampL. now rewrite Hts.
        -- apply Hleft. lia.
Qed.

(** Where every slot holds a timestamp, a search with enough fuel returns. *)
Lemma dichotomy_spec (s : Sensor) (t : Q) :
  stamped s -> 0 < bufferSize s ->
  forall fuel i_left i_right,
    0 <= i_left <= i_right ->
    (i_right - i_left <= Z.of_nat fuel) ->
    exists r,
      dichotomy fuel t i_left i_right s = (Ok r, s) /\
      i_left <= r <= i_right /\
      (r < i_right -> (t <= stampL s r)%Q) /\
      (i_left < r -> (stampL s (r - 1) < t)%Q).
Proof.
  intros Hst Hbs fuel il ir Hb Hfuel.
  destruct (dichotomy_outcome s t Hbs fuel il ir Hb Hfuel)
    as [Hok | (_ & i & Hi & Hnone)]; [exact Hok |].
  exfalso. now apply (Hst i Hi).
Qed.

(** A search over a range that splits at [L] into older and not-older slots
    returns [L]. *)
Lemma dichotomy_first (s : Sensor) (t : Q) (fuel : nat) (i_left i_right L : Z) :
  stamped s -> 0 < bufferSize s ->
  0 <= i_left <= L -> L <= i_right ->
  i_right - i_left <= Z.of_nat fuel ->
  (forall j, i_left <= j < L -> (stampL s j < t)%Q) ->
  (forall j, L <= j < i_right -> (t <= stampL s j)%Q) ->
  dichotomy fuel t i_left i_right s = (Ok L, s).
Proof.
  intros Hsz Hbs Hl Hr Hfuel Hold Hnew.
  destruct (dichotomy_spec s t Hsz Hbs fuel i_left i_right)
    as (r & Hrun & Hrange & Hright & Hleft); [lia | lia |].
  rewrite Hrun. f_equal. f_equal.
  destruct (Z.lt_trichotomy r L) as [Hlt | [Heq | Hgt]]; [| exact Heq |].
  - exfalso. specialize (Hright ltac:(lia)). specialize (Hold r ltac:(lia)).
    now apply (Qlt_not_le _ _ Hold).
  - exfalso. specialize (Hleft ltac:(lia)). specialize (Hnew (r - 1) ltac:(lia)).
    now apply (Qlt_not_le _ _ Hleft).
Qed.

(** On a well-formed state whose slots all hold a timestamp [getRaws] runs to
    its end: the searches have fuel enough and every read is in range. *)
Lemma getRaws_defined (s : Sensor) (t1 t2 : Q) (rel : bool) :
  wf s ->
  stamped s ->
  exists x s',
    getRaws t1 t2 rel s = (x, s') /\
    x <> Err OUT_OF_FUEL /\ x <> Err BAD_INDEX.
Proof.
  intros [[Hw Hr] Hsz] Hst.
  assert (Hbs : 0 < bufferSize s) by lia.
  unfold getRaws. unfold bind at 1.
  destruct (dle t1 t2);
    [| eexists _, _; split; [reflexivity | split; discriminate]].
  unfold ret at 1. unfold bind at 1, get. unfold bind at 1.
  destruct (dichotomy_spec s t1 Hst Hbs (Z.to_nat (bufferSize s))
              (write_pos s) (write_pos s + bufferSize s - 1))
    as (L1 & -> & HL1 & _); [lia | lia |].
  set (i := Z.rem L1 (bufferSize s)).
  set (i1 := if dle t1 from_start then i
             else Z.rem (i - 1 + bufferSize s) (bufferSize s)).
  assert (Hi : 0 <= i < bufferSize s) by (apply rem_range; lia).
  assert (Hi1 : 0 <= i1 < bufferSize s).
  { unfold i1. destruct (dle t1 from_start); [exact Hi |].
    apply rem_range; lia. }
  unfold bind at 1. rewrite (slotStamp_ok s i Hst Hi).
  unfold bind at 1.
  assert (Hnd : exists b, (if dlt (stampAt s i) t1
                 then ti1 <- slotStamp i1 ;; ret (dlt ti1 0%Q)
                 else ret false) s = (Ok b, s)).
  { destruct (dlt (stampAt s i) t1); [| now eexists].
    unfold bind, ret. rewrite (slotStamp_ok s i1 Hst Hi1). now eexists. }
  destruct Hnd as [b ->].
  destruct b; [eexists _, _; split; [reflexivity | split; discriminate] |].
  destruct ((i =? write_pos s) && dgt t1 0%Q);
    [eexists _, _; split; [reflexivity | split; discriminate] |].
  unfold bind at 1.
  assert (Hi2 : exists i2, (if dlt (stampAt s i) t1 then ret i1
                 else i_left2 <- dichotomy (Z.to_nat (bufferSize s)) t2 L1
                                   (write_pos s + bufferSize s - 1) ;;
                      ret (Z.rem i_left2 (bufferSize s))) s = (Ok i2, s)).
  { destruct (dlt (stampAt s i) t1); [now eexists |].
    unfold bind, ret.
    destruct (dichotomy_spec s t2 Hst Hbs (Z.to_nat (bufferSize s))
                L1 (write_pos s + bufferSize s - 1))
      as (L2 & -> & _); [lia | lia |]. now eexists. }
  destruct Hi2 as [i2 ->].
  unfold bind, when, modify, get, ret.
  destruct rel; simpl; destruct (i1 <=? i2);
    eexists _, _; (split; [reflexivity | split; discriminate]).
Qed.

(** ** The view of [getRaws] *)

Lemma map_seq_shift (f : nat -> Z) (m : nat) :
  forall n, map f (seq n m) = map (fun k => f (n + k)%nat) (seq 0 m).
Proof.
  revert f. induction m as [| m IH]; intros f n; [reflexivity |].
  simpl. rewrite Nat.add_0_r. f_equal.
  rewrite (IH f (S n)), (IH (fun k => f (n + k)%nat) 1%nat).
  apply map_ext. intros k. f_equal. lia.
Qed.

Lemma zrange_app (a b c : Z) :
  a <= b <= c -> zrange a c = zrange a b ++ zrange b c.
Proof.
  intros Habc. unfold zrange.
  replace (Z.to_nat (c - a)) with (Z.to_nat (b - a) + Z.to_nat (c - b))%nat
    by lia.
  rewrite seq_app, map_app. f_equal. simpl.
  rewrite map_seq_shift. apply map_ext. intros k. lia.
Qed.

Lemma zrange_mod (bs q lo hi : Z) :
  0 <= lo -> hi <= bs ->
  map (fun j => j mod bs) (zrange (q * bs + lo) (q * bs + hi)) = zrange lo hi.
Proof.
  intros Hlo Hhi. unfold zrange. rewrite map_map.
  replace (q * bs + hi - (q * bs + lo)) with (hi - lo) by lia.
  apply map_ext_in. intros k Hk. apply in_seq in Hk.
  replace (q * bs + lo + Z.of_nat k) with (lo + Z.of_nat k + q * bs) by lia.
  rewrite Z_mod_plus_full. apply Z.mod_small. lia.
Qed.

(** The one or two ranges that [getRaws] projects are the slots of the
    logical indices [L1 .. L2], in that order. *)
Lemma view_cyclic (bs L1 L2 : Z) :
  0 < bs -> L1 <= L2 < L1 + bs ->
  (if L1 mod bs <=? L2 mod bs
   then zrange (L1 mod bs) (L2 mod bs + 1)
   else zrange (L1 mod bs) bs ++ zrange 0 (L2 mod bs + 1)) =
  map (fun j => j mod bs) (zrange L1 (L2 + 1)).
Proof.
  intros Hbs HL.
  pose proof (Z.div_mod L1 bs ltac:(lia)) as E1.
  pose proof (Z.div_mod L2 bs ltac:(lia)) as E2.
  pose proof (Z.mod_pos_bound L1 bs Hbs) as B1.
  pose proof (Z.mod_pos_bound L2 bs Hbs) as B2.
  set (q1 := L1 / bs) in *. set (q2 := L2 / bs) in *.
  set (i1 := L1 mod bs) in *. set (i2 := L2 mod bs) in *.
  destruct (Z.leb_spec i1 i2) as [Hle | Hgt].
  - assert (Hq : q2 = q1) by nia.
    rewrite E1 at 1. rewrite E2, Hq.
    rewrite (Z.mul_comm bs q1).
    replace (q1 * bs + i2 + 1) with (q1 * bs + (i2 + 1)) by lia.
    symmetry. apply zrange_mod; lia.
  - assert (Hq : q2 = q1 + 1) by nia.
    rewrite (zrange_app L1 ((q1 + 1) * bs) (L2 + 1)) by nia.
    rewrite map_app. f_equal.
    + rewrite E1 at 1. rewrite (Z.mul_comm bs q1).
      replace ((q1 + 1) * bs) with (q1 * bs + bs) by lia.
      symmetry. apply zrange_mod; lia.
    + rewrite E2, Hq. rewrite (Z.mul_comm bs (q1 + 1)).
      replace ((q1 + 1) * bs) with ((q1 + 1) * bs + 0) at 1 by lia.
      replace ((q1 + 1) * bs + i2 + 1) with ((q1 + 1) * bs + (i2 + 1)) by lia.
      symmetry. apply zrange_mod; lia.
Qed.

(** ** What [getRaws] returns *)


(** Slots in chronological order whose oldest timestamp is positive all hold
    a timestamp: [stampAt] is [0] on a slot that holds none. *)
Lemma chronological_stamped (s : Sensor) :
  positions_ok s ->
  chronological s ->
  (0 < stampAt s (write_pos s))%Q ->
  stamped s.
Proof.
  intros [Hw Hr] Hchr Hpos i Hi Hnone.
  set (b := if i <? write_pos s then i + bufferSize s else i).
  assert (Hb : write_pos s <= b <= write_pos s + bufferSize s - 1)
    by (unfold b; destruct (Z.ltb_spec i (write_pos s)); lia).
  assert (Hmod : b mod bufferSize s = i).
  { unfold b. destruct (Z.ltb_spec i (write_pos s)).
    - replace (i + bufferSize s) with (i + 1 * bufferSize s) by lia.
      rewrite Z_mod_plus_full. apply Z.mod_small. lia.
    - apply Z.mod_small. lia. }
  pose proof (Hchr (write_pos s) b ltac:(lia) ltac:(lia)) as Hle.
  unfold stampL in Hle. rewrite Hmod, (Z.mod_small (write_pos s)) in Hle by lia.
  unfold stampAt at 2 in Hle. rewrite Hnone in Hle.
  now apply (Qlt_not_le _ _ Hpos).
Qed.

(** When the oldest slot, the one at [write_pos], is not older than [t1] and
    [t1 > 0], [getRaws] raises [BUFFER_OVERFLOW] and changes nothing. *)
Lemma getRaws_overflow (s : Sensor) (t1 t2 : Q) (rel : bool) :
  wf s ->
  chronological s ->
  (t1 <= t2)%Q ->
  (0 < t1)%Q ->
  (t1 <= stampAt s (write_pos s))%Q ->
  getRaws t1 t2 rel s = (Err BUFFER_OVERFLOW, s).
Proof.
  intros [[Hw Hr] Hsz] Hchr Ht Hpos Hold.
  assert (Hst : stamped s).
  { apply chronological_stamped; [now split | exact Hchr |].
    now apply Qlt_le_trans with t1. }
  assert (Hbs : 0 < bufferSize s) by lia.
  set (bs := bufferSize s) in *.
  assert (Hwp : stampL s (write_pos s) = stampAt s (write_pos s)).
  { unfold stampL. fold bs. now rewrite Z.mod_small by lia. }
  assert (Hs1 : dichotomy (Z.to_nat bs) t1 (write_pos s)
                  (write_pos s + bs - 1) s = (Ok (write_pos s), s)).
  { apply dichotomy_first; auto; try lia.
    intros j Hj. apply Qle_trans with (stampL s (write_pos s)).
    - now rewrite Hwp.
    - apply Hchr; fold bs; lia. }
  assert (Hi : Z.rem (write_pos s) bs = write_pos s).
  { rewrite Z.rem_mod_nonneg by lia. apply Z.mod_small. lia. }
  pose proof (slotStamp_ok s (write_pos s) Hst Hw) as Hri.
  assert (Hnl : dlt (stampAt s (write_pos s)) t1 = false)
    by now apply dlt_false.
  unfold getRaws, bind, get, ret, throw.
  apply dle_true in Ht. rewrite Ht.
  fold bs. rewrite Hs1, Hi, Hri, Hnl, Z.eqb_refl.
  apply dgt_true in Hpos. now rewrite Hpos.
Qed.

(** ** Range queries on a pre-loaded buffer *)




(** ** Occupancy and the count of unreleased readings *)

Lemma mod_distance (bs a b : Z) :
  0 <= a < bs -> 0 <= b < bs ->
  (a - b) mod bs = if a <? b then a - b + bs else a - b.
Proof.
  intros Ha Hb. destruct (Z.ltb_spec a b).
  - rewrite <- (Z_mod_plus_full (a - b) 1 bs).
    rewrite Z.mod_small; lia.
  - apply Z.mod_small. lia.
Qed.

Lemma succ_mod (bs a : Z) :
  0 <= a < bs -> (a + 1) mod bs = if a + 1 =? bs then 0 else a + 1.
Proof.
  intros Ha. destruct (Z.eqb_spec (a + 1) bs) as [E | E].
  - rewrite E. apply Z.mod_same. lia.
  - apply Z.mod_small. lia.
Qed.

Lemma isFull_never_isEmpty (s : Sensor) :
  isFull s && isEmpty s = false.
Proof.
  unfold isFull, isEmpty.
  destruct (buffer_full s); simpl; now rewrite ?andb_false_r.
Qed.

Lemma occupancy_isFull (size : Z) (s : Sensor) (n : Z) :
  occupancy size s n -> (isFull s = true <-> n = size).
Proof.
  intros (Hbs & [Hw Hr] & Hn & Hdist & Hfull & Hempty).
  unfold isFull. rewrite andb_true_iff, Z.eqb_eq. split.
  - intros [Heq Hbf].
    destruct (Z.eq_dec n 0) as [E | E]; [| lia].
    rewrite (Hempty E) in Hbf. discriminate.
  - intros E. split; [lia | auto].
Qed.

Lemma exec_occupancy (size : Z) (o : op) (s : Sensor) (n : Z) :
  2 <= size <= INT_MAX ->
  occupancy size s n ->
  step_ok o s n ->
  occupancy size (exec o s) (unreleased_step o s n).
Proof.
  intros Hsize Hocc Hok.
  pose proof (occupancy_isFull size s n Hocc) as Hfull_iff.
  destruct Hocc as (Hbs & [Hw Hr] & Hn & Hdist & Hfull & Hempty).
  unfold occupancy, positions_ok.
  destruct o as [r | | id | id | t1 t2 rel]; simpl in Hok |- *.
  - (* push *)
    destruct (push_cases s r) as [[e He] | (Hnf & _ & Hp)].
    + rewrite He. simpl. repeat split; auto; lia.
    + rewrite Hp.
      destruct (incWritePos_effect
                  (set_buffer (list_set (buffer s) (Z.to_nat (write_pos s)) r) s))
        as (Hres & Hw' & Hbf' & _ & Hr' & _ & _ & Hbs'). simpl in *.
      rewrite Hres, Hw', Hr', Hbs', Hbf'.
      assert (n <> size) by (intros E; apply Hfull_iff in E; congruence).
      destruct (Z.leb_spec (bufferSize s) (write_pos s + 1));
        rewrite Hw';
        match goal with
        | |- context [if ?a =? ?b then _ else _] => destruct (Z.eqb_spec a b)
        end; repeat split; auto; try lia; intros; try lia;
        apply Hempty; lia.
  - (* a bare incWritePos is not a push *)
    contradiction.
  - (* release *)
    destruct Hok as [Hid Hk].
    destruct (release_fields s id) as (_ & Hr' & _ & Hbf' & Hw' & _ & Hbs');
      [lia | lia |]. simpl in Hr', Hbf', Hw', Hbs'.
    rewrite Hw', Hbs', Hbf', Hr'.
    rewrite (mod_distance (bufferSize s) id (read_pos s)) in * by lia.
    rewrite (succ_mod (bufferSize s) id) by lia.
    destruct (Z.ltb_spec id (read_pos s));
      destruct (Z.eqb_spec (id + 1) (bufferSize s));
      match goal with
      | |- context [if ?a =? ?b then _ else _] => destruct (Z.eqb_spec a b)
      end; repeat split; auto; try lia; intros; try lia.
  - (* releaseUntil *)
    destruct Hok as [Hid Hk]. unfold INT_MAX in Hsize.
    destruct (releaseUntil_effect s id)
      as (_ & Hr' & Hused' & Hbf' & Hw' & _ & Hbs' & _); [lia |].
    simpl in Hr', Hused', Hbf', Hw', Hbs'.
    rewrite Hw', Hbs', Hbf', Hr'.
    unfold getFirstUnreadPos. rewrite Hused', Hr', Hbs'. simpl.
    rewrite (mod_distance (bufferSize s) id (read_pos s)) in * by lia.
    destruct (Z.ltb_spec id (read_pos s));
      destruct (Z.eqb_spec id (bufferSize s - 1)); simpl;
      match goal with
      | |- context [if ?a =? ?b then _ else _] => destruct (Z.eqb_spec a b)
      end; repeat split; auto; try lia; intros; try lia;
      apply Hfull; lia.
  - (* getRaws *)
    destruct (getRaws_state s t1 t2 rel) as (x & s' & Hg & Hs');
      [split; assumption |].
    rewrite Hg in *. simpl in *.
    destruct Hs' as [-> | (i1 & Hi1 & _ & ->)]; simpl in *.
    + rewrite Z.sub_diag, Z.mod_0_l by lia.
      replace (n - Z.min n 0) with n by lia. repeat split; auto; lia.
    + rewrite (mod_distance (bufferSize s) i1 (read_pos s)) in * by lia.
      destruct (Z.ltb_spec i1 (read_pos s));
        repeat split; auto; try lia; intros; try lia;
        try (apply Hfull; lia); try (apply Hempty; lia).
Qed.

Lemma run_counted_occupancy (size : Z) (ops : list op) :
  2 <= size <= INT_MAX ->
  forall s n,
    occupancy size s n ->
    steps_ok ops s n ->
    occupancy size (fst (run_counted ops s n)) (snd (run_counted ops s n)).
Proof.
  intros Hsize. induction ops as [| o ops IH]; intros s n Hocc Hok; simpl.
  - exact Hocc.
  - destruct Hok as [Ho Hrest].
    apply IH; [| exact Hrest]. now apply exec_occupancy.
Qed.

(** C3, as the code has it.  In a buffer of at least two slots, along pushes
    that go through [getWritePos] and releases that name a slot holding an
    unreleased reading, [isFull()] and [isEmpty()] are never both true, and
    [isFull()] holds exactly when the number of unreleased readings is
    [bufferSize]. *)
Theorem occupancy_invariant
    (size last_sent : Z) (period delay : Q) (ops : list op) :
  2 <= size <= INT_MAX ->
  steps_ok ops (init size last_sent period delay) 0 ->
  let s := fst (run_counted ops (init size last_sent period delay) 0) in
  let n := snd (run_counted ops (init size last_sent period delay) 0) in
  isFull s && isEmpty s = false /\
  (isFull s = true <-> n = bufferSize s).
Proof.
  intros Hsize Hok.
  assert (Hocc : occupancy size
            (fst (run_counted ops (init size last_sent period delay) 0))
            (snd (run_counted ops (init size last_sent period delay) 0))).
  { apply run_counted_occupancy; [exact Hsize | | exact Hok].
    unfold occupancy, positions_ok, init, INT_MAX in *. simpl.
    rewrite uint32_small by lia. rewrite sint32_small by lia.
    repeat split; auto; try lia. }
  destruct (run_counted ops (init size last_sent period delay) 0) as [s n].
  simpl in *. split; [apply isFull_never_isEmpty |].
  pose proof (occupancy_isFull size s n Hocc) as Hiff.
  destruct Hocc as [Hbs _]. rewrite Hbs. exact Hiff.
Qed.

(** ** Overflow *)

Lemma chronologicalb_sound (s : Sensor) :
  chronologicalb s = true -> chronological s.
Proof.
  unfold chronologicalb, chronological. intros Hall a b Hab Hb.
  rewrite forallb_forall in Hall.
  assert (Hstep : forall d, (d <= Z.to_nat (b - a))%nat ->
                            (stampL s a <= stampL s (a + Z.of_nat d))%Q).
  { induction d as [| d IH]; intros Hd.
    - replace (a + Z.of_nat 0) with a by lia. apply Qle_refl.
    - apply Qle_trans with (stampL s (a + Z.of_nat d)); [apply IH; lia |].
      replace (a + Z.of_nat (S d)) with (a + Z.of_nat d + 1) by lia.
      apply dle_true, Hall, zrange_In. lia. }
  replace b with (a + Z.of_nat (Z.to_nat (b - a))) by lia.
  apply Hstep. lia.
Qed.

Lemma stampedb_sound (s : Sensor) : stampedb s = true -> stamped s.
Proof.
  unfold stampedb, stamped, has_stamp. intros Hall i Hi.
  rewrite forallb_forall in Hall.
  specialize (Hall i ltac:(apply zrange_In; lia)).
  now destruct (stampOf s i).
Qed.

Lemma unread_stampedb_sound (s : Sensor) :
  unread_stampedb s = true -> unread_stamped s.
Proof.
  unfold unread_stampedb, unread_stamped, has_stamp. intros Hall p Hp.
  rewrite forallb_forall in Hall. specialize (Hall p Hp).
  now destruct (stampOf s p).
Qed.

(** C2, as the code has it.  [getWritePos] on a full buffer raises the
    generic error of [RtslamException], and [getRaws(t1, t2)] with [0 < t1]
    and [t1] not newer than the oldest slot, the one at [write_pos], raises
    [BUFFER_OVERFLOW]; neither changes the state. *)
Theorem overflow_errors (full s : Sensor) (t1 t2 : Q) (rel : bool) :
  isFull full = true ->
  wf s ->
  chronological s ->
  (t1 <= t2)%Q ->
  (0 < t1)%Q ->
  (t1 <= stampAt s (write_pos s))%Q ->
  getWritePos full = (Err GENERIC_ERROR, full) /\
  getRaws t1 t2 rel s = (Err BUFFER_OVERFLOW, s).
Proof.
  intros Hfull Hwf Hchr Ht Hpos Hold. split.
  - unfold getWritePos, bind, get, throw. now rewrite Hfull.
  - now apply getRaws_overflow.
Qed.

(** ** What a consumer leaves alone *)

Lemma slotStamp_same_state (s : Sensor) (i : Z) :
  exists x, slotStamp i s = (x, s).
Proof.
  destruct (slotStamp_cases s i) as [(t & _ & ->) | [_ ->]]; now eexists.
Qed.

Lemma dichotomy_same_state (fuel : nat) (t : Q) :
  forall i_left i_right s,
    exists x, dichotomy fuel t i_left i_right s = (x, s).
Proof.
  induction fuel as [| fuel IH]; intros il ir s; simpl;
    destruct (il =? ir); try (now eexists).
  unfold bind, get.
  destruct (slotStamp_same_state s (Z.rem (Z.quot (il + ir) 2) (bufferSize s)))
    as [[ts | e] ->]; [| now eexists].
  destruct (dge ts t); apply IH.
Qed.

Lemma slot_same_state (s : Sensor) (i : Z) : exists x, slot i s = (x, s).
Proof. destruct (slot_cases s i) as [[r [_ ->]] | ->]; now eexists. Qed.

(** Whatever the state, [getRaws] writes nothing but [read_pos], and only
    when asked to release. *)
Lemma getRaws_writes (s : Sensor) (t1 t2 : Q) (rel : bool) :
  exists x s',
    getRaws t1 t2 rel s = (x, s') /\
    (s' = s \/ (rel = true /\ exists i1, s' = set_read_pos i1 s)).
Proof.
  unfold getRaws. unfold bind at 1.
  destruct (dle t1 t2); [| eexists _, _; split; [reflexivity | now left]].
  unfold ret at 1. unfold bind at 1, get. unfold bind at 1.
  destruct (dichotomy_same_state (Z.to_nat (bufferSize s)) t1 (write_pos s)
              (write_pos s + bufferSize s - 1) s) as [[il | e] ->];
    [| eexists _, _; split; [reflexivity | now left]].
  unfold bind at 1.
  destruct (slotStamp_same_state s (Z.rem il (bufferSize s))) as [[ti | e] ->];
    [| eexists _, _; split; [reflexivity | now left]].
  unfold bind at 1.
  match goal with
  | |- context [(if ?c then ?a else ?b) s] =>
    assert (Hnd : exists x, (if c then a else b) s = (x, s))
  end.
  { destruct (dlt ti t1); [| now eexists].
    unfold bind, ret.
    match goal with
    | |- context [slotStamp ?i s] =>
      destruct (slotStamp_same_state s i) as [[ti1 | e] ->]
    end; now eexists. }
  destruct Hnd as [x ->].
  destruct x as [[] | e];
    [eexists _, _; split; [reflexivity | now left] | |
     eexists _, _; split; [reflexivity | now left]].
  match goal with
  | |- context [if ?c then throw BUFFER_OVERFLOW else _] => destruct c
  end; [eexists _, _; split; [reflexivity | now left] |].
  unfold bind at 1.
  match goal with
  | |- context [(if ?c then ?a else ?b) s] =>
    assert (Hi2 : exists x, (if c then a else b) s = (x, s))
  end.
  { destruct (dlt ti t1); [now eexists |].
    unfold bind, ret.
    match goal with
    | |- context [dichotomy ?f ?t ?a ?b s] =>
      destruct (dichotomy_same_state f t a b s) as [[il2 | e] ->]
    end; now eexists. }
  destruct Hi2 as [x ->].
  destruct x as [i2 | e]; [| eexists _, _; split; [reflexivity | now left]].
  unfold bind, when, modify, get, ret.
  destruct rel; simpl;
    match goal with
    | |- context [if ?a <=? ?b then _ else _] => destruct (a <=? b)
    end; eexists _, _; (split; [reflexivity |]);
    try (now left); right; (split; [reflexivity | now eexists]).
Qed.

Lemma rawInfosAt_same_state (s : Sensor) (l : list Z) :
  exists x, rawInfosAt l s = (x, s).
Proof.
  induction l as [| p l [x IH]]; [now eexists |].
  simpl. unfold bind, rawInfoAt, bind, stamp, ret, throw.
  destruct (slot_same_state s p) as [[r | e] ->]; [| now eexists].
  destruct (extractRawTimestamp r) as [ts |]; [| now eexists].
  rewrite IH. destruct x; now eexists.
Qed.

Lemma getUnreadRawInfos_same_state (s : Sensor) (infos : RawInfos) :
  exists x, getUnreadRawInfos getLastTimestamp infos s = (x, s).
Proof.
  unfold getUnreadRawInfos. unfold bind at 1, get. unfold bind at 1.
  match goal with
  | |- context [(if ?c then ?a else ?b) s] =>
    assert (Hav : exists x, (if c then a else b) s = (x, s))
  end.
  { destruct (negb (isEmpty s)); [| now eexists].
    cbv zeta. unfold bind, ret.
    match goal with
    | |- context [rawInfosAt ?l s] =>
      destruct (rawInfosAt_same_state s l) as [[a1 | e] ->]
    end; [| now eexists].
    match goal with
    | |- context [rawInfosAt ?l s] =>
      destruct (rawInfosAt_same_state s l) as [[a2 | e] ->]
    end; now eexists. }
  destruct Hav as [[avail | e] ->]; [| now eexists].
  cbv zeta. unfold ret.
  destruct (Z.of_nat (length avail) =? 0); [| now eexists].
  destruct (no_more_data s); now eexists.
Qed.

Lemma getNextRawInfo_same_state (s : Sensor) (info : RawInfo) :
  exists x, getNextRawInfo info s = (x, s).
Proof.
  unfold getNextRawInfo, bind, get, ret.
  destruct (negb (isEmpty s)).
  - cbv zeta.
    destruct (slotStamp_same_state s (getFirstUnreadPos s)) as [[ts | e] ->];
      now eexists.
  - destruct (no_more_data s); now eexists.
Qed.

Lemma release_producer_side (s : Sensor) (id : Z) :
  producer_side (snd (release id s)) = producer_side s.
Proof.
  unfold release, bind, get, modify, when, ret.
  destruct (negb (id =? uint32 (bufferSize s - 1))); simpl;
    match goal with
    | |- context [if ?a =? ?b then _ else _] => destruct (a =? b)
    end; reflexivity.
Qed.

Lemma releaseUntil_producer_side (s : Sensor) (id : Z) :
  producer_side (snd (releaseUntil id s)) = producer_side s.
Proof.
  unfold releaseUntil, bind, get, modify, when, ret. simpl.
  match goal with
  | |- context [if ?a =? ?b then _ else _] => destruct (a =? b)
  end; reflexivity.
Qed.

Lemma getRaw_producer_side (s : Sensor) (id : Z) :
  producer_side (snd (getRaw id s)) = producer_side s.
Proof.
  pose proof (releaseUntil_producer_side s id) as Hrel.
  unfold getRaw. unfold bind at 1.
  destruct (releaseUntil id s) as [[[] | e] s1]; simpl in Hrel;
    [| exact Hrel].
  unfold bind, modify, ret.
  destruct (slot_same_state s1 id) as [[r | e] ->]; exact Hrel.
Qed.

Lemma consumer_keeps_producer_side_aux (c : call) (s : Sensor) :
  producer_side (after getLastTimestamp c s) = producer_side s.
Proof.
  destruct c as [id | | id | id | id | id | | t1 t2 rel | infos | info];
    simpl.
  - apply release_producer_side.
  - unfold release_current, bind, get. apply release_producer_side.
  - apply releaseUntil_producer_side.
  - apply getRaw_producer_side.
  - unfold observeRaw. now destruct (slot_same_state s id) as [x ->].
  - unfold getRawTimestamp.
    now destruct (slotStamp_same_state s id) as [x ->].
  - unfold getLastProcessedRaw, bind, get.
    now destruct (slot_same_state s (last_sent_pos s)) as [x ->].
  - destruct (getRaws_writes s t1 t2 rel)
      as (x & s' & -> & [-> | (_ & i1 & ->)]); reflexivity.
  - now destruct (getUnreadRawInfos_same_state s infos) as [x ->].
  - now destruct (getNextRawInfo_same_state s info) as [x ->].
Qed.

(** X2.  No sequence of calls of a consumer, whatever their arguments and
    whether they return or raise, changes what the producer owns: [write_pos],
    [data_count], the slots and their number, and [no_more_data]. *)
Theorem consumer_keeps_producer_side (cs : list call) (s : Sensor) :
  producer_side (after_all getLastTimestamp cs s) = producer_side s.
Proof.
  unfold after_all. revert s.
  induction cs as [| c cs IH]; intros s; simpl; [reflexivity |].
  rewrite IH. apply consumer_keeps_producer_side_aux.
Qed.

(** ** Well-formedness along a run *)

Lemma producer_side_sized (s s' : Sensor) :
  producer_side s' = producer_side s -> sized s -> sized s'.
Proof.
  unfold producer_side, sized. intros [= _ _ Hbuf Hbs _]. now rewrite Hbuf, Hbs.
Qed.

Lemma exec_sized (o : op) (s : Sensor) : sized s -> sized (exec o s).
Proof.
  intros Hsz. destruct o as [r | | id | id | t1 t2 rel]; simpl.
  - destruct (push_cases s r) as [[e ->] | (_ & _ & ->)]; [exact Hsz |].
    destruct (incWritePos_effect
                (set_buffer (list_set (buffer s) (Z.to_nat (write_pos s)) r) s))
      as (_ & _ & _ & _ & _ & _ & Hbuf & Hbs). simpl in Hbuf, Hbs.
    unfold sized in *. now rewrite Hbuf, Hbs, list_set_length.
  - destruct (incWritePos_effect s) as (_ & _ & _ & _ & _ & _ & Hbuf & Hbs).
    simpl in Hbuf, Hbs. unfold sized in *. now rewrite Hbuf, Hbs.
  - apply (producer_side_sized s); [apply release_producer_side | exact Hsz].
  - apply (producer_side_sized s);
      [apply releaseUntil_producer_side | exact Hsz].
  - destruct (getRaws_writes s t1 t2 rel)
      as (x & s' & -> & [-> | (_ & i1 & ->)]); exact Hsz.
Qed.

(** X1.  From the constructed state of a buffer of [0 < size <= INT_MAX]
    slots, every run of pushes, [incWritePos], [getRaws] and releases of
    slot indices below [size] ends in a well-formed state: both positions
    inside the buffer, [bufferSize] still [size] and the buffer still of
    [size] slots. *)
Theorem wf_along_run
    (size last_sent : Z) (period delay : Q) (ops : list op) :
  0 < size <= INT_MAX ->
  Forall (op_in_range size) ops ->
  let s := run ops (init size last_sent period delay) in
  wf s /\ bufferSize s = size /\ Z.of_nat (length (buffer s)) = size.
Proof.
  intros Hsize Hops.
  assert (Hinit : (positions_ok (init size last_sent period delay) /\
                   bufferSize (init size last_sent period delay) = size) /\
                  sized (init size last_sent period delay)).
  { unfold positions_ok, sized, init, INT_MAX in *. simpl.
    rewrite repeat_length, uint32_small by lia.
    rewrite sint32_small by lia. lia. }
  cbv zeta. revert Hinit. generalize (init size last_sent period delay).
  unfold run. induction Hops as [| o ops Ho _ IH]; intros s [Hpos Hsz]; simpl.
  - destruct Hpos as [Hpos Hbs]. destruct Hsz as [Hlen Hmax].
    repeat split; auto; try apply Hpos; lia.
  - apply IH. split.
    + apply exec_positions; [lia | exact Ho | exact Hpos].
    + now apply exec_sized.
Qed.

(** ** The outcomes of [getRaws] *)

Lemma rem_eq_start (bs w L : Z) :
  0 <= w < bs -> w <= L <= w + bs - 1 -> Z.rem L bs = w -> L = w.
Proof.
  intros Hw HL E. rewrite Z.rem_mod_nonneg in E by lia.
  pose proof (Z.div_mod L bs ltac:(lia)) as D. rewrite E in D.
  assert (L / bs = 0) by nia. nia.
Qed.

Lemma getRaws_cases (s : Sensor) (t1 t2 : Q) (rel : bool) :
  wf s ->
  exists x s',
    getRaws t1 t2 rel s = (x, s') /\ getRaws_outcome s t1 t2 rel x s'.
Proof.
  intros [[Hw Hr] Hsz].
  assert (Hbs : 0 < bufferSize s) by lia.
  pose proof Hsz as [Hlen _].
  unfold getRaws_outcome, getRaws. unfold bind at 1.
  destruct (dle t1 t2) eqn:Ht;
    [apply dle_true in Ht
    | apply dle_false in Ht; eexists _, _; split; [reflexivity |];
      left; now repeat split].
  unfold ret at 1. unfold bind at 1, get. unfold bind at 1.
  destruct (dichotomy_outcome s t1 Hbs (Z.to_nat (bufferSize s))
              (write_pos s) (write_pos s + bufferSize s - 1))
    as [(L1 & -> & HL1 & Hright & _) | (-> & Hbad)]; [lia | lia | |];
    [| eexists _, _; split; [reflexivity |]; right; left; now repeat split].
  set (i := Z.rem L1 (bufferSize s)).
  set (i1 := if dle t1 from_start then i
             else Z.rem (i - 1 + bufferSize s) (bufferSize s)).
  assert (Hi : 0 <= i < bufferSize s) by (apply rem_range; lia).
  assert (Hi1 : 0 <= i1 < bufferSize s).
  { unfold i1. destruct (dle t1 from_start); [exact Hi |].
    apply rem_range; lia. }
  unfold bind at 1.
  destruct (slotStamp_cases s i) as [(ti & Hti & ->) | [Hnone ->]];
    [| eexists _, _; split; [reflexivity |]; right; left;
       repeat split; auto; now exists i].
  unfold bind at 1.
  assert (Hnd : (exists b, (if dlt ti t1
                   then ti1 <- slotStamp i1 ;; ret (dlt ti1 0%Q)
                   else ret false) s = (Ok b, s)) \/
                ((if dlt ti t1
                  then ti1 <- slotStamp i1 ;; ret (dlt ti1 0%Q)
                  else ret false) s = (Err BAD_INDEX, s) /\
                 stampOf s i1 = None)).
  { destruct (dlt ti t1); [| left; now eexists].
    unfold bind, ret.
    destruct (slotStamp_cases s i1) as [(ti1 & _ & ->) | [Hnone ->]];
      [left; now eexists | right; now split]. }
  destruct Hnd as [[b ->] | [-> Hnone]];
    [| eexists _, _; split; [reflexivity |]; right; left;
       repeat split; auto; now exists i1].
  destruct b;
    [eexists _, _; split; [reflexivity |]; right; right; left;
     now repeat split |].
  destruct ((i =? write_pos s) && dgt t1 0%Q) eqn:Hover.
  { eexists _, _. split; [reflexivity |]. right. right. right. left.
    apply andb_true_iff in Hover. destruct Hover as [Ei Hpos].
    apply Z.eqb_eq in Ei. apply dgt_true in Hpos. repeat split; auto.
    intros Hbig. apply (rem_eq_start (bufferSize s)) in Ei; [| lia | lia].
    subst L1. specialize (Hright ltac:(lia)).
    unfold stampL in Hright. now rewrite Z.mod_small in Hright by lia. }
  unfold bind at 1.
  assert (Hi2 : (exists i2, 0 <= i2 < bufferSize s /\
                   (if dlt ti t1 then ret i1
                    else i_left2 <- dichotomy (Z.to_nat (bufferSize s)) t2 L1
                                      (write_pos s + bufferSize s - 1) ;;
                         ret (Z.rem i_left2 (bufferSize s))) s = (Ok i2, s)) \/
                ((if dlt ti t1 then ret i1
                  else i_left2 <- dichotomy (Z.to_nat (bufferSize s)) t2 L1
                                    (write_pos s + bufferSize s - 1) ;;
                       ret (Z.rem i_left2 (bufferSize s))) s =
                 (Err BAD_INDEX, s) /\
                 exists k, 0 <= k < bufferSize s /\ stampOf s k = None)).
  { destruct (dlt ti t1); [left; now exists i1 |].
    unfold bind, ret.
    destruct (dichotomy_outcome s t2 Hbs (Z.to_nat (bufferSize s))
                L1 (write_pos s + bufferSize s - 1))
      as [(L2 & -> & HL2 & _) | (-> & Hbad)]; [lia | lia | |].
    - left. eexists. split; [| reflexivity]. apply rem_range; lia.
    - right. now split. }
  destruct Hi2 as [(i2 & Hi2 & ->) | (-> & Hbad)];
    [| eexists _, _; split; [reflexivity |]; right; left; now repeat split].
  exists (Ok (ring (bufferSize s) i1 i2)),
         (if rel then set_read_pos i1 s else s).
  split.
  - unfold bind, when, modify, get, ret, ring.
    destruct rel; simpl; rewrite Hlen; now destruct (i1 <=? i2).
  - right. right. right. right. split; [exact Ht |]. exists i1, i2.
    now repeat split.
Qed.

(** ** Ring ranges *)

Lemma zrange_cons (lo hi : Z) :
  lo < hi -> zrange lo hi = lo :: zrange (lo + 1) hi.
Proof.
  intros Hlt. rewrite (zrange_app lo (lo + 1) hi) by lia.
  unfold zrange at 1. replace (lo + 1 - lo) with 1 by lia.
  simpl. f_equal. lia.
Qed.

Lemma zrange_nil (lo hi : Z) : hi <= lo -> zrange lo hi = [].
Proof.
  intros Hle. unfold zrange. now replace (Z.to_nat (hi - lo)) with 0%nat by lia.
Qed.

Lemma zrange_NoDup (lo hi : Z) : NoDup (zrange lo hi).
Proof.
  remember (Z.to_nat (hi - lo)) as n eqn:Hn.
  revert lo Hn. induction n as [| n IH]; intros lo Hn.
  - rewrite zrange_nil by lia. constructor.
  - rewrite zrange_cons by lia. constructor.
    + rewrite zrange_In. lia.
    + apply IH. lia.
Qed.

Lemma ring_In (size first last k : Z) :
  0 <= first < size -> 0 <= last < size ->
  In k (ring size first last) -> 0 <= k < size.
Proof.
  intros Hf Hl. unfold ring.
  destruct (Z.leb_spec first last); rewrite ?in_app_iff, !zrange_In; lia.
Qed.

Lemma ring_NoDup (size first last : Z) :
  0 <= first < size -> 0 <= last < size -> NoDup (ring size first last).
Proof.
  intros Hf Hl. unfold ring.
  destruct (Z.leb_spec first last); [apply zrange_NoDup |].
  apply NoDup_app; [apply zrange_NoDup | apply zrange_NoDup |].
  intros a Ha Hb. apply zrange_In in Ha, Hb. lia.
Qed.

Lemma ring_head (size first last : Z) :
  0 <= first < size -> 0 <= last < size ->
  exists rest, ring size first last = first :: rest.
Proof.
  intros Hf Hl. unfold ring. destruct (Z.leb_spec first last).
  - rewrite zrange_cons by lia. now eexists.
  - rewrite (zrange_cons first size) by lia. now eexists.
Qed.

Lemma ring_length (size first last : Z) :
  0 <= first < size -> 0 <= last < size ->
  Z.of_nat (length (ring size first last)) = (last - first) mod size + 1.
Proof.
  intros Hf Hl. unfold ring.
  rewrite (mod_distance size last first) by lia.
  destruct (Z.leb_spec first last); destruct (Z.ltb_spec last first);
    try lia; rewrite ?length_app, !zrange_length; lia.
Qed.

(** ** What [getRaws] returns and raises *)

(** X3.  On a well-formed state, the slots that [getRaws] returns are valid
    slot indices without repetition, so at most [bufferSize] of them; an
    empty view comes with an unchanged state, and otherwise [read_pos] is
    moved, when release is asked for, exactly to the first slot of the view,
    never past it. *)
Theorem getRaws_view
    (s s' : Sensor) (t1 t2 : Q) (rel : bool) (view : list Z) :
  wf s ->
  getRaws t1 t2 rel s = (Ok view, s') ->
  NoDup view /\
  (forall k, In k view -> 0 <= k < bufferSize s) /\
  Z.of_nat (length view) <= bufferSize s /\
  match view with
  | [] => s' = s
  | k :: _ => s' = if rel then set_read_pos k s else s
  end.
Proof.
  intros Hwf Hrun.
  destruct (getRaws_cases s t1 t2 rel Hwf) as (x & u & Hx & Hcases).
  rewrite Hrun in Hx. injection Hx as <- <-.
  destruct Hcases as [(_ & [=] & _) | [(_ & [=] & _) | [(_ & [= ->] & ->)
                     | [(_ & _ & _ & [=] & _) | (_ & Hring)]]]].
  - split; [apply NoDup_nil |]. split; [intros k [] |].
    split; [| reflexivity].
    simpl. destruct Hwf as [[Hw _] _]. lia.
  - destruct Hring as (i1 & i2 & Hi1 & Hi2 & [= ->] & ->).
    split; [now apply ring_NoDup |].
    split; [intros k; now apply ring_In |].
    split.
    + rewrite ring_length by assumption.
      pose proof (Z.mod_pos_bound (i2 - i1) (bufferSize s)). lia.
    + destruct (ring_head (bufferSize s) i1 i2 Hi1 Hi2) as [rest ->].
      reflexivity.
Qed.

(** X4.  On a well-formed state [getRaws] raises nothing but the failed
    assertion, exactly when [t1 > t2], [BUFFER_OVERFLOW], only when
    [0 < t1 <= t2], and the out-of-range error of reading the timestamp of a
    slot that holds none, only when [t1 <= t2] and there is such a slot: on
    a buffer whose slots all hold a timestamp it raises nothing but the first
    two.  Whenever it raises, the state is the one it was called in, also
    with release asked for. *)
Theorem getRaws_raises (s : Sensor) (t1 t2 : Q) (rel : bool) :
  wf s ->
  (fst (getRaws t1 t2 rel s) = Err ASSERT_FAILED <-> (t2 < t1)%Q) /\
  (forall e s',
      getRaws t1 t2 rel s = (Err e, s') ->
      s' = s /\
      (e = ASSERT_FAILED \/
       (e = BUFFER_OVERFLOW /\ (0 < t1)%Q /\ (t1 <= t2)%Q) \/
       (e = BAD_INDEX /\ (t1 <= t2)%Q /\
        exists i, 0 <= i < bufferSize s /\ stampOf s i = None))) /\
  (stamped s ->
   fst (getRaws t1 t2 rel s) <> Err BAD_INDEX).
Proof.
  intros Hwf.
  destruct (getRaws_cases s t1 t2 rel Hwf) as (x & u & Hx & Hcases).
  rewrite Hx. simpl.
  assert (Hno : forall a b : Q, (a <= b)%Q -> (b < a)%Q -> False)
    by (intros a b Hle Hlt; now apply (Qlt_not_le _ _ Hlt)).
  destruct Hcases as [(Hlt & -> & ->) | [(Hle & -> & -> & Hbad)
                     | [(Hle & -> & ->)
                     | [(Hle & Hpos & _ & -> & ->) | (Hle & Hring)]]]].
  - split; [split; auto |]. split; [| discriminate].
    intros e s' [= <- <-]. auto.
  - split; [split; [discriminate | intros Hlt; exfalso; eauto] |].
    split.
    + intros e s' [= <- <-].
      split; [reflexivity | right; right; repeat split; assumption].
    + intros Hst _. destruct Hbad as (i & Hi & Hnone). now apply (Hst i Hi).
  - split; [split; [discriminate | intros Hlt; exfalso; eauto] |].
    split; [intros e s' [=] | discriminate].
  - split; [split; [discriminate | intros Hlt; exfalso; eauto] |].
    split; [| discriminate].
    intros e s' [= <- <-].
    split; [reflexivity | right; left; repeat split; assumption].
  - destruct Hring as (i1 & i2 & _ & _ & -> & ->).
    split; [split; [discriminate | intros Hlt; exfalso; eauto] |].
    split; [intros e s' [=] | discriminate].
Qed.

(** X5.  In a buffer of at least two slots held in chronological order,
    [getRaws] raises [BUFFER_OVERFLOW] exactly when [0 < t1 <= t2] and the
    oldest slot, the one at [write_pos], is not older than [t1]. *)
Theorem getRaws_overflow_iff (s : Sensor) (t1 t2 : Q) (rel : bool) :
  wf s ->
  2 <= bufferSize s ->
  chronological s ->
  (fst (getRaws t1 t2 rel s) = Err BUFFER_OVERFLOW <->
   (0 < t1)%Q /\ (t1 <= t2)%Q /\ (t1 <= stampAt s (write_pos s))%Q).
Proof.
  intros Hwf Hbig Hchr. split.
  - destruct (getRaws_cases s t1 t2 rel Hwf) as (x & u & Hx & Hcases).
    rewrite Hx. simpl. intros ->.
    destruct Hcases as [(_ & [=] & _) | [(_ & [=] & _) | [(_ & [=] & _)
                       | [(Hle & Hpos & Hold & _) | (_ & Hring)]]]].
    + auto.
    + destruct Hring as (i1 & i2 & _ & _ & [=] & _).
  - intros (Hpos & Hle & Hold).
    now rewrite (getRaws_overflow s t1 t2 rel Hwf Hchr Hle Hpos Hold).
Qed.

(** ** Queries that find no reading inside the range *)

Lemma newest_slot (s : Sensor) :
  positions_ok s ->
  Z.rem (write_pos s + bufferSize s - 1) (bufferSize s) = getLastUnreadPos s.
Proof.
  intros [Hw Hr]. rewrite Z.rem_mod_nonneg by lia. unfold getLastUnreadPos.
  destruct (Z.eqb_spec (write_pos s) 0) as [E | E].
  - rewrite E. apply Z.mod_small. lia.
  - replace (write_pos s + bufferSize s - 1)
      with (write_pos s - 1 + 1 * bufferSize s) by lia.
    rewrite Z_mod_plus_full. apply Z.mod_small. lia.
Qed.

Lemma stampL_range (s : Sensor) (j : Z) (t : Q) :
  0 < bufferSize s ->
  (forall i, 0 <= i < bufferSize s -> (stampAt s i < t)%Q) ->
  (stampL s j < t)%Q.
Proof.
  intros Hbs Hall. unfold stampL. apply Hall. now apply Z.mod_pos_bound.
Qed.

Lemma getRaws_empty_view (s : Sensor) (t1 t2 : Q) (rel : bool) :
  wf s ->
  (t1 <= t2)%Q ->
  (forall i, 0 <= i < bufferSize s ->
             (stampAt s i < t1)%Q /\ (stampAt s i < 0)%Q) ->
  getRaws t1 t2 rel s = (Ok [], s).
Proof.
  intros Hwf Ht Hall. pose proof Hwf as [[Hw Hr] Hsz].
  assert (Hbs : 0 < bufferSize s) by lia.
  assert (Hst : stamped s).
  { intros i Hi Hnone. destruct (Hall i Hi) as [_ Hneg].
    unfold stampAt in Hneg. rewrite Hnone in Hneg. discriminate Hneg. }
  assert (Hs1 : dichotomy (Z.to_nat (bufferSize s)) t1 (write_pos s)
                  (write_pos s + bufferSize s - 1) s =
                (Ok (write_pos s + bufferSize s - 1), s)).
  { apply dichotomy_first; auto; try lia.
    intros j _. apply stampL_range; [exact Hbs |]. intros i Hi.
    now apply Hall. }
  set (i := Z.rem (write_pos s + bufferSize s - 1) (bufferSize s)).
  assert (Hi : 0 <= i < bufferSize s) by (apply rem_range; lia).
  pose proof (slotStamp_ok s i Hst Hi) as Hri.
  assert (Hnl : dlt (stampAt s i) t1 = true).
  { apply dlt_true. now apply Hall. }
  set (i1 := if dle t1 from_start then i
             else Z.rem (i - 1 + bufferSize s) (bufferSize s)).
  assert (Hi1 : 0 <= i1 < bufferSize s).
  { unfold i1. destruct (dle t1 from_start); [exact Hi |].
    apply rem_range; lia. }
  pose proof (slotStamp_ok s i1 Hst Hi1) as Hri1.
  assert (Hneg : dlt (stampAt s i1) 0%Q = true).
  { apply dlt_true. now apply Hall. }
  unfold getRaws, bind, get, ret.
  apply dle_true in Ht. rewrite Ht, Hs1. fold i. rewrite Hri, Hnl.
  fold i1. now rewrite Hri1, Hneg.
Qed.

(** X6.  When every slot is older than [t1] and carries a negative
    timestamp, as the slots of a buffer that holds no reading yet do,
    [getRaws] returns the empty view, raises nothing and releases nothing,
    also with release asked for. *)
Theorem getRaws_no_data (s : Sensor) (t1 t2 : Q) (rel : bool) :
  wf s ->
  (t1 <= t2)%Q ->
  (forall i, 0 <= i < bufferSize s ->
             (stampAt s i < t1)%Q /\ (stampAt s i < 0)%Q) ->
  getRaws t1 t2 rel s = (Ok [], s).
Proof. apply getRaws_empty_view. Qed.

(** X7.  When every slot holds a timestamp and every reading is older than
    [t1 > -0.1], in a buffer of at least two slots, [getRaws] returns one
    slot only: the one before the newest slot, provided its timestamp is not
    negative, and that is where release moves [read_pos]. *)
Theorem getRaws_all_older (s : Sensor) (t1 t2 : Q) (rel : bool) :
  wf s ->
  stamped s ->
  2 <= bufferSize s ->
  (t1 <= t2)%Q ->
  (from_start < t1)%Q ->
  (forall i, 0 <= i < bufferSize s -> (stampAt s i < t1)%Q) ->
  let prev := (getLastUnreadPos s - 1) mod bufferSize s in
  (0 <= stampAt s prev)%Q ->
  getRaws t1 t2 rel s =
  (Ok [prev], if rel then set_read_pos prev s else s).
Proof.
  intros Hwf Hst Hbig Ht Hfs Hall prev Hprev. pose proof Hwf as [[Hw Hr] Hsz].
  pose proof Hsz as [Hlen _].
  assert (Hbs : 0 < bufferSize s) by lia.
  assert (Hs1 : dichotomy (Z.to_nat (bufferSize s)) t1 (write_pos s)
                  (write_pos s + bufferSize s - 1) s =
                (Ok (write_pos s + bufferSize s - 1), s)).
  { apply dichotomy_first; auto; try lia.
    intros j _. now apply stampL_range. }
  pose proof (newest_slot s (conj Hw Hr)) as Hnew.
  pose proof (getLastUnreadPos_range s (conj Hw Hr)) as Hlast.
  set (i := getLastUnreadPos s) in *.
  pose proof (slotStamp_ok s i Hst Hlast) as Hri.
  assert (Hnl : dlt (stampAt s i) t1 = true).
  { apply dlt_true. now apply Hall. }
  assert (Hi1 : Z.rem (i - 1 + bufferSize s) (bufferSize s) = prev).
  { rewrite Z.rem_mod_nonneg by lia. unfold prev.
    replace (i - 1 + bufferSize s) with (i - 1 + 1 * bufferSize s) by lia.
    apply Z_mod_plus_full. }
  assert (Hprange : 0 <= prev < bufferSize s)
    by (apply Z.mod_pos_bound; lia).
  pose proof (slotStamp_ok s prev Hst Hprange) as Hrp.
  assert (Hneg : dlt (stampAt s prev) 0%Q = false)
    by now apply dlt_false.
  assert (Hnw : (i =? write_pos s) = false).
  { apply Z.eqb_neq. unfold i, getLastUnreadPos.
    destruct (Z.eqb_spec (write_pos s) 0); lia. }
  unfold getRaws, bind, get, ret, when, modify.
  apply dle_true in Ht. apply dle_false in Hfs.
  rewrite Ht, Hs1, Hnew, Hri, Hnl, Hfs, Hi1, Hrp, Hneg, Hnw. simpl.
  rewrite Z.leb_refl.
  rewrite (zrange_cons prev (prev + 1)) by lia.
  rewrite (zrange_nil (prev + 1)) by lia.
  now destruct rel.
Qed.

(** ** The unread slots *)

Lemma rawInfosAt_map (s : Sensor) (l : list Z) :
  (forall p, In p l -> stampOf s p <> None) ->
  rawInfosAt l s = (Ok (map (rawInfoOf s) l), s).
Proof.
  induction l as [| p l IH]; intros Hl; [reflexivity |].
  destruct (rawInfoAt_stamped s p) as (r & Hr & Hrun); [apply Hl; now left |].
  simpl. unfold bind. rewrite Hrun.
  rewrite IH by (intros q Hq; apply Hl; now right).
  unfold ret, rawInfoOf. now rewrite Hr.
Qed.

Lemma unread_In (s : Sensor) (p : Z) :
  positions_ok s -> In p (unread s) -> 0 <= p < bufferSize s.
Proof.
  intros Hpos. unfold unread. destruct (isEmpty s); [intros [] |].
  apply ring_In;
    [now apply getFirstUnreadPos_range | now apply getLastUnreadPos_range].
Qed.

Lemma stamped_unread (s : Sensor) :
  positions_ok s -> stamped s -> unread_stamped s.
Proof.
  intros Hpos Hst p Hp. apply Hst. now apply unread_In.
Qed.

(** X8.  On a well-formed state whose unread slots hold readings, each with
    its timestamp, [getUnreadRawInfos] fills [infos.available] with the
    unread slots in ring order, from [getFirstUnreadPos()] to
    [getLastUnreadPos()], each once, with the timestamp and the arrival time
    stored in the slot; [getNextRawInfo] describes the first of them, with
    the same timestamp. *)
Theorem getUnreadRawInfos_available
    (s : Sensor) (infos : RawInfos) (info : RawInfo) :
  wf s ->
  unread_stamped s ->
  exists status infos' info',
    getUnreadRawInfos getLastTimestamp infos s = (Ok (status, infos'), s) /\
    available infos' = map (rawInfoOf s) (unread s) /\
    map id (available infos') = unread s /\
    NoDup (unread s) /\
    getNextRawInfo info s = (Ok (status, info'), s) /\
    match available infos' with
    | [] => info' = info
    | first :: _ =>
      id info' = id first /\ timestamp info' = timestamp first
    end.
Proof.
  intros Hwf Hst. pose proof Hwf as [Hpos [Hlen _]].
  pose proof (getFirstUnreadPos_range s Hpos) as Hfirst.
  pose proof (getLastUnreadPos_range s Hpos) as Hlast.
  assert (Hids : forall l, map id (map (rawInfoOf s) l) = l).
  { intros l. rewrite map_map. rewrite <- (map_id l) at 2.
    apply map_ext. intros p. unfold rawInfoOf.
    now destruct (slotOf s p). }
  destruct (isEmpty s) eqn:He.
  - unfold unread. rewrite He.
    destruct (getUnreadRawInfos_empty s infos He)
      as (infos' & Hrun & Havail).
    exists (if no_more_data s then -2 else -1), infos', info.
    rewrite Havail. repeat split; auto; [constructor |].
    now apply getNextRawInfo_empty.
  - pose proof (first_unread s Hwf He) as Hin.
    unfold unread_stamped in Hst. unfold unread in *. rewrite He in *.
    set (first := getFirstUnreadPos s) in *.
    set (last := getLastUnreadPos s) in *.
    assert (Hrun : getUnreadRawInfos getLastTimestamp infos s =
              (Ok (0, mkRawInfos
                        (map (rawInfoOf s) (ring (bufferSize s) first last))
                        (mkRawInfo 0 (getLastTimestamp s + data_period s)%Q
                           (getLastTimestamp s + data_period s
                            + arrival_delay s)%Q)
                        0%Q (integrate_all infos)), s)).
    { unfold getUnreadRawInfos, bind at 1, get. rewrite He. simpl.
      fold first last.
      match goal with
      | |- bind ?m _ s = _ =>
        assert (Hav : m s = (Ok (map (rawInfoOf s)
                                   (ring (bufferSize s) first last)), s))
      end.
      { unfold ring in *. unfold bind, ret.
        destruct (Z.leb_spec first last) as [Hle | Hgt].
        - rewrite rawInfosAt_map by exact Hst.
          rewrite (zrange_nil 0 (-1 + 1)) by lia. simpl.
          now rewrite app_nil_r.
        - replace (bufferSize s - 1 + 1) with (bufferSize s) by lia.
          rewrite rawInfosAt_map
            by (intros p Hp; apply Hst, in_or_app; now left).
          rewrite rawInfosAt_map
            by (intros p Hp; apply Hst, in_or_app; now right).
          now rewrite <- map_app. }
      unfold bind at 1. rewrite Hav.
      destruct (ring_head (bufferSize s) first last Hfirst Hlast)
        as [rest ->].
      reflexivity. }
    eexists 0, _, (mkRawInfo first (stampAt s first) 0%Q).
    split; [exact Hrun |]. simpl.
    split; [reflexivity |]. split; [apply Hids |].
    split; [now apply ring_NoDup |].
    split.
    + apply getNextRawInfo_nonempty; [exact He |]. now apply Hst.
    + destruct (ring_head (bufferSize s) first last Hfirst Hlast)
        as [rest ->].
      simpl. unfold rawInfoOf, stampAt, stampOf.
      destruct (slotOf s first); now split.
Qed.

(** ** Consuming unread slots *)

Lemma zrange_skipn (n : nat) :
  forall a b, skipn n (zrange a b) = zrange (a + Z.of_nat n) b.
Proof.
  induction n as [| n IH]; intros a b.
  - simpl. f_equal. lia.
  - destruct (Z_lt_le_dec a b) as [Hlt | Hge].
    + rewrite zrange_cons by lia. simpl. rewrite IH. f_equal. lia.
    + rewrite !zrange_nil by lia. reflexivity.
Qed.

Lemma ring_logical (size L1 L2 : Z) :
  0 < size -> 0 <= L1 -> L1 <= L2 < L1 + size ->
  ring size (L1 mod size) (L2 mod size) =
  map (fun j => j mod size) (zrange L1 (L2 + 1)).
Proof. intros Hs H1 H2. unfold ring. apply view_cyclic; lia. Qed.

Lemma write_pos_after_last (s : Sensor) :
  positions_ok s ->
  write_pos s = (getLastUnreadPos s + 1) mod bufferSize s.
Proof.
  intros [Hw Hr]. unfold getLastUnreadPos.
  destruct (Z.eqb_spec (write_pos s) 0) as [E | E].
  - replace (bufferSize s - 1 + 1) with (bufferSize s) by lia.
    rewrite Z.mod_same by lia. exact E.
  - replace (write_pos s - 1 + 1) with (write_pos s) by lia.
    symmetry. apply Z.mod_small. lia.
Qed.

Lemma mod_add_cancel (size a x y : Z) :
  0 < size -> 0 <= x < size -> 0 <= y < size ->
  (a + x) mod size = (a + y) mod size -> x = y.
Proof.
  intros Hs Hx Hy E.
  assert (Hd : ((a + x) - (a + y)) mod size = 0).
  { rewrite Zminus_mod, E, Z.sub_diag. apply Z.mod_0_l. lia. }
  replace (a + x - (a + y)) with (x - y) in Hd by lia.
  destruct (Z_lt_le_dec x y).
  - rewrite <- (Z_mod_plus_full (x - y) 1 size) in Hd.
    rewrite Z.mod_small in Hd by lia. lia.
  - rewrite Z.mod_small in Hd by lia. lia.
Qed.

(** The unread slots of a non-empty buffer, by logical index. *)
Lemma unread_logical (s : Sensor) :
  wf s ->
  isEmpty s = false ->
  let size := bufferSize s in
  let first := getFirstUnreadPos s in
  let d := (getLastUnreadPos s - first) mod size in
  0 <= d < size /\
  (first + d) mod size = getLastUnreadPos s /\
  write_pos s = (first + d + 1) mod size /\
  unread s = map (fun j => j mod size) (zrange first (first + d + 1)).
Proof.
  intros [Hpos [Hlen _]] He size first d.
  pose proof (getFirstUnreadPos_range s Hpos) as Hfirst.
  pose proof (getLastUnreadPos_range s Hpos) as Hlast.
  pose proof (write_pos_after_last s Hpos) as Hw.
  fold size first in Hfirst, Hlast, Hw.
  assert (Hd : 0 <= d < size) by (apply Z.mod_pos_bound; lia).
  assert (Hlastd : (first + d) mod size = getLastUnreadPos s).
  { unfold d. rewrite Zplus_mod_idemp_r.
    replace (first + (getLastUnreadPos s - first))
      with (getLastUnreadPos s) by lia.
    apply Z.mod_small. lia. }
  split; [exact Hd |]. split; [exact Hlastd |]. split.
  - rewrite Hw, <- Hlastd. fold size. now rewrite Zplus_mod_idemp_l.
  - unfold unread. rewrite He. fold size first.
    rewrite <- (ring_logical size first (first + d)) by lia.
    now rewrite Hlastd, (Z.mod_small first) by lia.
Qed.

Lemma unread_nth (s : Sensor) (k : nat) :
  wf s ->
  (k < length (unread s))%nat ->
  nth k (unread s) 0 = (getFirstUnreadPos s + Z.of_nat k) mod bufferSize s.
Proof.
  intros Hwf Hk.
  destruct (isEmpty s) eqn:He;
    [unfold unread in Hk; rewrite He in Hk; simpl in Hk; lia |].
  destruct (unread_logical s Hwf He) as (Hd & _ & _ & Hun).
  rewrite Hun in Hk |- *.
  rewrite length_map, zrange_length in Hk.
  unfold zrange. rewrite map_map.
  erewrite nth_indep by (rewrite length_map, length_seq; lia).
  rewrite (map_nth (fun x => (getFirstUnreadPos s + Z.of_nat x)
                             mod bufferSize s) _ 0%nat).
  rewrite seq_nth by lia. f_equal.
Qed.

(** The unread slots of a state that has moved its first unread position
    [k+1] slots forward and kept the rest. *)
Lemma unread_after (s s' : Sensor) (k : nat) :
  wf s ->
  (k < length (unread s))%nat ->
  bufferSize s' = bufferSize s ->
  write_pos s' = write_pos s ->
  getFirstUnreadPos s' =
  (getFirstUnreadPos s + Z.of_nat k + 1) mod bufferSize s ->
  (getFirstUnreadPos s' = write_pos s -> buffer_full s' = false) ->
  unread s' = skipn (S k) (unread s).
Proof.
  intros Hwf Hk Hbs Hwp Hfirst' Hbf.
  destruct (isEmpty s) eqn:He;
    [unfold unread in Hk; rewrite He in Hk; simpl in Hk; lia |].
  destruct (unread_logical s Hwf He) as (Hd & Hlastd & Hw' & Hun).
  destruct Hwf as [Hpos _].
  pose proof (getFirstUnreadPos_range s Hpos) as Hfirst.
  set (size := bufferSize s) in *.
  set (first := getFirstUnreadPos s) in *.
  set (d := (getLastUnreadPos s - first) mod size) in *.
  rewrite Hun in Hk |- *.
  rewrite length_map, zrange_length in Hk.
  rewrite skipn_map, zrange_skipn.
  assert (Hlast' : getLastUnreadPos s' = getLastUnreadPos s).
  { unfold getLastUnreadPos. now rewrite Hwp, Hbs. }
  unfold unread.
  destruct (Z.eq_dec (Z.of_nat k) d) as [Ekd | Ekd].
  - assert (Hfw : getFirstUnreadPos s' = write_pos s)
      by (rewrite Hfirst', Hw', Ekd; reflexivity).
    unfold isEmpty. rewrite Hwp, Hfw, Z.eqb_refl, (Hbf Hfw). simpl.
    now rewrite zrange_nil by lia.
  - assert (Hfw : getFirstUnreadPos s' <> write_pos s).
    { rewrite Hfirst', Hw'. intros E.
      replace (first + Z.of_nat k + 1) with (first + (Z.of_nat k + 1))
        in E by lia.
      replace (first + d + 1) with (first + (d + 1)) in E by lia.
      destruct (Z.eq_dec (d + 1) size) as [Efull | Hnf].
      - rewrite Efull in E.
        replace (first + size) with (first + 0 + 1 * size) in E by lia.
        rewrite Z_mod_plus_full in E.
        apply mod_add_cancel in E; lia.
      - apply mod_add_cancel in E; lia. }
    unfold isEmpty. rewrite Hwp.
    destruct (Z.eqb_spec (getFirstUnreadPos s') (write_pos s));
      [contradiction |]. simpl.
    rewrite Hbs, Hlast', Hfirst'. fold size.
    rewrite <- Hlastd.
    replace (S k) with (k + 1)%nat by lia.
    replace (first + Z.of_nat (k + 1)) with (first + Z.of_nat k + 1) by lia.
    apply ring_logical; lia.
Qed.

Lemma getRaw_state (s : Sensor) (id : Z) :
  sized s ->
  0 <= id < bufferSize s ->
  exists r,
    slotOf s id = Some r /\
    getRaw id s =
    (Ok r, set_index (index s + 1)
             (set_last_sent_pos id (snd (releaseUntil id s)))).
Proof.
  intros [Hlen Hmax] Hid. unfold INT_MAX in Hmax.
  destruct (slotOf_valid s id) as [r Hr]; [lia |].
  exists r. split; [exact Hr |].
  destruct (releaseUntil_effect s id)
    as (Hok & _ & _ & _ & _ & Hbuf & _ & Hidx & _); [lia |].
  destruct (releaseUntil id s) as [u s1] eqn:Hrel. simpl in *. subst u.
  assert (Hslot : slot id s1 = (Ok r, s1)).
  { apply slot_valid. unfold slotOf in *. now rewrite Hbuf. }
  unfold getRaw, bind, modify, ret. rewrite Hrel, Hslot.
  rewrite (sint32_small id) by lia. simpl. now rewrite Hidx.
Qed.

Lemma succ_mod_first (size id : Z) :
  0 <= id < size ->
  (if negb (id =? size - 1) then id + 1 else 0) = (id + 1) mod size.
Proof.
  intros Hid. rewrite succ_mod by lia.
  destruct (Z.eqb_spec id (size - 1)); destruct (Z.eqb_spec (id + 1) size);
    simpl; lia.
Qed.



(** X9.  Consuming the [k]-th unread slot, through [getRaw(id)] as through
    [release(id)], leaves as unread exactly the slots that came after it:
    the slots before it are released with it, none after it is lost, and
    consuming the last unread slot empties the buffer. *)
Theorem consume_kth_unread (s : Sensor) (k : nat) :
  wf s ->
  (k < length (unread s))%nat ->
  let id := nth k (unread s) 0 in
  (exists r, slotOf s id = Some r /\ fst (getRaw id s) = Ok r) /\
  unread (snd (getRaw id s)) = skipn (S k) (unread s) /\
  fst (release id s) = Ok tt /\
  unread (snd (release id s)) = skipn (S k) (unread s) /\
  (S k = length (unread s) ->
   isEmpty (snd (getRaw id s)) = true /\
   isEmpty (snd (release id s)) = true).
Proof.
  intros Hwf Hk id. pose proof Hwf as [Hpos [Hlen Hmax]].
  assert (Hin : In id (unread s)) by (apply nth_In; exact Hk).
  pose proof (unread_In s id Hpos Hin) as Hid.
  assert (Hnext : (id + 1) mod bufferSize s =
                  (getFirstUnreadPos s + Z.of_nat k + 1) mod bufferSize s).
  { unfold id. rewrite (unread_nth s k Hwf Hk).
    now rewrite Zplus_mod_idemp_l. }
  (* getRaw *)
  destruct (getRaw_state s id (conj Hlen Hmax) Hid) as (r & Hr & Hget).
  destruct (releaseUntil_effect s id)
    as (_ & Hrp & Hused & Hbf & Hwp & _ & Hbs & _);
    [unfold INT_MAX in Hmax; lia |].
  simpl in Hrp, Hused, Hbf, Hwp, Hbs.
  set (s1 := snd (releaseUntil id s)) in *.
  set (g := set_index (index s + 1) (set_last_sent_pos id s1)) in *.
  assert (Hg1 : getFirstUnreadPos g = (id + 1) mod bufferSize s).
  { change (getFirstUnreadPos g) with (getFirstUnreadPos s1).
    unfold getFirstUnreadPos. rewrite Hused, Hrp, Hbs. simpl.
    apply succ_mod_first. lia. }
  assert (Hgbf : getFirstUnreadPos g = write_pos s -> buffer_full g = false).
  { change (getFirstUnreadPos g) with (getFirstUnreadPos s1).
    change (buffer_full g) with (buffer_full s1).
    intros E. now rewrite Hbf, E, Z.eqb_refl. }
  assert (Hug : unread g = skipn (S k) (unread s)).
  { apply unread_after; auto. now rewrite Hg1. }
  (* release *)
  destruct (release_fields s id Hmax Hid)
    as (Hrok & Hrp' & Hused' & Hbf' & Hwp' & _ & Hbs').
  simpl in Hrp', Hused', Hbf', Hwp', Hbs'.
  set (s2 := snd (release id s)) in *.
  assert (Hr1 : getFirstUnreadPos s2 = (id + 1) mod bufferSize s).
  { unfold getFirstUnreadPos. now rewrite Hused', Hrp'. }
  assert (Hrbf : getFirstUnreadPos s2 = write_pos s -> buffer_full s2 = false).
  { unfold getFirstUnreadPos. rewrite Hused'. simpl.
    intros E. now rewrite Hbf', E, Z.eqb_refl. }
  assert (Hur : unread s2 = skipn (S k) (unread s)).
  { apply unread_after; auto. now rewrite Hr1. }
  rewrite Hget. simpl. fold g.
  split; [now exists r |]. split; [exact Hug |].
  split; [exact Hrok |]. split; [exact Hur |].
  intros Hlast.
  assert (Hnil : skipn (S k) (unread s) = [])
    by (apply skipn_all2; lia).
  rewrite Hnil in Hug, Hur.
  assert (Hempty : forall u : Sensor, positions_ok u -> unread u = [] ->
                                      isEmpty u = true).
  { intros u Hu Hnone. unfold unread in Hnone.
    destruct (isEmpty u); [reflexivity |].
    destruct (ring_head (bufferSize u) (getFirstUnreadPos u)
                (getLastUnreadPos u)) as [rest Hrest];
      [now apply getFirstUnreadPos_range | now apply getLastUnreadPos_range |].
    rewrite Hrest in Hnone. discriminate. }
  split; apply Hempty; auto; unfold positions_ok.
  - change (write_pos g) with (write_pos s1).
    change (read_pos g) with (read_pos s1).
    change (bufferSize g) with (bufferSize s1).
    rewrite Hwp, Hrp, Hbs. destruct Hpos. lia.
  - rewrite Hwp', Hrp', Hbs'. destruct Hpos.
    pose proof (Z.mod_pos_bound (id + 1) (bufferSize s)). lia.
Qed.

(** ** Taking a slot and giving it back *)

(** X10.  [getRaw(id, raw)] followed by [release()] hands out slot [id] and
    leaves the positions and flags that [release(id)] alone leaves: the slot
    kept by [getRaw] is given back, and only the notification index and
    [last_sent_pos] tell the two apart. *)
Theorem getRaw_then_release_is_release (s : Sensor) (id : Z) :
  sized s ->
  0 <= id < bufferSize s ->
  exists r,
    slotOf s id = Some r /\
    getRaw_then_release id s =
    (Ok r, set_index (index s + 1)
             (set_last_sent_pos id (snd (release id s)))).
Proof.
  intros Hsz Hid. pose proof Hsz as [Hlen Hmax].
  destruct (getRaw_state s id Hsz Hid) as (r & Hr & Hget).
  exists r. split; [exact Hr |].
  destruct (releaseUntil_effect s id)
    as (_ & Hrp & Hused & Hbf & Hwp & Hbuf & Hbs & Hidx & Hnmd);
    [unfold INT_MAX in Hmax; lia |].
  simpl in Hrp, Hused, Hbf, Hwp, Hbuf, Hbs, Hidx, Hnmd.
  set (s1 := snd (releaseUntil id s)) in *.
  set (g := set_index (index s + 1) (set_last_sent_pos id s1)) in *.
  assert (Hfirst : getFirstUnreadPos s1 = (id + 1) mod bufferSize s).
  { unfold getFirstUnreadPos. rewrite Hused, Hrp, Hbs. simpl.
    apply succ_mod_first. lia. }
  assert (Hrel : release (uint32 (read_pos g)) g =
                 (Ok tt,
                  set_read_pos_used false
                    (let u := set_read_pos ((id + 1) mod bufferSize g) g in
                     if write_pos g =? (id + 1) mod bufferSize g
                     then set_buffer_full false u else u))).
  { change (read_pos g) with (read_pos s1). rewrite Hrp.
    rewrite uint32_small by (unfold INT_MAX in Hmax; lia).
    apply release_state;
      change (bufferSize g) with (bufferSize s1); rewrite Hbs; lia. }
  unfold getRaw_then_release, bind, release_current, get, ret.
  rewrite Hget. unfold bind. rewrite Hrel. f_equal.
  rewrite (surjective_pairing (release id s)).
  rewrite (release_state s id Hmax Hid). simpl.
  change (bufferSize g) with (bufferSize s1).
  change (write_pos g) with (write_pos s1).
  rewrite Hbs, Hwp.
  unfold g.
  assert (Hfields :
    write_pos s1 = write_pos s /\ buffer_full s1 =
      (if (id + 1) mod bufferSize s =? write_pos s then false
       else buffer_full s) /\
    data_count s1 = data_count s /\ no_more_data s1 = no_more_data s /\
    timestamps_correction s1 = timestamps_correction s /\
    data_period s1 = data_period s /\ arrival_delay s1 = arrival_delay s /\
    started s1 = started s /\ stopping s1 = stopping s /\
    bufferSize s1 = bufferSize s /\ buffer s1 = buffer s).
  { rewrite <- Hfirst, <- Hbf.
    pose proof (releaseUntil_producer_side s id) as Hps. fold s1 in Hps.
    unfold producer_side in Hps. injection Hps as _ Hdc _ _ _.
    repeat split; auto;
      unfold s1, releaseUntil, bind, get, modify, when, ret; simpl;
      match goal with
      | |- context [if ?a =? ?b then _ else _] => destruct (a =? b)
      end; reflexivity. }
  destruct Hfields as (F1 & F2 & F3 & F4 & F5 & F6 & F7 & F8 & F9 & F10 & F11).
  rewrite (Z.eqb_sym (write_pos s)).
  destruct ((id + 1) mod bufferSize s =? write_pos s) eqn:E;
    unfold set_read_pos_used, set_buffer_full, set_read_pos, set_index,
      set_last_sent_pos; simpl;
    rewrite F1, ?F2, F3, F4, F5, F6, F7, F8, F9, F10, F11; reflexivity.
Qed.

(** ** The slot handed out last *)

Lemma after_last_sent_pos (c : call) (s : Sensor) :
  not_getRaw c ->
  last_sent_pos (after getLastTimestamp c s) = last_sent_pos s.
Proof.
  destruct c as [id | | id | id | id | id | | t1 t2 rel | infos | info];
    simpl; intros Hc; try contradiction.
  - unfold release, bind, get, modify, when, ret.
    destruct (negb (id =? uint32 (bufferSize s - 1))); simpl;
      match goal with
      | |- context [if ?a =? ?b then _ else _] => destruct (a =? b)
      end; reflexivity.
  - unfold release_current, release, bind, get, modify, when, ret.
    destruct (negb (uint32 (read_pos s) =? uint32 (bufferSize s - 1))); simpl;
      match goal with
      | |- context [if ?a =? ?b then _ else _] => destruct (a =? b)
      end; reflexivity.
  - unfold releaseUntil, bind, get, modify, when, ret. simpl.
    match goal with
    | |- context [if ?a =? ?b then _ else _] => destruct (a =? b)
    end; reflexivity.
  - unfold observeRaw. now destruct (slot_same_state s id) as [x ->].
  - unfold getRawTimestamp.
    now destruct (slotStamp_same_state s id) as [x ->].
  - unfold getLastProcessedRaw, bind, get.
    now destruct (slot_same_state s (last_sent_pos s)) as [x ->].
  - destruct (getRaws_writes s t1 t2 rel)
      as (x & s' & -> & [-> | (_ & i1 & ->)]); reflexivity.
  - now destruct (getUnreadRawInfos_same_state s infos) as [x ->].
  - now destruct (getNextRawInfo_same_state s info) as [x ->].
Qed.

Lemma after_all_keeps (cs : list call) :
  Forall not_getRaw cs ->
  forall s,
    last_sent_pos (after_all getLastTimestamp cs s) = last_sent_pos s /\
    buffer (after_all getLastTimestamp cs s) = buffer s.
Proof.
  unfold after_all.
  induction 1 as [| c cs Hc _ IH]; intros s; simpl; [now split |].
  destruct (IH (after getLastTimestamp c s)) as [-> ->].
  split; [now apply after_last_sent_pos |].
  pose proof (consumer_keeps_producer_side_aux c s) as Hps.
  unfold producer_side in Hps. now injection Hps.
Qed.

(** X11.  After [getRaw(id, raw)], [getLastProcessedRaw] returns the reading
    that [getRaw] handed out, without changing the state, and goes on doing
    so across any calls of the consumer other than [getRaw]: releases, range
    queries and peeks do not move it. *)
Theorem getLastProcessedRaw_after_getRaw
    (s : Sensor) (id : Z) (cs : list call) :
  sized s ->
  0 <= id < bufferSize s ->
  Forall not_getRaw cs ->
  let s' := after_all getLastTimestamp cs (snd (getRaw id s)) in
  exists r,
    fst (getRaw id s) = Ok r /\
    getLastProcessedRaw s' = (Ok r, s').
Proof.
  intros Hsz Hid Hcs s'.
  destruct (getRaw_state s id Hsz Hid) as (r & Hr & Hget).
  exists r. rewrite Hget. split; [reflexivity |].
  destruct (after_all_keeps cs Hcs (snd (getRaw id s))) as [Hlast Hbuf].
  fold s' in Hlast, Hbuf. rewrite Hget in Hlast, Hbuf. simpl in Hlast, Hbuf.
  pose proof (releaseUntil_producer_side s id) as Hps.
  unfold producer_side in Hps. injection Hps as _ _ Hbuf1 _ _.
  rewrite Hbuf1 in Hbuf.
  unfold getLastProcessedRaw, bind, get. rewrite Hlast.
  apply slot_valid. unfold slotOf in *. now rewrite Hbuf.
Qed.

(** ** The producer side *)

Lemma list_set_nth_error (l : list T) (n m : nat) (r : T) :
  (n < length l)%nat ->
  nth_error (list_set l n r) m =
  if Nat.eqb m n then Some r else nth_error l m.
Proof.
  revert n m. induction l as [| x l IH]; intros n m Hn; [simpl in Hn; lia |].
  destruct n as [| n]; destruct m as [| m]; simpl; auto.
  apply IH. simpl in Hn. lia.
Qed.

Lemma push_state (s : Sensor) (r : T) :
  sized s ->
  0 <= write_pos s < bufferSize s ->
  isFull s = false ->
  push r s =
  incWritePos (set_buffer (list_set (buffer s) (Z.to_nat (write_pos s)) r) s).
Proof.
  intros [Hlen _] Hw Hf.
  destruct (push_cases s r) as [[e He] | (_ & _ & Hp)]; [| exact Hp].
  exfalso. revert He.
  unfold push, getWritePos, bind, get, ret. rewrite Hf.
  destruct (setSlot_cases s (write_pos s) r) as [Hs | [_ Hs]]; rewrite Hs.
  - revert Hs. unfold setSlot, bind, get, modify, throw.
    destruct (slotOf_valid s (write_pos s)) as [x ->]; [lia |]. discriminate.
  - destruct (incWritePos_effect
                (set_buffer (list_set (buffer s) (Z.to_nat (write_pos s)) r) s))
      as (Hok & _).
    destruct (incWritePos _) as [u s']. simpl in Hok. subst u. discriminate.
Qed.

(** X12.  A push into a well-formed buffer that is not full succeeds and
    stores the reading in the slot at the old [write_pos], which is then
    the slot [getLastUnreadPos()] names: peeking there returns the reading
    pushed.  No other slot changes, [read_pos] stays, and [data_count] grows
    by one. *)
Theorem push_then_peek (s : Sensor) (r : T) :
  wf s ->
  isFull s = false ->
  exists s',
    push r s = (Ok tt, s') /\
    getLastUnreadPos s' = write_pos s /\
    observeRaw (getLastUnreadPos s') s' = (Ok r, s') /\
    (forall i, i <> write_pos s -> slotOf s' i = slotOf s i) /\
    read_pos s' = read_pos s /\
    data_count s' = data_count s + 1 /\
    wf s'.
Proof.
  intros [[Hw Hr] Hsz] Hf. pose proof Hsz as [Hlen Hmax].
  rewrite (push_state s r Hsz Hw Hf).
  set (u := set_buffer (list_set (buffer s) (Z.to_nat (write_pos s)) r) s).
  destruct (incWritePos_effect u)
    as (Hok & Hw' & _ & Hdc & Hr' & _ & Hbuf & Hbs).
  destruct (incWritePos u) as [x s'] eqn:Hinc. simpl in *. subst x.
  exists s'. split; [reflexivity |].
  assert (Hlast : getLastUnreadPos s' = write_pos s).
  { unfold getLastUnreadPos. rewrite Hw', Hbs.
    destruct (Z.leb_spec (bufferSize s) (write_pos s + 1));
      match goal with
      | |- context [if ?a =? ?b then _ else _] => destruct (Z.eqb_spec a b)
      end; lia. }
  assert (Hslots : forall i, slotOf s' i =
                     if i =? write_pos s then Some r else slotOf s i).
  { intros i. unfold slotOf. rewrite Hbuf.
    destruct (Z.ltb_spec i 0) as [Hneg | Hnn].
    - destruct (Z.eqb_spec i (write_pos s)); [lia | reflexivity].
    - rewrite list_set_nth_error by lia.
      destruct (Z.eqb_spec i (write_pos s)) as [-> | Hne].
      + now rewrite Nat.eqb_refl.
      + destruct (Nat.eqb_spec (Z.to_nat i) (Z.to_nat (write_pos s)));
          [lia | reflexivity]. }
  split; [exact Hlast |]. split.
  - rewrite Hlast. apply slot_valid. now rewrite Hslots, Z.eqb_refl.
  - split.
    + intros i Hi. rewrite Hslots.
      destruct (Z.eqb_spec i (write_pos s)); [contradiction | reflexivity].
    + repeat split; auto; try lia;
        rewrite ?Hw', ?Hr', ?Hbs, ?Hbuf, ?list_set_length; try lia;
        destruct (Z.leb_spec (bufferSize s) (write_pos s + 1)); lia.
Qed.

Lemma pushAll_room (size : Z) (rs : list T) :
  0 < size ->
  forall k s,
    pushed size k s ->
    Z.of_nat (k + length rs) <= size ->
    exists s',
      pushAll rs s = (Ok tt, s') /\
      pushed size (k + length rs) s' /\
      firstn (k + length rs) (buffer s') = firstn k (buffer s) ++ rs.
Proof.
  intros Hsize. induction rs as [| r rs IH]; intros k s Hk Hroom.
  - exists s. simpl. rewrite Nat.add_0_r, app_nil_r.
    split; [reflexivity |]. split; [exact Hk | reflexivity].
  - simpl in Hroom.
    destruct Hk as (Hbs & Hsz & Hrp & Hused & Hle & Hwp & Hbf).
    destruct (Z.eqb_spec (Z.of_nat k) size) as [E | E]; [lia |].
    assert (Hnf : isFull s = false)
      by (unfold isFull; rewrite Hbf; apply andb_false_r).
    assert (Hw : 0 <= write_pos s < bufferSize s) by lia.
    pose proof Hsz as [Hlen Hmax].
    set (u := set_buffer (list_set (buffer s) (Z.to_nat (write_pos s)) r) s).
    destruct (incWritePos_effect u)
      as (Hok & Hw' & Hbf' & _ & Hr' & Hused' & Hbuf & Hbs').
    assert (Hpush : push r s = incWritePos u) by now apply push_state.
    destruct (incWritePos u) as [x s1] eqn:Hinc. simpl in *. subst x.
    destruct (IH (S k) s1) as (s' & Hrun & Hpushed & Hfirst).
    { unfold pushed, sized. rewrite Hbs', Hbuf, list_set_length, Hr', Hused'.
      repeat split; auto; try lia.
      - rewrite Hw', Hwp, Hbs.
        destruct (Z.leb_spec size (Z.of_nat k + 1));
          destruct (Z.eqb_spec (Z.of_nat (S k)) size); lia.
      - rewrite Hbf', Hw', Hwp, Hbs, Hrp, Hbf.
        destruct (Z.leb_spec size (Z.of_nat k + 1));
          destruct (Z.eqb_spec (Z.of_nat (S k)) size); try lia;
          match goal with
          | |- context [if ?a =? ?b then _ else _] => destruct (Z.eqb_spec a b)
          end; try lia; reflexivity. }
    { lia. }
    exists s'. unfold bind. rewrite Hpush.
    replace (k + S (length rs))%nat with (S k + length rs)%nat by lia.
    split; [exact Hrun |]. split; [exact Hpushed |].
    rewrite Hfirst, Hbuf, Hwp, Nat2Z.id.
    assert (Hkl : (k < length (buffer s))%nat) by lia.
    clear - Hkl. revert k Hkl.
    generalize (buffer s) as l.
    induction l as [| x l IHl]; intros k Hkl; [simpl in Hkl; lia |].
    destruct k as [| k]; [reflexivity |].
    simpl. simpl in Hkl. f_equal. apply IHl. lia.
Qed.

Lemma pushAll_app (l1 l2 : list T) (s : Sensor) :
  pushAll (l1 ++ l2) s = (pushAll l1 ;;; pushAll l2) s.
Proof.
  revert s. induction l1 as [| r l1 IH]; intros s; simpl.
  - reflexivity.
  - unfold bind in *.
    destruct (push r s) as [[[] | e] s1]; [| reflexivity].
    apply IH.
Qed.

(** X13.  The constructed buffer takes exactly [bufferSize] readings: up to
    [bufferSize] pushes in a row all succeed and leave the readings in the
    slots 0, 1, ... in the order pushed, the buffer being full exactly when
    [bufferSize] readings were pushed; with more readings the push after the
    [bufferSize]-th raises the generic error. *)
Theorem capacity
    (size last_sent : Z) (period delay : Q) (rs : list T) :
  0 < size <= INT_MAX ->
  let s0 := init size last_sent period delay in
  (Z.of_nat (length rs) <= size ->
   exists s',
     pushAll rs s0 = (Ok tt, s') /\
     firstn (length rs) (buffer s') = rs /\
     isFull s' = (Z.of_nat (length rs) =? size) /\
     isEmpty s' = (Z.of_nat (length rs) =? 0)) /\
  (size < Z.of_nat (length rs) ->
   fst (pushAll rs s0) = Err GENERIC_ERROR).
Proof.
  intros Hsize s0.
  assert (H0 : pushed size 0 s0).
  { unfold pushed, sized, s0, init, INT_MAX in *. simpl.
    rewrite repeat_length, uint32_small, sint32_small by lia.
    change (Z.of_nat 0) with 0.
    destruct (Z.eqb_spec 0 size); [lia |]. repeat split; auto; lia. }
  split.
  - intros Hlen.
    destruct (pushAll_room size rs ltac:(lia) 0%nat s0 H0) as
      (s' & Hrun & Hpushed & Hfirst); [simpl; lia |].
    simpl in Hfirst, Hpushed.
    destruct Hpushed as (Hbs & Hsz & Hrp & Hused & Hle & Hwp & Hbf).
    exists s'. split; [exact Hrun |]. split; [exact Hfirst |].
    unfold isFull, isEmpty, getFirstUnreadPos.
    rewrite Hused, Hrp, Hwp, Hbf. simpl.
    destruct (Z.eqb_spec (Z.of_nat (length rs)) size);
      destruct (Z.eqb_spec (Z.of_nat (length rs)) 0); simpl; try lia;
      rewrite ?Z.eqb_refl; try reflexivity;
      destruct (Z.eqb_spec 0 (Z.of_nat (length rs))); try lia; reflexivity.
  - intros Hmore.
    rewrite <- (firstn_skipn (Z.to_nat size) rs), pushAll_app.
    destruct (pushAll_room size (firstn (Z.to_nat size) rs) ltac:(lia)
                0%nat s0 H0) as (s' & Hrun & Hpushed & _).
    { simpl. rewrite length_firstn. lia. }
    unfold bind. rewrite Hrun.
    simpl in Hpushed. rewrite length_firstn in Hpushed.
    replace (Init.Nat.min (Z.to_nat size) (length rs)) with (Z.to_nat size)
      in Hpushed by lia.
    destruct Hpushed as (Hbs & Hsz & Hrp & Hused & Hle & Hwp & Hbf).
    destruct (skipn (Z.to_nat size) rs) as [| r rest] eqn:Hskip.
    { apply (f_equal (@length T)) in Hskip. rewrite length_skipn in Hskip.
      simpl in Hskip. lia. }
    simpl. unfold bind, push, getWritePos, bind, get, throw, isFull.
    rewrite Hbf, Hrp, Hwp. rewrite Z2Nat.id by lia.
    now rewrite !Z.eqb_refl.
Qed.

(** ** Slots kept from the producer *)

(** A push leaves alone the slot that the consumer keeps. *)
Lemma push_held (s : Sensor) (id : Z) (r x : T) :
  wf s ->
  held id s ->
  slotOf s id = Some r ->
  let s' := snd (push x s) in
  wf s' /\ held id s' /\ slotOf s' id = Some r.
Proof.
  intros Hwf [Hrp Hfull] Hslot. pose proof Hwf as [[Hw Hr] [Hlen Hmax]].
  destruct (push_cases s x) as [[e He] | (Hnf & _ & Hp)].
  - rewrite He. simpl. now repeat split.
  - assert (Hne : write_pos s <> id).
    { intros E. unfold isFull in Hnf.
      rewrite (Hfull E), Hrp, E, Z.eqb_refl in Hnf. discriminate. }
    rewrite Hp.
    set (u := set_buffer (list_set (buffer s) (Z.to_nat (write_pos s)) x) s).
    destruct (incWritePos_effect u)
      as (_ & Hw' & Hbf' & _ & Hr' & _ & Hbuf & Hbs).
    cbv zeta in *. simpl in Hw', Hbf', Hr', Hbuf, Hbs.
    set (s' := snd (incWritePos u)) in *.
    assert (Hwrange : 0 <= write_pos s' < bufferSize s)
      by (rewrite Hw'; destruct (Z.leb_spec (bufferSize s) (write_pos s + 1));
          lia).
    split; [| split].
    + unfold wf, positions_ok, sized.
      rewrite Hr', Hbs, Hbuf, list_set_length. repeat split; lia.
    + split; [now rewrite Hr' |].
      intros E. rewrite Hbf', E, Hrp, Z.eqb_refl. reflexivity.
    + unfold slotOf in *. rewrite Hbuf.
      destruct (Z.ltb_spec id 0) as [Hneg | Hnn]; [discriminate |].
      rewrite list_set_nth_error by lia.
      destruct (Nat.eqb_spec (Z.to_nat id) (Z.to_nat (write_pos s)));
        [lia | exact Hslot].
Qed.

Lemma pushAll_held (id : Z) (r : T) (rs : list T) :
  forall s,
    wf s ->
    held id s ->
    slotOf s id = Some r ->
    held id (snd (pushAll rs s)) /\ slotOf (snd (pushAll rs s)) id = Some r.
Proof.
  induction rs as [| x rs IH]; intros s Hwf Hheld Hslot; [now split |].
  destruct (push_held s id r x Hwf Hheld Hslot) as (Hwf' & Hheld' & Hslot').
  simpl. unfold bind.
  destruct (push x s) as [[[] | e] s1]; simpl in *.
  - now apply IH.
  - now split.
Qed.

(** C4, as the code has it.  For a valid slot index, [getRaw(id, out)] hands
    out slot [id], releases the slots before [id] and keeps [id] itself:
    [read_pos] becomes [id] and is marked in use, and [buffer_full] is
    cleared only when the slot after [id] is [write_pos].  The notification
    index grows by one.  In a buffer of at least two slots, unless [id] is
    the producer's next slot in a buffer that is not full, slot [id] is then
    kept from the producer: when [id] is its next slot [getWritePos] raises,
    and no sequence of pushes changes slot [id]. *)
Theorem getRaw_keeps_id (s : Sensor) (id : Z) :
  sized s ->
  0 <= id < bufferSize s ->
  exists r,
    slotOf s id = Some r /\
    fst (getRaw id s) = Ok r /\
    let s' := snd (getRaw id s) in
    read_pos s' = id /\
    read_pos_used s' = true /\
    index s' = index s + 1 /\
    last_sent_pos s' = id /\
    write_pos s' = write_pos s /\
    buffer s' = buffer s /\
    buffer_full s' = (if getFirstUnreadPos s' =? write_pos s then false
                      else buffer_full s) /\
    (2 <= bufferSize s ->
     0 <= write_pos s < bufferSize s ->
     write_pos s <> id \/ buffer_full s = true ->
     (write_pos s = id ->
      isFull s' = true /\ fst (getWritePos s') = Err GENERIC_ERROR) /\
     forall rs,
       slotOf (snd (pushAll rs s')) id = Some r /\
       read_pos (snd (pushAll rs s')) = id).
Proof.
  intros [Hlen Hmax] Hid. unfold INT_MAX in Hmax.
  destruct (slotOf_valid s id) as [r Hr]; [lia |].
  exists r. split; [exact Hr |].
  destruct (releaseUntil_effect s id)
    as (Hok & Hrp & Hused & Hfull & Hwp & Hbuf & Hbs & Hidx & _); [lia |].
  destruct (releaseUntil id s) as [u s1] eqn:Hrel. simpl in *. subst u.
  assert (Hslot : slot id s1 = (Ok r, s1)).
  { apply slot_valid. unfold slotOf in *. now rewrite Hbuf. }
  assert (Hget : getRaw id s =
                 (Ok r, set_index (index s1 + 1) (set_last_sent_pos id s1))).
  { unfold getRaw, bind, modify, ret. rewrite Hrel, Hslot.
    now rewrite (sint32_small id) by lia. }
  rewrite Hget. simpl.
  set (s' := set_index (index s1 + 1) (set_last_sent_pos id s1)).
  change (getFirstUnreadPos s') with (getFirstUnreadPos s1).
  repeat (split; [auto; lia |]).
  intros Hbig Hw Hkept.
  assert (Hfirst : getFirstUnreadPos s1 = (id + 1) mod bufferSize s).
  { unfold getFirstUnreadPos. rewrite Hused, Hrp, Hbs. simpl.
    now apply succ_mod_first. }
  assert (Hheld : held id s').
  { split; [exact Hrp |]. simpl. rewrite Hwp. intros E.
    destruct Hkept as [Hne | Hbf]; [contradiction |].
    rewrite Hfull, Hfirst, Hbf, E, succ_mod by lia.
    destruct (Z.eqb_spec (id + 1) (bufferSize s));
      match goal with
      | |- context [if ?a =? ?b then _ else _] => destruct (Z.eqb_spec a b)
      end; try lia; reflexivity. }
  assert (Hwf' : wf s').
  { unfold wf, positions_ok, sized, INT_MAX. simpl.
    rewrite Hrp, Hwp, Hbs, Hbuf. repeat split; lia. }
  assert (Hslot' : slotOf s' id = Some r).
  { unfold slotOf in *. simpl. now rewrite Hbuf. }
  split.
  - intros E. destruct Hheld as [_ Hbf]. simpl in Hbf.
    assert (Hisfull : isFull s' = true).
    { unfold isFull. simpl. rewrite Hrp, Hwp, E, Z.eqb_refl. simpl.
      apply Hbf. now rewrite Hwp. }
    split; [exact Hisfull |].
    unfold getWritePos, bind, get, throw. now rewrite Hisfull.
  - intros rs.
    destruct (pushAll_held id r rs s' Hwf' Hheld Hslot') as [[Hrp' _] Hs'].
    split; [exact Hs' | exact Hrp'].
Qed.

(** X14.  [release()] without argument does not look whether there is a
    reading to release.  On an empty buffer of two slots or more it leaves
    the buffer empty exactly when a reading was in use ([read_pos_used]);
    when none was, it moves [read_pos] past [write_pos], and from then on all
    the slots but one count as unread. *)
Theorem release_current_on_empty (s : Sensor) :
  wf s ->
  2 <= bufferSize s ->
  isEmpty s = true ->
  exists s',
    release_current s = (Ok tt, s') /\
    isEmpty s' = read_pos_used s /\
    (read_pos_used s = false ->
     Z.of_nat (length (unread s')) = bufferSize s - 1).
Proof.
  intros [[Hw Hr] [Hlen Hmax]] Hsize He. unfold INT_MAX in Hmax.
  unfold release_current, bind, get.
  rewrite (uint32_small (read_pos s)) by lia.
  rewrite release_state by (unfold INT_MAX; lia).
  eexists. split; [reflexivity |].
  unfold isEmpty in He. apply andb_true_iff in He. destruct He as [Hfirst Hbf].
  apply Z.eqb_eq in Hfirst. apply negb_true_iff in Hbf.
  unfold getFirstUnreadPos in Hfirst.
  destruct (read_pos_used s) eqn:Hused; simpl in Hfirst.
  - rewrite succ_mod_first in Hfirst by lia.
    rewrite Hfirst, Z.eqb_refl. split; [| discriminate].
    unfold isEmpty, getFirstUnreadPos. simpl. now rewrite Z.eqb_refl.
  - rewrite Hfirst, succ_mod by lia.
    assert (Hne : (write_pos s =?
                   (if write_pos s + 1 =? bufferSize s then 0
                    else write_pos s + 1)) = false).
    { destruct (Z.eqb_spec (write_pos s + 1) (bufferSize s));
        apply Z.eqb_neq; lia. }
    rewrite Hne.
    assert (Hne' : ((if write_pos s + 1 =? bufferSize s then 0
                     else write_pos s + 1) =? write_pos s) = false)
      by (rewrite Z.eqb_sym; exact Hne).
    split.
    + unfold isEmpty, getFirstUnreadPos. simpl. now rewrite Hne'.
    + intros _. unfold unread, isEmpty, getFirstUnreadPos, getLastUnreadPos.
      simpl. rewrite Hne'. simpl.
      rewrite ring_length;
        [| destruct (Z.eqb_spec (write_pos s + 1) (bufferSize s)); lia
         | destruct (Z.eqb_spec (write_pos s) 0); lia].
      rewrite mod_distance;
        [| destruct (Z.eqb_spec (write_pos s) 0); lia
         | destruct (Z.eqb_spec (write_pos s + 1) (bufferSize s)); lia].
      destruct (Z.eqb_spec (write_pos s + 1) (bufferSize s));
        destruct (Z.eqb_spec (write_pos s) 0);
        match goal with
        | |- context [if ?a <? ?b then _ else _] => destruct (Z.ltb_spec a b)
        end; lia.
Qed.

End RingBufferFacts.

(** * Properties of the quantity registry *)

Import Proprio.

Section RegistryFacts.

Variable QuantityDataSizes : Quantity -> Z.
Variable QuantityObsSizes : Quantity -> Z.

Local Abbreviation addQuantity :=
  (addQuantity QuantityDataSizes QuantityObsSizes).
Local Abbreviation register := (register QuantityDataSizes QuantityObsSizes).
Local Abbreviation widths := (widths QuantityDataSizes).

Lemma register_cov_type (qs : list Quantity) :
  forall r, cov_type (register qs r) = cov_type r.
Proof.
  induction qs as [| q qs IH]; intros r; [reflexivity |].
  simpl. now rewrite IH.
Qed.

Lemma register_data_size (qs : list Quantity) :
  forall r, data_size (register qs r) = size_t (data_size r + widths qs)
            \/ (qs = [] /\ data_size (register qs r) = data_size r).
Proof.
  induction qs as [| q qs IH]; intros r; [right; now split |].
  left. simpl. destruct (IH (addQuantity q r)) as [E | [-> E]].
  - rewrite E. simpl. unfold size_t.
    rewrite Zplus_mod_idemp_l. f_equal. lia.
  - simpl in *. f_equal. lia.
Qed.

Lemma widths_nonneg (qs : list Quantity) :
  (forall q, 0 <= QuantityDataSizes q) -> 0 <= widths qs.
Proof.
  intros Hq. induction qs as [| q qs IH]; simpl; [lia |].
  specialize (Hq q). lia.
Qed.

Lemma dataSize_register (qs : list Quantity) (c : CovType) :
  (forall q, 0 <= QuantityDataSizes q) ->
  widths qs < 2 ^ 64 ->
  dataSize (register qs (construct c)) = widths qs.
Proof.
  intros Hq Hb. pose proof (widths_nonneg qs Hq) as H0.
  unfold dataSize.
  destruct (register_data_size qs (construct c)) as [E | [-> E]].
  - rewrite E. simpl. unfold size_t. apply Z.mod_small. lia.
  - rewrite E. reflexivity.
Qed.

(** C9.  With widths that are not negative and a packed covariance size that
    fits [size_t], [dataSize()] is the sum of the widths registered and
    [readingSize()] is [1 + dataSize()] under [ctNone], [1 + 2*dataSize()]
    under [ctVar] and [1 + dataSize()*(dataSize()+3)/2] under [ctFull];
    position (3 values) and quaternion (4 values) under [ctFull] give
    [dataSize() = 7] and [readingSize() = 36]. *)
Theorem readingSize_formula (qs : list Quantity) (c : CovType) :
  (forall q, 0 <= QuantityDataSizes q) ->
  widths qs * (widths qs + 3) < 2 ^ 64 ->
  let r := register qs (construct c) in
  dataSize r = widths qs /\
  readingSize r =
  match c with
  | ctNone => 1 + dataSize r
  | ctVar => 1 + 2 * dataSize r
  | ctFull => 1 + dataSize r * (dataSize r + 3) / 2
  end /\
  (QuantityDataSizes qPos = 3 -> QuantityDataSizes qOriQuat = 4 ->
   let r7 := register [qPos; qOriQuat] (construct ctFull) in
   dataSize r7 = 7 /\ readingSize r7 = 1 + 7 * (7 + 3) / 2 /\
   readingSize r7 = 36).
Proof.
  intros Hq Hb r.
  pose proof (widths_nonneg qs Hq) as H0.
  assert (HD : dataSize r = widths qs).
  { apply dataSize_register; [exact Hq | nia]. }
  split; [exact HD |]. split.
  - unfold readingSize. unfold r at 1. rewrite register_cov_type. simpl.
    unfold dataSize in HD. rewrite HD. unfold dataSize. rewrite HD.
    set (D := widths qs) in *.
    assert (Hhalf : 0 <= D * (D + 3) / 2 <= D * (D + 3)).
    { split; [apply Z.div_pos; nia |].
      apply Z.div_le_upper_bound; nia. }
    assert (Hhalf' : D * (D + 3) / 2 < D * (D + 3) \/ D = 0).
    { destruct (Z.eq_dec D 0) as [E | E]; [now right | left].
      apply Z.div_lt_upper_bound; nia. }
    destruct c; unfold size_t.
    + apply Z.mod_small. nia.
    + rewrite (Z.mod_small (D * 2)) by nia.
      rewrite Z.mod_small by nia. lia.
    + rewrite (Z.mod_small (D + 3)) by nia.
      rewrite (Z.mod_small (D * (D + 3))) by nia.
      apply Z.mod_small. destruct Hhalf' as [Hlt | ->]; [lia |].
      simpl. split; [lia | reflexivity].
  - intros Hpos Hquat r7.
    assert (H7 : dataSize r7 = 7).
    { unfold r7. rewrite dataSize_register; simpl; rewrite ?Hpos, ?Hquat;
        [reflexivity | exact Hq | reflexivity]. }
    assert (H36 : readingSize r7 = 36).
    { assert (Hc : cov_type r7 = ctFull)
        by (unfold r7; now rewrite register_cov_type).
      unfold readingSize. rewrite Hc.
      unfold dataSize in H7. rewrite H7. reflexivity. }
    split; [exact H7 |]. split; [| exact H36].
    rewrite H36. reflexivity.
Qed.

(** ** The layout of a reading *)

Local Abbreviation obs_widths := (obs_widths QuantityObsSizes).

Lemma Quantity_eqb_eq (a b : Quantity) : Quantity_eqb a b = true <-> a = b.
Proof. destruct a, b; simpl; split; congruence. Qed.

Lemma register_app (l1 l2 : list Quantity) (r : Registry) :
  register (l1 ++ l2) r = register l2 (register l1 r).
Proof. apply fold_left_app. Qed.

Lemma register_absent (q : Quantity) (qs : list Quantity) :
  ~ In q qs -> forall r, quantities (register qs r) q = quantities r q.
Proof.
  induction qs as [| q' qs IH]; intros Hq r; [reflexivity |].
  simpl. rewrite IH by (intros Hin; apply Hq; now right).
  simpl. destruct (Quantity_eqb q q') eqn:E; [| reflexivity].
  apply Quantity_eqb_eq in E. exfalso. apply Hq. now left.
Qed.

Lemma widths_app (l1 l2 : list Quantity) :
  widths (l1 ++ l2) = widths l1 + widths l2.
Proof. induction l1 as [| q l1 IH]; simpl; [reflexivity | rewrite IH; lia]. Qed.

Lemma register_obs_size (qs : list Quantity) :
  forall r, obs_size (register qs r) = size_t (obs_size r + obs_widths qs)
            \/ (qs = [] /\ obs_size (register qs r) = obs_size r).
Proof.
  induction qs as [| q qs IH]; intros r; [right; now split |].
  left. simpl. destruct (IH (addQuantity q r)) as [E | [-> E]].
  - rewrite E. simpl. unfold size_t.
    rewrite Zplus_mod_idemp_l. f_equal. lia.
  - simpl in *. f_equal. lia.
Qed.

(** X15.  The index that [getQuantity] gives for a registered quantity is
    one more than the sum of the widths of the quantities registered before
    its last registration, so that its columns follow those of the ones
    before it, after the timestamp in column 0, and end within the
    [1 + dataSize()] first columns of a reading. *)
Theorem getQuantity_layout
    (l1 l2 : list Quantity) (q : Quantity) (c : CovType) :
  (forall q, 0 <= QuantityDataSizes q) ->
  ~ In q l2 ->
  widths (l1 ++ q :: l2) < INT_MAX ->
  let r := register (l1 ++ q :: l2) (construct c) in
  getQuantity q r = 1 + widths l1 /\
  getQuantity q r + QuantityDataSizes q <= 1 + dataSize r.
Proof.
  intros Hq Hl2 Hb r. unfold INT_MAX in Hb.
  pose proof (widths_nonneg l1 Hq) as H1.
  pose proof (widths_nonneg l2 Hq) as H2.
  pose proof (Hq q) as H3.
  assert (Hsum : widths (l1 ++ q :: l2) =
                 widths l1 + (QuantityDataSizes q + widths l2))
    by (rewrite widths_app; reflexivity).
  assert (HD : dataSize r = widths (l1 ++ q :: l2))
    by (apply dataSize_register; [exact Hq | lia]).
  assert (HD1 : data_size (register l1 (construct c)) = widths l1)
    by (apply dataSize_register; [exact Hq | lia]).
  assert (HG : getQuantity q r = 1 + widths l1).
  { unfold getQuantity, r. rewrite register_app. simpl.
    rewrite register_absent by exact Hl2. simpl.
    assert (E : Quantity_eqb q q = true) by now apply Quantity_eqb_eq.
    rewrite E, HD1. unfold size_t.
    rewrite (Z.mod_small (widths l1 + 1)) by lia.
    rewrite sint32_small by lia. rewrite Z.mod_small; lia. }
  split; [exact HG |]. rewrite HG, HD, Hsum. lia.
Qed.

(** X16.  For a quantity that was not registered since the registry was last
    cleared, [getQuantity] returns the entry [-1] as a [size_t]: the largest
    value of the type. *)
Theorem getQuantity_absent
    (q : Quantity) (qs : list Quantity) (r0 : Registry) :
  ~ In q qs ->
  getQuantity q (register qs (clearQuantities r0)) = 2 ^ 64 - 1.
Proof.
  intros Hq. unfold getQuantity. rewrite register_absent by exact Hq.
  reflexivity.
Qed.

(** X17.  [obsSize()] is the sum of the observation widths registered, and
    when no quantity has more observation variables than measure variables,
    [obsSize()] is at most [dataSize()]. *)
Theorem obsSize_le_dataSize (qs : list Quantity) (c : CovType) :
  (forall q, 0 <= QuantityObsSizes q <= QuantityDataSizes q) ->
  widths qs < 2 ^ 64 ->
  let r := register qs (construct c) in
  obsSize r = obs_widths qs /\ obsSize r <= dataSize r.
Proof.
  intros Hq Hb r.
  assert (Hle : 0 <= obs_widths qs <= widths qs).
  { clear Hb r. induction qs as [| q qs IH]; simpl; [lia |].
    specialize (Hq q). lia. }
  assert (HD : dataSize r = widths qs).
  { apply dataSize_register; [| exact Hb]. intros q. specialize (Hq q). lia. }
  assert (HO : obsSize r = obs_widths qs).
  { unfold obsSize, r.
    destruct (register_obs_size qs (construct c)) as [E | [-> E]].
    - rewrite E. simpl. unfold size_t. apply Z.mod_small. lia.
    - rewrite E. reflexivity. }
  split; [exact HO |]. rewrite HO, HD. lia.
Qed.

End RegistryFacts.


(** * Properties of [initData] *)

Lemma resize_length (n : nat) (l : list Q) : length (resize n l) = n.
Proof.
  unfold resize. rewrite length_firstn, length_app, repeat_length. lia.
Qed.

(** X18.  [initData], for a reading size that is an [int] and at least 1,
    leaves every slot with [readingSize()] values, the first of which, the
    timestamp, is the mark [-99.]; so a buffer that was just initialised
    answers every [getRaws] whose [t1] is above the mark with the empty view,
    whatever [write_pos] and [read_pos] are. *)
Theorem initData_marks
    (r : Registry) (s : @Sensor RawVec) (t1 t2 : Q) (rel : bool) :
  wf s ->
  1 <= readingSize r <= INT_MAX ->
  let s' := initData r s in
  (forall i, 0 <= i < bufferSize s ->
     exists x, slotOf s' i = Some x /\
               Z.of_nat (length (data x)) = readingSize r /\
               extractRawTimestamp x = Some no_data_mark) /\
  stamped s' /\
  ((no_data_mark < t1)%Q -> (t1 <= t2)%Q ->
   getRaws t1 t2 rel s' = (Ok [], s')).
Proof.
  intros [Hpos [Hlen Hmax]] Hsize s'.
  assert (Hslots : forall i, 0 <= i < bufferSize s ->
     exists x, slotOf s' i = Some x /\
               Z.of_nat (length (data x)) = readingSize r /\
               extractRawTimestamp x = Some no_data_mark).
  { intros i Hi. unfold s', initData, slotOf. simpl.
    destruct (Z.ltb_spec i 0) as [Hneg | _]; [lia |].
    rewrite nth_error_map.
    destruct (nth_error (buffer s) (Z.to_nat i)) as [old |] eqn:E;
      [| apply nth_error_None in E; lia].
    simpl. eexists. split; [reflexivity |]. simpl.
    unfold INT_MAX in Hsize. rewrite sint32_small by lia.
    pose proof (resize_length (Z.to_nat (readingSize r)) (data old)) as HL.
    destruct (resize (Z.to_nat (readingSize r)) (data old)) as [| t rest];
      simpl in *; [lia |]. split; [lia | reflexivity]. }
  assert (Hmarks : forall i, 0 <= i < bufferSize s' ->
                             stampOf s' i = Some no_data_mark).
  { intros i Hi. destruct (Hslots i Hi) as (x & Hx & _ & Hmark).
    now rewrite (stampOf_slot s' i x Hx). }
  split; [exact Hslots |]. split.
  - intros i Hi. rewrite (Hmarks i Hi). discriminate.
  - intros Ht1 Ht. apply getRaws_empty_view.
    + split; [exact Hpos |]. split; [| exact Hmax].
      unfold s', initData. simpl. now rewrite length_map.
    + exact Ht.
    + intros i Hi. rewrite (stampAt_stampOf s' i _ (Hmarks i Hi)).
      split; [exact Ht1 | reflexivity].
Qed.


(** * Properties of the state exporter *)

Section ExporterFacts.

Import Exporter.

Variable socket : Type.
Variable sqrt : Q -> Q.

Local Abbreviation Pass := (@Pass socket).

Lemma kept_cons (write_ok : nat -> bool) (n : nat) (x : socket)
    (l : list socket) :
  kept write_ok n (x :: l) =
  if write_ok n then x :: kept write_ok (S n) l else kept write_ok (S n) l.
Proof. unfold kept. simpl. now destruct (write_ok n). Qed.

Lemma erase_app (pre : list socket) (x : socket) (rest : list socket) :
  erase (length pre) (pre ++ x :: rest) = pre ++ rest.
Proof.
  induction pre as [| a pre IH]; [reflexivity |].
  unfold erase in *. simpl. f_equal. exact IH.
Qed.

Lemma sendLoop_run (write_ok : nat -> bool) (rest : list socket) :
  forall (pre log : list socket) (n fuel : nat),
    (length rest <= fuel)%nat ->
    sendLoop fuel write_ok (mkPass (pre ++ rest) (length pre) n log) =
    Some (mkPass (pre ++ kept write_ok n rest)
                 (length (pre ++ kept write_ok n rest))
                 (n + length rest) (log ++ rest)).
Proof.
  induction rest as [| x rest IH]; intros pre log n fuel Hfuel.
  - assert (E : nth_error (pre ++ []) (length pre) = None)
      by (apply nth_error_None; rewrite app_nil_r; lia).
    destruct fuel; simpl; rewrite E;
      now rewrite !app_nil_r, Nat.add_0_r.
  - assert (E : nth_error (pre ++ x :: rest) (length pre) = Some x)
      by (rewrite nth_error_app2, Nat.sub_diag by lia; reflexivity).
    destruct fuel as [| fuel]; [simpl in Hfuel; lia |].
    simpl in Hfuel. simpl sendLoop. rewrite E. rewrite kept_cons.
    destruct (write_ok n); simpl negb; cbv iota.
    + replace (pre ++ x :: rest) with ((pre ++ [x]) ++ rest)
        by (rewrite <- app_assoc; reflexivity).
      replace (length pre + 1)%nat with (length (pre ++ [x]))
        by (rewrite length_app; reflexivity).
      rewrite IH by lia. rewrite <- !app_assoc. simpl.
      do 2 f_equal. lia.
    + pose proof (erase_app pre x rest) as Her.
      rewrite Her, IH by lia. rewrite <- app_assoc. simpl.
      do 2 f_equal. lia.
Qed.

(** X19.  A pass of [sendTask] over the clients ends, writes the message
    once to each client in the order of [socks], and leaves in [socks], in
    the same order, exactly the clients whose write did not throw. *)
Theorem sendPass_keeps_live (write_ok : nat -> bool) (clients : list socket) :
  exists p : Pass,
    sendPass write_ok clients = Some p /\
    sent p = clients /\
    writes p = length clients /\
    socks p = kept write_ok 0 clients /\
    it p = length (socks p).
Proof.
  unfold sendPass.
  pose proof (sendLoop_run write_ok clients [] [] 0 (length clients)
                (Nat.le_refl _)) as Hrun.
  simpl in Hrun. rewrite Hrun.
  eexists. split; [reflexivity |]. now repeat split.
Qed.

(** X20.  When [try_lock] succeeds, [exportCurrentState] overwrites each of
    the 25 entries of the message, so nothing of the message before is left:
    the time, the pose with the first and the third angle exchanged, the
    entries 6 to 8 of the filter state, three zeros, and then, in the same
    layout, the square roots of [stateStd] and of the diagonal of [P], and
    three zeros; and it signals the sender.  When [try_lock] fails the message
    is left as it is and nothing is signalled. *)
Theorem exportCurrentState_layout
    (self_time : Q) (state stateStd x : nat -> Q) (P : nat -> nat -> Q)
    (message : list Q) :
  length message = message_size ->
  exportCurrentState sqrt true self_time state stateStd x P message =
  ([self_time;
    state 0%nat; state 1%nat; state 2%nat;
    state 5%nat; state 4%nat; state 3%nat;
    x 6%nat; x 7%nat; x 8%nat; 0%Q; 0%Q; 0%Q;
    sqrt (stateStd 0%nat); sqrt (stateStd 1%nat); sqrt (stateStd 2%nat);
    sqrt (stateStd 5%nat); sqrt (stateStd 4%nat); sqrt (stateStd 3%nat);
    sqrt (P 6 6)%nat; sqrt (P 7 7)%nat; sqrt (P 8 8)%nat; 0%Q; 0%Q; 0%Q],
   true) /\
  exportCurrentState sqrt false self_time state stateStd x P message =
  (message, false).
Proof.
  intros Hlen. split; [| reflexivity].
  unfold message_size in Hlen.
  do 25 (destruct message as [| ? message]; [discriminate Hlen |]).
  destruct message; [reflexivity | discriminate Hlen].
Qed.

End ExporterFacts.

Lemma QuantityDataSizes_doc_nonneg (q : Quantity) :
  0 <= QuantityDataSizes_doc q.
Proof. destruct q; simpl; lia. Qed.

Lemma readingSize_formula_witness :
  (forall q, 0 <= QuantityDataSizes_doc q) /\
  widths QuantityDataSizes_doc [qPos; qOriQuat] *
  (widths QuantityDataSizes_doc [qPos; qOriQuat] + 3) < 2 ^ 64 /\
  QuantityDataSizes_doc qPos = 3 /\
  QuantityDataSizes_doc qOriQuat = 4 /\
  let r := register QuantityDataSizes_doc QuantityDataSizes_doc
             [qPos; qOriQuat] (construct ctFull) in
  dataSize r = 7 /\ readingSize r = 1 + dataSize r * (dataSize r + 3) / 2 /\
  readingSize r = 36.
Proof.
  split; [exact QuantityDataSizes_doc_nonneg |].
  split; [reflexivity |].
  split; [reflexivity |].
  split; [reflexivity |].
  pose proof (readingSize_formula QuantityDataSizes_doc QuantityDataSizes_doc
                [qPos; qOriQuat] ctFull QuantityDataSizes_doc_nonneg eq_refl)
    as (_ & Hsize & Hseven).
  destruct (Hseven eq_refl eq_refl) as (H7 & _ & H36).
  split; [exact H7 |]. split; [exact Hsize | exact H36].
Defined.

Import Scenario.

(** * Range queries *)


(** * The theorems at work on the scenarios *)

Ltac evaluated :=
  vm_compute; repeat split; try reflexivity; try (intro; discriminate).

Lemma wf_full4 : wf full4.
Proof. unfold wf, positions_ok, sized. evaluated. Qed.

Lemma wf_wrapped4 : wf wrapped4.
Proof. unfold wf, positions_ok, sized. evaluated. Qed.

Lemma wf_finished : wf finished.
Proof. unfold wf, positions_ok, sized. evaluated. Qed.

Lemma chronological_full4 : chronological full4.
Proof. apply chronologicalb_sound. reflexivity. Qed.



Lemma wf_loaded3 : wf loaded3.
Proof. unfold wf, positions_ok, sized. evaluated. Qed.



Lemma stamped_full4 : stamped full4.
Proof. apply stampedb_sound. reflexivity. Qed.





(** ** Overflow *)

(** On the full buffer [full4], [getWritePos] raises [GENERIC_ERROR], which
    is not [BUFFER_OVERFLOW]. *)
Lemma getWritePos_full_not_overflow :
  isFull full4 = true /\
  getWritePos full4 = (Err GENERIC_ERROR, full4) /\
  fst (getWritePos full4) <> Err BUFFER_OVERFLOW.
Proof.
  split; [reflexivity |]. split; [reflexivity |].
  vm_compute. discriminate.
Qed.

Lemma overflow_errors_witness :
  isFull full4 = true /\
  wf full4 /\
  chronological full4 /\
  ((1 # 2) <= 10)%Q /\
  (0 < 1 # 2)%Q /\
  ((1 # 2) <= stampAt full4 (write_pos full4))%Q /\
  getWritePos full4 = (Err GENERIC_ERROR, full4) /\
  getRaws (1 # 2) 10 true full4 = (Err BUFFER_OVERFLOW, full4).
Proof.
  split; [reflexivity |].
  split; [exact wf_full4 |].
  split; [exact chronological_full4 |].
  split; [evaluated |]. split; [evaluated |]. split; [evaluated |].
  apply (overflow_errors full4 full4 (1 # 2) 10 true);
    [reflexivity | exact wf_full4 | exact chronological_full4
     | evaluated | evaluated | evaluated].
Defined.

(** ** Occupancy *)

(** Three runs on which [isFull()] and the number of unreleased readings
    part.  In a buffer of one slot, a push and [releaseUntil(0)], which keeps
    slot 0, leave one unreleased reading and [isFull()] false.  In a buffer
    of four slots, a push, [release(2)] and two more pushes leave [isFull()]
    true although only three readings were ever pushed.  In a full buffer of
    four slots, [getRaws(3.5, 10)], a push and [getRaws(2.5, 10)], which
    moves [read_pos] back onto [write_pos], leave [isFull()] true although
    slots were released and only one reading was pushed since. *)
Lemma isFull_differs_from_count :
  (let ops := [OpPush (reading 1); OpReleaseUntil 0] in
   let s := fst (run_counted ops (init 1 0 0 0) 0) in
   let n := snd (run_counted ops (init 1 0 0 0) 0) in
   steps_ok ops (init 1 0 0 0) 0 /\
   n = bufferSize s /\ isFull s = false) /\
  (let ops := [OpPush (reading 1); OpRelease 2; OpPush (reading 2);
               OpPush (reading 3)] in
   let s := fst (run_counted ops (init 4 0 0 0) 0) in
   let n := snd (run_counted ops (init 4 0 0 0) 0) in
   isFull s = true /\ n = 2 /\ n <> bufferSize s) /\
  (let ops := pushes4 ++ [OpGetRaws (7 # 2) 10 true; OpPush (reading 5);
                          OpGetRaws (5 # 2) 10 true] in
   let s := fst (run_counted ops (init 4 0 0 0) 0) in
   let n := snd (run_counted ops (init 4 0 0 0) 0) in
   isFull s = true /\ n <> bufferSize s).
Proof.
  split; [| split].
  - cbv zeta. split; [| split; reflexivity].
    vm_compute. repeat split; try exact I; try reflexivity;
      intro; discriminate.
  - cbv zeta. split; [reflexivity |]. split; [reflexivity |].
    vm_compute. discriminate.
  - cbv zeta. split; [reflexivity |]. vm_compute. discriminate.
Qed.

Lemma steps_ok_refill4 : steps_ok refill4 (init 4 0 0 0) 0.
Proof.
  vm_compute. repeat split; try exact I. right. reflexivity.
Qed.

Lemma occupancy_invariant_witness :
  2 <= 4 <= INT_MAX /\
  steps_ok refill4 (init 4 0 0 0) 0 /\
  let s := fst (run_counted refill4 (init 4 0 0 0) 0) in
  let n := snd (run_counted refill4 (init 4 0 0 0) 0) in
  isFull s && isEmpty s = false /\
  (isFull s = true <-> n = bufferSize s).
Proof.
  split; [evaluated |].
  split; [exact steps_ok_refill4 |].
  apply (occupancy_invariant 4 0 0 0 refill4);
    [evaluated | exact steps_ok_refill4].
Defined.

(** ** Consuming and peeking *)

(** On the full buffer [full4], [getRaw(0)] leaves [read_pos] on slot 0 and
    the buffer full, so that the producer is still turned away, where
    [release(0)] moves [read_pos] to slot 1 and lets the producer write
    slot 0. *)
Lemma getRaw_keeps_slot :
  (let s' := snd (getRaw 0 full4) in
   read_pos s' = 0 /\ read_pos_used s' = true /\ isFull s' = true /\
   fst (getWritePos s') = Err GENERIC_ERROR) /\
  (let s' := snd (release 0 full4) in
   read_pos s' = 1 /\ isFull s' = false /\ fst (getWritePos s') = Ok 0).
Proof. repeat split; reflexivity. Qed.

(** In a buffer of one slot [getRaw(0)] clears [buffer_full], as the slot
    after slot 0 is [write_pos], and the producer may write slot 0 at
    once. *)
Example getRaw_one_slot :
  let s := snd (push (reading 1) (init 1 0 0 0)) in
  isFull s = true /\
  isFull (snd (getRaw 0 s)) = false /\
  fst (getWritePos (snd (getRaw 0 s))) = Ok 0.
Proof. repeat split; reflexivity. Qed.

Lemma getRaw_keeps_id_witness :
  sized full4 /\
  0 <= 0 < bufferSize full4 /\
  2 <= bufferSize full4 /\
  0 <= write_pos full4 < bufferSize full4 /\
  (write_pos full4 <> 0 \/ buffer_full full4 = true) /\
  write_pos full4 = 0 /\
  exists r,
    slotOf full4 0 = Some r /\
    fst (getRaw 0 full4) = Ok r /\
    let s' := snd (getRaw 0 full4) in
    read_pos s' = 0 /\
    read_pos_used s' = true /\
    index s' = index full4 + 1 /\
    last_sent_pos s' = 0 /\
    write_pos s' = write_pos full4 /\
    buffer s' = buffer full4 /\
    buffer_full s' = (if getFirstUnreadPos s' =? write_pos full4 then false
                      else buffer_full full4) /\
    isFull s' = true /\
    fst (getWritePos s') = Err GENERIC_ERROR /\
    forall rs,
      slotOf (snd (pushAll rs s')) 0 = Some r /\
      read_pos (snd (pushAll rs s')) = 0.
Proof.
  assert (Hbig : 2 <= bufferSize full4) by evaluated.
  assert (Hw : 0 <= write_pos full4 < bufferSize full4) by evaluated.
  assert (Hkept : write_pos full4 <> 0 \/ buffer_full full4 = true)
    by (right; reflexivity).
  assert (Hwp : write_pos full4 = 0) by reflexivity.
  split; [exact (proj2 wf_full4) |].
  split; [evaluated |].
  split; [exact Hbig |]. split; [exact Hw |]. split; [exact Hkept |].
  split; [exact Hwp |].
  destruct (getRaw_keeps_id full4 0 (proj2 wf_full4))
    as (r & Hr & Hres & Hrp & Hused & Hidx & Hlast & Hwp' & Hbuf & Hbf
        & Hprot);
    [evaluated |].
  destruct (Hprot Hbig Hw Hkept) as [Hturned Hpushes].
  destruct (Hturned Hwp) as [Hfull Hraise].
  exists r.
  split; [exact Hr |]. split; [exact Hres |]. split; [exact Hrp |].
  split; [exact Hused |]. split; [exact Hidx |]. split; [exact Hlast |].
  split; [exact Hwp' |]. split; [exact Hbuf |]. split; [exact Hbf |].
  split; [exact Hfull |]. split; [exact Hraise | exact Hpushes].
Defined.

Lemma observeRaw_peek_witness :
  0 <= 2 < Z.of_nat (length (buffer full4)) /\
  exists r,
    slotOf full4 2 = Some r /\
    observeRaw 2 full4 = (Ok r, full4) /\
    (forall n, observeRaw_times n 2 full4 = (Ok (repeat r n), full4)) /\
    (forall n infos,
        getUnreadRawInfos lastTimestamp infos
          (snd (observeRaw_times n 2 full4)) =
        getUnreadRawInfos lastTimestamp infos full4).
Proof.
  split; [evaluated |].
  apply (observeRaw_peek lastTimestamp full4 2). evaluated.
Defined.

Lemma release_effect_witness :
  bufferSize full4 <= INT_MAX /\
  0 <= 3 < bufferSize full4 /\
  fst (release 3 full4) = Ok tt /\
  let s' := snd (release 3 full4) in
  read_pos s' = (3 + 1) mod bufferSize full4 /\
  read_pos_used s' = false /\
  (buffer_full s' = false <->
   read_pos s' = write_pos full4 \/ buffer_full full4 = false) /\
  buffer_full s' = (if read_pos s' =? write_pos full4 then false
                    else buffer_full full4) /\
  write_pos s' = write_pos full4 /\
  buffer s' = buffer full4 /\
  bufferSize s' = bufferSize full4 /\
  index s' = index full4 /\
  data_count s' = data_count full4 /\
  no_more_data s' = no_more_data full4.
Proof.
  split; [evaluated |].
  split; [evaluated |].
  apply (release_effect full4 3); evaluated.
Defined.

(** ** Status codes *)

Lemma unread_stamped_finished : unread_stamped finished.
Proof. apply unread_stampedb_sound. reflexivity. Qed.

Lemma unread_stamped_wrapped4 : unread_stamped wrapped4.
Proof. apply unread_stampedb_sound. reflexivity. Qed.

Lemma status_codes_witness :
  (wf finished /\
   unread_stamped finished /\
   isEmpty finished = true /\
   no_more_data finished = true /\
   exists infos' info',
     getUnreadRawInfos lastTimestamp no_infos finished =
     (Ok (-2, infos'), finished) /\
     getNextRawInfo no_info finished = (Ok (-2, info'), finished) /\
     forall n, poll lastTimestamp n no_infos no_info finished =
               (Ok (repeat (-2, -2) n), finished)) /\
  (wf wrapped4 /\
   unread_stamped wrapped4 /\
   isEmpty wrapped4 = false /\
   exists infos' info',
     getUnreadRawInfos lastTimestamp no_infos wrapped4 =
     (Ok (0, infos'), wrapped4) /\
     getNextRawInfo no_info wrapped4 = (Ok (0, info'), wrapped4)).
Proof.
  split.
  - split; [exact wf_finished |].
    split; [exact unread_stamped_finished |].
    split; [reflexivity |]. split; [reflexivity |].
    destruct (proj1 (status_codes lastTimestamp finished no_infos no_info
                       wf_finished) unread_stamped_finished)
      as (infos' & info' & Hinfos & Hinfo & Hpoll).
    exists infos', info'.
    split; [exact Hinfos |]. split; [exact Hinfo |].
    exact (Hpoll eq_refl eq_refl).
  - split; [exact wf_wrapped4 |].
    split; [exact unread_stamped_wrapped4 |].
    split; [reflexivity |].
    destruct (proj1 (status_codes lastTimestamp wrapped4 no_infos no_info
                       wf_wrapped4) unread_stamped_wrapped4)
      as (infos' & info' & Hinfos & Hinfo & _).
    exists infos', info'. split; [exact Hinfos | exact Hinfo].
Defined.

Lemma getNextRawInfo_arrival_zero_witness :
  wf wrapped4 /\
  isEmpty wrapped4 = false /\
  exists r,
    slotOf wrapped4 (getFirstUnreadPos wrapped4) = Some r /\
    extractRawTimestamp r = Some 3%Q /\
    getNextRawInfo no_info wrapped4 =
    (Ok (0, mkRawInfo (getFirstUnreadPos wrapped4) 3%Q 0%Q), wrapped4).
Proof.
  split; [exact wf_wrapped4 |].
  split; [reflexivity |].
  destruct (getNextRawInfo_arrival_zero wrapped4 no_info wf_wrapped4 eq_refl)
    as (r & Hr & Hsome & _).
  exists r. split; [exact Hr |].
  assert (Ht : extractRawTimestamp r = Some 3%Q).
  { vm_compute in Hr. injection Hr as <-. reflexivity. }
  split; [exact Ht | exact (Hsome 3%Q Ht)].
Defined.

(** The slot that [getNextRawInfo] describes on [wrapped4] arrived at time 4;
    the arrival time reported is 0. *)
Example getNextRawInfo_wrapped4 :
  option_map extractRawArrival (slotOf wrapped4 (getFirstUnreadPos wrapped4)) =
  Some 4%Q /\
  fst (getNextRawInfo no_info wrapped4) = Ok (0, mkRawInfo 2 3 0).
Proof. split; reflexivity. Qed.

(** ** Positions *)

Lemma mixed_steps_in_range : Forall (op_in_range 4) mixed_steps.
Proof. unfold mixed_steps. repeat constructor; simpl; lia. Qed.

Lemma positions_invariant_witness :
  0 < 4 <= INT_MAX /\
  Forall (op_in_range 4) mixed_steps /\
  positions_ok (run mixed_steps (init 4 0 0 0)).
Proof.
  split; [evaluated |].
  split; [exact mixed_steps_in_range |].
  apply (positions_invariant 4 0 0 0 mixed_steps);
    [evaluated | exact mixed_steps_in_range].
Defined.


(** ** Runs and views *)

Lemma wf_fresh4 : wf (fresh 4).
Proof. unfold wf, positions_ok, sized. evaluated. Qed.

Lemma wf_init4 : wf (init (T := RawVec) 4 0 0 0).
Proof. unfold wf, positions_ok, sized. evaluated. Qed.

Lemma wf_along_run_witness :
  0 < 4 <= INT_MAX /\
  Forall (op_in_range 4) mixed_steps /\
  let s := run mixed_steps (init 4 0 0 0) in
  wf s /\ bufferSize s = 4 /\ Z.of_nat (length (buffer s)) = 4.
Proof.
  split; [evaluated |].
  split; [exact mixed_steps_in_range |].
  apply (wf_along_run 4 0 0 0 mixed_steps);
    [evaluated | exact mixed_steps_in_range].
Defined.

Lemma getRaws_view_witness :
  wf wrapped4 /\
  getRaws 4 5 true wrapped4 = (Ok [2; 3; 0], set_read_pos 2 wrapped4) /\
  NoDup [2; 3; 0] /\
  (forall k, In k [2; 3; 0] -> 0 <= k < bufferSize wrapped4) /\
  Z.of_nat (length [2; 3; 0]) <= bufferSize wrapped4 /\
  set_read_pos 2 wrapped4 = set_read_pos 2 wrapped4.
Proof.
  assert (Hrun : getRaws 4 5 true wrapped4 =
                 (Ok [2; 3; 0], set_read_pos 2 wrapped4)) by reflexivity.
  split; [exact wf_wrapped4 |].
  split; [exact Hrun |].
  destruct (getRaws_view wrapped4 (set_read_pos 2 wrapped4) 4 5 true
              [2; 3; 0] wf_wrapped4 Hrun) as (Hnd & Hin & Hlen & Hst).
  split; [exact Hnd |]. split; [exact Hin |]. split; [exact Hlen |].
  cbv iota in Hst. exact Hst.
Defined.

(** A buffer that was constructed but not initialised holds no timestamp:
    [getRaws] reads outside the first reading it looks at. *)
Example getRaws_before_initData :
  getRaws 1 2 true (init (T := RawVec) 4 0 0 0) =
  (Err BAD_INDEX, init 4 0 0 0) /\
  stampOf (init (T := RawVec) 4 0 0 0) 1 = None.
Proof. split; reflexivity. Qed.

Lemma getRaws_raises_witness :
  wf full4 /\
  stamped full4 /\
  (fst (getRaws 10 1 true full4) = Err ASSERT_FAILED <-> (1 < 10)%Q) /\
  (forall e s',
      getRaws 10 1 true full4 = (Err e, s') ->
      s' = full4 /\
      (e = ASSERT_FAILED \/
       (e = BUFFER_OVERFLOW /\ (0 < 10)%Q /\ (10 <= 1)%Q) \/
       (e = BAD_INDEX /\ (10 <= 1)%Q /\
        exists i, 0 <= i < bufferSize full4 /\ stampOf full4 i = None))) /\
  fst (getRaws 10 1 true full4) <> Err BAD_INDEX.
Proof.
  split; [exact wf_full4 |].
  split; [exact stamped_full4 |].
  destruct (getRaws_raises full4 10 1 true wf_full4) as (Hassert & Herr & Hst).
  split; [exact Hassert |]. split; [exact Herr |].
  exact (Hst stamped_full4).
Defined.

Lemma getRaws_overflow_iff_witness :
  wf full4 /\
  2 <= bufferSize full4 /\
  chronological full4 /\
  (fst (getRaws (1 # 2) 10 true full4) = Err BUFFER_OVERFLOW <->
   (0 < 1 # 2)%Q /\ ((1 # 2) <= 10)%Q /\
   ((1 # 2) <= stampAt full4 (write_pos full4))%Q).
Proof.
  split; [exact wf_full4 |].
  split; [evaluated |].
  split; [exact chronological_full4 |].
  apply (getRaws_overflow_iff full4 (1 # 2) 10 true wf_full4);
    [evaluated | exact chronological_full4].
Defined.

Lemma stamps_fresh4 (i : Z) :
  0 <= i < bufferSize (fresh 4) ->
  (stampAt (fresh 4) i < 0)%Q /\ (stampAt (fresh 4) i < 0)%Q.
Proof.
  intros Hi. change (bufferSize (fresh 4)) with 4 in Hi.
  assert (Hcases : i = 0 \/ i = 1 \/ i = 2 \/ i = 3) by lia.
  destruct Hcases as [-> | [-> | [-> | ->]]]; split; reflexivity.
Qed.

Lemma getRaws_no_data_witness :
  wf (fresh 4) /\
  (0 <= 10)%Q /\
  (forall i, 0 <= i < bufferSize (fresh 4) ->
             (stampAt (fresh 4) i < 0)%Q /\ (stampAt (fresh 4) i < 0)%Q) /\
  getRaws 0 10 true (fresh 4) = (Ok [], fresh 4).
Proof.
  split; [exact wf_fresh4 |].
  split; [evaluated |].
  split; [exact stamps_fresh4 |].
  apply (getRaws_no_data (fresh 4) 0 10 true wf_fresh4);
    [evaluated | exact stamps_fresh4].
Defined.

Lemma stamps_full4 (i : Z) :
  0 <= i < bufferSize full4 -> (stampAt full4 i < 5)%Q.
Proof.
  intros Hi. change (bufferSize full4) with 4 in Hi.
  assert (Hcases : i = 0 \/ i = 1 \/ i = 2 \/ i = 3) by lia.
  destruct Hcases as [-> | [-> | [-> | ->]]]; reflexivity.
Qed.

Lemma getRaws_all_older_witness :
  wf full4 /\
  stamped full4 /\
  2 <= bufferSize full4 /\
  (5 <= 10)%Q /\
  (from_start < 5)%Q /\
  (forall i, 0 <= i < bufferSize full4 -> (stampAt full4 i < 5)%Q) /\
  (0 <= stampAt full4 2)%Q /\
  getRaws 5 10 true full4 = (Ok [2], set_read_pos 2 full4).
Proof.
  split; [exact wf_full4 |].
  split; [exact stamped_full4 |].
  split; [evaluated |]. split; [evaluated |]. split; [evaluated |].
  split; [exact stamps_full4 |].
  split; [evaluated |].
  apply (getRaws_all_older full4 5 10 true wf_full4 stamped_full4);
    [evaluated | evaluated | evaluated | exact stamps_full4 | evaluated].
Defined.

(** ** Unread readings *)

Lemma getUnreadRawInfos_available_witness :
  wf wrapped4 /\
  unread_stamped wrapped4 /\
  exists status infos' info',
    getUnreadRawInfos lastTimestamp no_infos wrapped4 =
    (Ok (status, infos'), wrapped4) /\
    available infos' = map (rawInfoOf wrapped4) (unread wrapped4) /\
    map id (available infos') = unread wrapped4 /\
    NoDup (unread wrapped4) /\
    getNextRawInfo no_info wrapped4 = (Ok (status, info'), wrapped4) /\
    match available infos' with
    | [] => info' = no_info
    | first :: _ => id info' = id first /\ timestamp info' = timestamp first
    end.
Proof.
  split; [exact wf_wrapped4 |].
  split; [exact unread_stamped_wrapped4 |].
  exact (getUnreadRawInfos_available lastTimestamp wrapped4 no_infos no_info
           wf_wrapped4 unread_stamped_wrapped4).
Defined.

Lemma consume_kth_unread_witness :
  wf wrapped4 /\
  (1 < length (unread wrapped4))%nat /\
  let id := nth 1 (unread wrapped4) 0 in
  (exists r, slotOf wrapped4 id = Some r /\
             fst (getRaw id wrapped4) = Ok r) /\
  unread (snd (getRaw id wrapped4)) = skipn 2 (unread wrapped4) /\
  fst (release id wrapped4) = Ok tt /\
  unread (snd (release id wrapped4)) = skipn 2 (unread wrapped4) /\
  (2%nat = length (unread wrapped4) ->
   isEmpty (snd (getRaw id wrapped4)) = true /\
   isEmpty (snd (release id wrapped4)) = true).
Proof.
  split; [exact wf_wrapped4 |].
  split; [vm_compute; lia |].
  apply (consume_kth_unread wrapped4 1 wf_wrapped4). vm_compute. lia.
Defined.

Lemma getRaw_then_release_is_release_witness :
  sized full4 /\
  0 <= 1 < bufferSize full4 /\
  exists r,
    slotOf full4 1 = Some r /\
    getRaw_then_release 1 full4 =
    (Ok r,
     set_index (index full4 + 1)
       (set_last_sent_pos 1 (snd (release 1 full4)))).
Proof.
  split; [exact (proj2 wf_full4) |].
  split; [evaluated |].
  apply (getRaw_then_release_is_release full4 1 (proj2 wf_full4)). evaluated.
Defined.

Lemma getLastProcessedRaw_after_getRaw_witness :
  let cs := [CallRelease 1; CallGetRaws 3 10 true; CallObserveRaw 3;
             CallGetUnreadRawInfos no_infos] in
  sized full4 /\
  0 <= 1 < bufferSize full4 /\
  Forall not_getRaw cs /\
  let s' := after_all lastTimestamp cs (snd (getRaw 1 full4)) in
  exists r, fst (getRaw 1 full4) = Ok r /\ getLastProcessedRaw s' = (Ok r, s').
Proof.
  intros cs.
  assert (Hcs : Forall not_getRaw cs) by (repeat constructor).
  split; [exact (proj2 wf_full4) |].
  split; [evaluated |].
  split; [exact Hcs |].
  apply (getLastProcessedRaw_after_getRaw lastTimestamp full4 1 cs
           (proj2 wf_full4)); [evaluated | exact Hcs].
Defined.

(** ** The producer *)

Lemma push_then_peek_witness :
  wf loaded3 /\
  isFull loaded3 = false /\
  exists s',
    push (reading 4) loaded3 = (Ok tt, s') /\
    getLastUnreadPos s' = write_pos loaded3 /\
    observeRaw (getLastUnreadPos s') s' = (Ok (reading 4), s') /\
    (forall i, i <> write_pos loaded3 -> slotOf s' i = slotOf loaded3 i) /\
    read_pos s' = read_pos loaded3 /\
    data_count s' = data_count loaded3 + 1 /\
    wf s'.
Proof.
  split; [exact wf_loaded3 |].
  split; [reflexivity |].
  exact (push_then_peek loaded3 (reading 4) wf_loaded3 eq_refl).
Defined.

Lemma capacity_witness :
  0 < 2 <= INT_MAX /\
  (let rs := [reading 1; reading 2] in
   Z.of_nat (length rs) <= 2 /\
   exists s',
     pushAll rs (init 2 0 0 0) = (Ok tt, s') /\
     firstn (length rs) (buffer s') = rs /\
     isFull s' = (Z.of_nat (length rs) =? 2) /\
     isEmpty s' = (Z.of_nat (length rs) =? 0)) /\
  (let rs := [reading 1; reading 2; reading 3] in
   2 < Z.of_nat (length rs) /\
   fst (pushAll rs (init 2 0 0 0)) = Err GENERIC_ERROR).
Proof.
  assert (Hsize : 0 < 2 <= INT_MAX) by evaluated.
  split; [exact Hsize |]. split.
  - intros rs. assert (Hlen : Z.of_nat (length rs) <= 2) by evaluated.
    split; [exact Hlen |].
    exact (proj1 (capacity 2 0 0 0 rs Hsize) Hlen).
  - intros rs. assert (Hlen : 2 < Z.of_nat (length rs)) by evaluated.
    split; [exact Hlen |].
    exact (proj2 (capacity 2 0 0 0 rs Hsize) Hlen).
Defined.

Lemma release_current_on_empty_witness :
  wf (fresh 4) /\
  2 <= bufferSize (fresh 4) /\
  isEmpty (fresh 4) = true /\
  exists s',
    release_current (fresh 4) = (Ok tt, s') /\
    isEmpty s' = read_pos_used (fresh 4) /\
    (read_pos_used (fresh 4) = false ->
     Z.of_nat (length (unread s')) = bufferSize (fresh 4) - 1).
Proof.
  split; [exact wf_fresh4 |].
  split; [evaluated |].
  split; [reflexivity |].
  apply (release_current_on_empty (fresh 4) wf_fresh4);
    [evaluated | reflexivity].
Defined.

(** ** The registry and [initData] *)

Lemma getQuantity_layout_witness :
  (forall q, 0 <= QuantityDataSizes_doc q) /\
  ~ In qAngVel [qAcc] /\
  widths QuantityDataSizes_doc ([qPos; qOriQuat] ++ qAngVel :: [qAcc])
  < INT_MAX /\
  let r := register QuantityDataSizes_doc QuantityDataSizes_doc
             ([qPos; qOriQuat] ++ qAngVel :: [qAcc]) (construct ctVar) in
  getQuantity qAngVel r = 1 + widths QuantityDataSizes_doc [qPos; qOriQuat] /\
  getQuantity qAngVel r + QuantityDataSizes_doc qAngVel <= 1 + dataSize r.
Proof.
  assert (Habs : ~ In qAngVel [qAcc])
    by (intros [E | []]; discriminate E).
  split; [exact QuantityDataSizes_doc_nonneg |].
  split; [exact Habs |].
  split; [reflexivity |].
  apply (getQuantity_layout QuantityDataSizes_doc QuantityDataSizes_doc
           [qPos; qOriQuat] [qAcc] qAngVel ctVar
           QuantityDataSizes_doc_nonneg Habs).
  reflexivity.
Defined.

Lemma getQuantity_absent_witness :
  ~ In qMag [qPos; qOriQuat] /\
  getQuantity qMag
    (register QuantityDataSizes_doc QuantityDataSizes_doc [qPos; qOriQuat]
       (clearQuantities (construct ctFull))) = 2 ^ 64 - 1.
Proof.
  assert (Habs : ~ In qMag [qPos; qOriQuat])
    by (intros [E | [E | []]]; discriminate E).
  split; [exact Habs |].
  exact (getQuantity_absent QuantityDataSizes_doc QuantityDataSizes_doc
           qMag [qPos; qOriQuat] (construct ctFull) Habs).
Defined.

Lemma QuantityDataSizes_doc_bounds (q : Quantity) :
  0 <= QuantityDataSizes_doc q <= QuantityDataSizes_doc q.
Proof. destruct q; simpl; lia. Qed.

Lemma obsSize_le_dataSize_witness :
  (forall q, 0 <= QuantityDataSizes_doc q <= QuantityDataSizes_doc q) /\
  widths QuantityDataSizes_doc [qPos; qOriQuat] < 2 ^ 64 /\
  let r := register QuantityDataSizes_doc QuantityDataSizes_doc
             [qPos; qOriQuat] (construct ctFull) in
  obsSize r = obs_widths QuantityDataSizes_doc [qPos; qOriQuat] /\
  obsSize r <= dataSize r.
Proof.
  split; [exact QuantityDataSizes_doc_bounds |].
  split; [reflexivity |].
  exact (obsSize_le_dataSize QuantityDataSizes_doc QuantityDataSizes_doc
           [qPos; qOriQuat] ctFull QuantityDataSizes_doc_bounds eq_refl).
Defined.

Lemma initData_marks_witness :
  wf (init (T := RawVec) 4 0 0 0) /\
  1 <= readingSize position_only <= INT_MAX /\
  (no_data_mark < 0)%Q /\
  (0 <= 10)%Q /\
  (forall i, 0 <= i < 4 ->
     exists x, slotOf (fresh 4) i = Some x /\
               Z.of_nat (length (data x)) = readingSize position_only /\
               extractRawTimestamp x = Some no_data_mark) /\
  stamped (fresh 4) /\
  getRaws 0 10 true (fresh 4) = (Ok [], fresh 4).
Proof.
  assert (Hsize : 1 <= readingSize position_only <= INT_MAX) by evaluated.
  assert (Hmark : (no_data_mark < 0)%Q) by reflexivity.
  assert (Hle : (0 <= 10)%Q) by evaluated.
  split; [exact wf_init4 |].
  split; [exact Hsize |].
  split; [exact Hmark |].
  split; [exact Hle |].
  destruct (initData_marks position_only (init 4 0 0 0) 0 10 true
              wf_init4 Hsize) as (Hslots & Hst & Hview).
  split; [exact Hslots |]. split; [exact Hst | exact (Hview Hmark Hle)].
Defined.

(** ** The exporter *)

Lemma exportCurrentState_layout_witness :
  let count (i : nat) : Q := inject_Z (Z.of_nat i) in
  let message := repeat 7%Q 25 in
  length message = Exporter.message_size /\
  Exporter.exportCurrentState (fun v => v) true 100 count count count
    (fun i _ => count i) message =
  ([100; 0; 1; 2; 5; 4; 3; 6; 7; 8; 0; 0; 0;
    0; 1; 2; 5; 4; 3; 6; 7; 8; 0; 0; 0]%Q, true) /\
  Exporter.exportCurrentState (fun v => v) false 100 count count count
    (fun i _ => count i) message = (message, false).
Proof.
  intros count message.
  split; [reflexivity |].
  exact (exportCurrentState_layout (fun v => v) 100 count count count
           (fun i _ => count i) message eq_refl).
Defined.
